(** * quest_log: circuit breaker, rate limiter, message bus and CQRS buses

    A shallow embedding of the shared infrastructure layer of the
    repository ([src/common/resilience.py], [src/common/cache.py],
    [src/common/rate_limit.py], [src/common/messaging.py],
    [src/common/cqrs.py]) together with the properties the specification
    states about it.

    Conventions of the embedding:
    - Python [int] is [Z]. A Python [float] is an exact rational [Q]
      where it is only compared or truncated (the clocks of the circuit
      breaker and of the sliding window); the arithmetic of the token
      bucket, where rounding decides the outcome, is given in binary64
      ([Float64], [RateLimit.Binary64]) next to its exact reading;
    - every call of [time.time()] is an explicit argument, one per call
      site that can be reached, so nothing is assumed about the clock;
    - a coroutine is run to completion: [await] is sequencing;
    - an operation that can raise returns a [result]; only instances of
      [Exception] are modelled (the [except Exception] clauses of the
      source catch exactly those). *)

From Stdlib Require Import ZArith QArith Qround Qminmax List String Lia SpecFloat.
From stdpp Require Import base option list gmap strings pretty.

Set Default Proof Using "Type".

Local Open Scope Z_scope.

(** ** Python exceptions and results *)

Inductive exn : Type :=
| ZeroDivisionError
| ValueError
| ResponseError
| AttributeError (msg : string)
| Exception (msg : string).

(** [str(e)] for the exception values of the model. *)
Definition exn_str (e : exn) : string :=
  match e with
  | ZeroDivisionError => "division by zero"
  | ValueError => "invalid literal"
  | ResponseError => "value is not an integer or out of range"
  | AttributeError msg => msg
  | Exception msg => msg
  end.

Inductive result (A : Type) : Type :=
| Ok (a : A)
| Raise (e : exn).
Arguments Ok {A} a.
Arguments Raise {A} e.

Definition bind {A B : Type} (r : result A) (k : A -> result B) : result B :=
  match r with
  | Ok a => k a
  | Raise e => Raise e
  end.

#[global] Instance result_ret : MRet result := fun A a => Ok a.
#[global] Instance result_bind : MBind result := fun A B k r => bind r k.

Definition is_ok {A : Type} (r : result A) : bool :=
  match r with Ok _ => true | Raise _ => false end.

(** Python's floor division and [int()] of a float. *)
Definition py_floordiv (a b : Z) : result Z :=
  if Z.eqb b 0 then Raise ZeroDivisionError else Ok (a / b).

Definition py_int_of_float (q : Q) : Z := Z.quot (Qnum q) (Z.pos (Qden q)).

(** Python's true division of two floats. *)
Definition py_truediv (a b : Q) : result Q :=
  if Qeq_bool b 0 then Raise ZeroDivisionError else Ok (a / b)%Q.

(** ** Python floats

    A Python [float] is an IEEE 754 binary64 number. Its arithmetic is
    that of [SpecFloat]: every operation gives the float nearest to the
    exact result, ties to even, an infinity on overflow. *)

Module Float64.

Definition prec : Z := 53.
Definition emax : Z := 1024.

Definition add : spec_float -> spec_float -> spec_float := SFadd prec emax.
Definition sub : spec_float -> spec_float -> spec_float := SFsub prec emax.
Definition mul : spec_float -> spec_float -> spec_float := SFmul prec emax.

(** [x / y] for two floats: a zero divisor raises, whatever [x] is. *)
Definition truediv (x y : spec_float) : result spec_float :=
  match y with
  | S754_zero _ => Raise ZeroDivisionError
  | _ => Ok (SFdiv prec emax x y)
  end.

(** The float nearest to the integer [n]. *)
Definition of_int (n : Z) : spec_float := binary_normalize prec emax n 0 false.

Definition one : spec_float := of_int 1.

(** The float nearest to the fraction [a / b]. *)
Definition of_ratio (a : Z) (b : positive) : spec_float :=
  match a with
  | Z0 => S754_zero false
  | Zpos m =>
      let '(q, e, l) := SFdiv_core_binary prec emax (Zpos m) 0 (Zpos b) 0 in
      binary_round_aux prec emax false q e l
  | Zneg m =>
      let '(q, e, l) := SFdiv_core_binary prec emax (Zpos m) 0 (Zpos b) 0 in
      binary_round_aux prec emax true q e l
  end.

Definition of_Q (q : Q) : spec_float := of_ratio (Qnum q) (Qden q).

(** The exact value of a finite float. *)
Definition to_Q (x : spec_float) : Q :=
  match x with
  | S754_finite s m e => inject_Z (cond_Zopp s (Zpos m)) * 2 ^ e
  | _ => 0
  end.

(** [float(n)] where an [int] meets a [float] in an operation. *)
Definition int_to_float (n : Z) : result spec_float :=
  match of_int n with
  | S754_infinity _ => Raise (Exception "int too large to convert to float")
  | x => Ok x
  end.

(** [a / b] for two [int]s: the float nearest to the quotient. *)
Definition int_truediv (a b : Z) : result spec_float :=
  if Z.eqb b 0 then Raise ZeroDivisionError
  else if Z.eqb a 0 then Ok (S754_zero (Z.ltb b 0))
  else
    match of_ratio (a * Z.sgn b) (Z.to_pos (Z.abs b)) with
    | S754_infinity _ =>
        Raise (Exception "integer division result too large for a float")
    | x => Ok x
    end.

(** A finite float without its fractional part. *)
Definition trunc (x : spec_float) : Z :=
  match x with
  | S754_finite s m e =>
      cond_Zopp s
        match e with
        | Zneg k => Zpos m / 2 ^ Zpos k
        | _ => Zpos m * 2 ^ e
        end
  | _ => 0
  end.

(** [int(x)] *)
Definition to_int (x : spec_float) : result Z :=
  match x with
  | S754_nan => Raise ValueError
  | S754_infinity _ => Raise (Exception "cannot convert float infinity to integer")
  | _ => Ok (trunc x)
  end.

(** [x < n] for a float and an [int]: Python compares the exact values;
    a NaN is not below anything. *)
Definition lt_int (x : spec_float) (n : Z) : bool :=
  match x with
  | S754_nan => false
  | S754_infinity s => s
  | S754_zero _ => Z.ltb 0 n
  | S754_finite s m e =>
      match e with
      | Zneg k => Z.ltb (cond_Zopp s (Zpos m)) (n * 2 ^ Zpos k)
      | _ => Z.ltb (cond_Zopp s (Zpos m) * 2 ^ e) n
      end
  end.

Definition is_finite (x : spec_float) : bool :=
  match x with
  | S754_zero _ | S754_finite _ _ _ => true
  | _ => false
  end.

Definition is_zero (x : spec_float) : bool :=
  match x with
  | S754_zero _ => true
  | _ => false
  end.

End Float64.

(** ** [common/resilience.py] *)

Module Resilience.

Inductive CircuitState : Type := CLOSED | OPEN | HALF_OPEN.

Definition CircuitState_eqb (a b : CircuitState) : bool :=
  match a, b with
  | CLOSED, CLOSED | OPEN, OPEN | HALF_OPEN, HALF_OPEN => true
  | _, _ => false
  end.

Record CircuitBreakerConfig : Type := {
  failure_threshold : Z;
  recovery_timeout : Q;
  success_threshold : Z;
  half_open_max_requests : Z
}.

Definition default_config : CircuitBreakerConfig :=
  {| failure_threshold := 5; recovery_timeout := 30;
     success_threshold := 2; half_open_max_requests := 1 |}.

Record CircuitBreaker : Type := {
  name : string;
  config : CircuitBreakerConfig;
  _state : CircuitState;
  _failure_count : Z;
  _success_count : Z;
  _last_failure_time : option Q;
  _half_open_requests : Z
}.

(** The dataclass constructor: only [name] and [config] are [init] fields. *)
Definition new_breaker (n : string) (c : CircuitBreakerConfig) : CircuitBreaker :=
  {| name := n; config := c; _state := CLOSED; _failure_count := 0;
     _success_count := 0; _last_failure_time := None;
     _half_open_requests := 0 |}.

Definition set_state (s : CircuitState) (cb : CircuitBreaker) : CircuitBreaker :=
  {| name := name cb; config := config cb; _state := s;
     _failure_count := _failure_count cb; _success_count := _success_count cb;
     _last_failure_time := _last_failure_time cb;
     _half_open_requests := _half_open_requests cb |}.

Definition set_failure_count (n : Z) (cb : CircuitBreaker) : CircuitBreaker :=
  {| name := name cb; config := config cb; _state := _state cb;
     _failure_count := n; _success_count := _success_count cb;
     _last_failure_time := _last_failure_time cb;
     _half_open_requests := _half_open_requests cb |}.

Definition set_success_count (n : Z) (cb : CircuitBreaker) : CircuitBreaker :=
  {| name := name cb; config := config cb; _state := _state cb;
     _failure_count := _failure_count cb; _success_count := n;
     _last_failure_time := _last_failure_time cb;
     _half_open_requests := _half_open_requests cb |}.

Definition set_last_failure_time (t : option Q) (cb : CircuitBreaker) : CircuitBreaker :=
  {| name := name cb; config := config cb; _state := _state cb;
     _failure_count := _failure_count cb; _success_count := _success_count cb;
     _last_failure_time := t;
     _half_open_requests := _half_open_requests cb |}.

Definition set_half_open_requests (n : Z) (cb : CircuitBreaker) : CircuitBreaker :=
  {| name := name cb; config := config cb; _state := _state cb;
     _failure_count := _failure_count cb; _success_count := _success_count cb;
     _last_failure_time := _last_failure_time cb;
     _half_open_requests := n |}.

(** Truth value of an [Optional[float]]: [None] and [0.0] are falsy. *)
Definition truthy_time (t : option Q) : bool :=
  match t with
  | Some q => negb (Qeq_bool q 0)
  | None => false
  end.

(** The [state] property. [now] is the value of [time.time()] at line 58;
    it is looked at only when the breaker is [OPEN] with a truthy
    [_last_failure_time]. The property mutates the breaker, so the
    breaker after the read is returned with the observed state. *)
Definition state (now : Q) (cb : CircuitBreaker) : CircuitState * CircuitBreaker :=
  match _state cb, _last_failure_time cb with
  | OPEN, Some t =>
      if truthy_time (Some t) then
        let elapsed := (now - t)%Q in
        if Qle_bool (recovery_timeout (config cb)) elapsed then
          let cb' := set_half_open_requests 0 (set_state HALF_OPEN cb) in
          (HALF_OPEN, cb')
        else (OPEN, cb)
      else (OPEN, cb)
  | s, _ => (s, cb)
  end.

(** [record_success]: the [if]/[elif] chain reads the property up to
    twice; [t1] and [t2] are the clock values of the two reads. *)
Definition record_success (t1 t2 : Q) (cb : CircuitBreaker) : CircuitBreaker :=
  let '(s1, cb1) := state t1 cb in
  if CircuitState_eqb s1 CLOSED then set_failure_count 0 cb1
  else
    let '(s2, cb2) := state t2 cb1 in
    if CircuitState_eqb s2 HALF_OPEN then
      let cb3 := set_success_count (_success_count cb2 + 1) cb2 in
      if Z.leb (success_threshold (config cb3)) (_success_count cb3) then
        set_success_count 0 (set_failure_count 0 (set_state CLOSED cb3))
      else cb3
    else cb2.

(** [record_failure]: [t0] is the clock value stored at line 82, [t1] and
    [t2] those of the two property reads. *)
Definition record_failure (t0 t1 t2 : Q) (cb : CircuitBreaker) : CircuitBreaker :=
  let cb0 := set_last_failure_time (Some t0) cb in
  let '(s1, cb1) := state t1 cb0 in
  if CircuitState_eqb s1 CLOSED then
    let cb2 := set_failure_count (_failure_count cb1 + 1) cb1 in
    if Z.leb (failure_threshold (config cb2)) (_failure_count cb2) then
      set_state OPEN cb2
    else cb2
  else
    let '(s2, cb2) := state t2 cb1 in
    if CircuitState_eqb s2 HALF_OPEN then
      set_success_count 0 (set_state OPEN cb2)
    else cb2.

(** [allow_request]: one property read at clock value [now]. *)
Definition allow_request (now : Q) (cb : CircuitBreaker) : bool * CircuitBreaker :=
  let '(current_state, cb1) := state now cb in
  match current_state with
  | CLOSED => (true, cb1)
  | OPEN => (false, cb1)
  | HALF_OPEN =>
      if Z.ltb (_half_open_requests cb1) (half_open_max_requests (config cb1)) then
        (true, set_half_open_requests (_half_open_requests cb1 + 1) cb1)
      else (false, cb1)
  end.

(** Runs of consecutive calls, one tuple of clock values per call. *)
Fixpoint record_failures (ts : list (Q * Q * Q)) (cb : CircuitBreaker) : CircuitBreaker :=
  match ts with
  | [] => cb
  | (t0, t1, t2) :: ts' => record_failures ts' (record_failure t0 t1 t2 cb)
  end.

Fixpoint record_successes (ts : list (Q * Q)) (cb : CircuitBreaker) : CircuitBreaker :=
  match ts with
  | [] => cb
  | (t1, t2) :: ts' => record_successes ts' (record_success t1 t2 cb)
  end.

Fixpoint allow_requests (ts : list Q) (cb : CircuitBreaker) : list bool * CircuitBreaker :=
  match ts with
  | [] => ([], cb)
  | t :: ts' =>
      let '(b, cb1) := allow_request t cb in
      let '(bs, cb2) := allow_requests ts' cb1 in
      (b :: bs, cb2)
  end.

(** The registry of breakers, by name. A breaker is a shared mutable
    object: what an operation did to it is written back under its name. *)
Abbreviation registry := (gmap string CircuitBreaker).

Definition get_or_create (n : string) (c : option CircuitBreakerConfig)
    (reg : registry) : CircuitBreaker * registry :=
  match reg !! n with
  | Some cb => (cb, reg)
  | None =>
      let cb := new_breaker n (default default_config c) in
      (cb, <[n := cb]> reg)
  end.

Definition reset (n : string) (reg : registry) : registry := delete n reg.

(** The wrapper built by the [circuit_breaker] decorator around [func].
    [W] is the state [func] works on. [clock i] is the value of the
    [i]-th call of [time.time()] the wrapper can make: in
    [allow_request], then in the [state] read of the warning or in
    [record_success] / [record_failure]. *)
Definition circuit_breaker {W A : Type} (n : string)
    (c : option CircuitBreakerConfig) (fallback_value : A)
    (fallback_function : option (W -> result A * W))
    (func : W -> result A * W)
    (clock : nat -> Q) (reg : registry) (w : W) : result A * registry * W :=
  let '(breaker, reg) := get_or_create n c reg in
  let '(allowed, breaker) := allow_request (clock 0%nat) breaker in
  if negb allowed then
    let '(_, breaker) := state (clock 1%nat) breaker in
    let reg := <[n := breaker]> reg in
    match fallback_function with
    | Some f => let '(r, w') := f w in (r, reg, w')
    | None => (Ok fallback_value, reg, w)
    end
  else
    match func w with
    | (Ok r, w') =>
        let breaker := record_success (clock 1%nat) (clock 2%nat) breaker in
        (Ok r, <[n := breaker]> reg, w')
    | (Raise e, w') =>
        let breaker :=
          record_failure (clock 1%nat) (clock 2%nat) (clock 3%nat) breaker in
        (Raise e, <[n := breaker]> reg, w')
    end.

(** Protected calls made one after the other under the same decorator,
    each with the function it wraps at that moment and its own clock. *)
Fixpoint protected_calls {W A : Type} (n : string)
    (c : option CircuitBreakerConfig) (fallback_value : A)
    (calls : list ((W -> result A * W) * (nat -> Q)))
    (reg : registry) (w : W) : list (result A) * registry * W :=
  match calls with
  | [] => ([], reg, w)
  | (func, clock) :: rest =>
      let '(r, reg1, w1) :=
        circuit_breaker n c fallback_value None func clock reg w in
      let '(rs, reg2, w2) := protected_calls n c fallback_value rest reg1 w1 in
      (r :: rs, reg2, w2)
  end.

(** The same functions called one after the other without the
    decorator. *)
Fixpoint unprotected_calls {W A : Type}
    (calls : list ((W -> result A * W) * (nat -> Q))) (w : W)
  : list (result A) * W :=
  match calls with
  | [] => ([], w)
  | (func, _) :: rest =>
      let '(r, w1) := func w in
      let '(rs, w2) := unprotected_calls rest w1 in
      (r :: rs, w2)
  end.

(** A wrapped function that fails whatever state it is given. *)
Definition always_raises {W A : Type} (func : W -> result A * W) : Prop :=
  forall w, exists e w', func w = (Raise e, w').

(** A closed breaker whose failure and success counters are both zero. *)
Definition closed_and_zeroed (cb : CircuitBreaker) : Prop :=
  _state cb = CLOSED /\ _failure_count cb = 0 /\ _success_count cb = 0.

End Resilience.

(** ** The Redis server and driver behind [common/cache.py]

    [cache.py] hands every command to a [redis.asyncio] client. The
    server is modelled as a finite map from keys to entries; a stored
    string is classified by what [INCR], [int()] and [float()] make of it.
    Connection failures are not modelled. *)

Module Redis.

Inductive rvalue : Type :=
| RInt (n : Z)        (* a decimal integer, such as the text 7 *)
| RFloat (q : Q)      (* the text of a float, such as 4.5 or 4.0 *)
| RText (s : string). (* anything else *)

Record entry : Type := {
  ent_value : rvalue;
  ent_ttl : option Z   (* seconds left; [None]: the key does not expire *)
}.

Abbreviation store := (gmap string entry).

Definition get (k : string) (db : store) : option rvalue :=
  ent_value <$> db !! k.

Definition set (k : string) (v : rvalue) (db : store) : store :=
  <[k := {| ent_value := v; ent_ttl := None |}]> db.

Definition incr (k : string) (db : store) : result Z * store :=
  match db !! k with
  | None => (Ok 1, <[k := {| ent_value := RInt 1; ent_ttl := None |}]> db)
  | Some e =>
      match ent_value e with
      | RInt n =>
          (Ok (n + 1),
           <[k := {| ent_value := RInt (n + 1); ent_ttl := ent_ttl e |}]> db)
      | _ => (Raise ResponseError, db)
      end
  end.

Definition expire (k : string) (seconds : Z) (db : store) : bool * store :=
  match db !! k with
  | None => (false, db)
  | Some e =>
      if Z.ltb 0 seconds
      then (true, <[k := {| ent_value := ent_value e; ent_ttl := Some seconds |}]> db)
      else (true, delete k db)
  end.

Definition ttl (k : string) (db : store) : Z :=
  match db !! k with
  | None => -2
  | Some e => match ent_ttl e with None => -1 | Some s => s end
  end.

(** [dt] seconds pass on the server. *)
Definition elapse (dt : Z) (db : store) : store :=
  omap (fun e =>
          match ent_ttl e with
          | None => Some e
          | Some s =>
              if Z.ltb dt s
              then Some {| ent_value := ent_value e; ent_ttl := Some (s - dt) |}
              else None
          end) db.

(** Commands queued on a pipeline, and their replies. *)
Inductive command : Type :=
| CIncr (k : string)
| CExpire (k : string) (seconds : Z)
| CSet (k : string) (v : rvalue)
| CGet (k : string).

Inductive reply : Type :=
| RepInt (n : Z)
| RepBool (b : bool)
| RepValue (v : option rvalue).

Definition run_command (c : command) (db : store) : result reply * store :=
  match c with
  | CIncr k =>
      match incr k db with
      | (Ok n, db') => (Ok (RepInt n), db')
      | (Raise e, db') => (Raise e, db')
      end
  | CExpire k s => let '(b, db') := expire k s db in (Ok (RepBool b), db')
  | CSet k v => (Ok (RepBool true), set k v db)
  | CGet k => (Ok (RepValue (get k db)), db)
  end.

(** The driver's own pipeline is a transaction: every queued command is
    run, and the first error, if any, is raised afterwards. *)
Fixpoint run_transaction (cs : list command) (db : store)
  : list (result reply) * store :=
  match cs with
  | [] => ([], db)
  | c :: cs' =>
      let '(r, db1) := run_command c db in
      let '(rs, db2) := run_transaction cs' db1 in
      (r :: rs, db2)
  end.

Fixpoint collect (rs : list (result reply)) : result (list reply) :=
  match rs with
  | [] => Ok []
  | Raise e :: _ => Raise e
  | Ok r :: rs' =>
      match collect rs' with
      | Ok l => Ok (r :: l)
      | Raise e => Raise e
      end
  end.

Definition pipeline_execute (cs : list command) (db : store)
  : result (list reply) * store :=
  let '(rs, db') := run_transaction cs db in (collect rs, db').

End Redis.

(** ** [common/cache.py] *)

Module Cache.
Import Redis.

(** A computation against the store that may raise. *)
Definition M (A : Type) : Type := store -> result A * store.

#[global] Instance M_ret : MRet M := fun A a db => (Ok a, db).
#[global] Instance M_bind : MBind M := fun A B k m db =>
  match m db with
  | (Ok a, db') => k a db'
  | (Raise e, db') => (Raise e, db')
  end.

Definition lift {A : Type} (r : result A) : M A := fun db => (r, db).

(** [try: body except Exception as e: handler(e)]. What [body] did to the
    store before raising stays done. *)
Definition try_except {A : Type} (body : M A) (handler : exn -> M A) : M A :=
  fun db =>
    match body db with
    | (Ok a, db') => (Ok a, db')
    | (Raise e, db') => handler e db'
    end.

(** Computations that cannot raise [ZeroDivisionError]. *)
Definition no_zero_division {A : Type} (m : M A) : Prop :=
  forall db, fst (m db) <> Raise ZeroDivisionError.

Fixpoint mapM_ {A B : Type} (f : A -> M B) (l : list A) : M (list B) :=
  match l with
  | [] => mret []
  | a :: l' => b ← f a; bs ← mapM_ f l'; mret (b :: bs)
  end.

(** [has_pipeline] is the outcome of the test at line 131 followed by the
    call at line 133: true when the driver hands out its own pipeline, as
    [redis.asyncio.Redis] does. *)
Record CacheClient : Type := {
  prefix : string;
  has_pipeline : bool
}.

Definition _get_key (self : CacheClient) (key : string) : string :=
  prefix self +:+ key.

(** [SimplePipeline]: the queue holds prefixed keys. *)
Module SimplePipeline.

Record t : Type := { sp_prefix : string; commands : list command }.

Definition _get_key (self : t) (key : string) : string := sp_prefix self +:+ key.

Definition incr (key : string) (self : t) : t :=
  {| sp_prefix := sp_prefix self;
     commands := commands self ++ [CIncr (_get_key self key)] |}.

Definition expire (key : string) (seconds : Z) (self : t) : t :=
  {| sp_prefix := sp_prefix self;
     commands := commands self ++ [CExpire (_get_key self key) seconds] |}.

Definition set (key : string) (value : rvalue) (self : t) : t :=
  {| sp_prefix := sp_prefix self;
     commands := commands self ++ [CSet (_get_key self key) value] |}.

Definition get (key : string) (self : t) : t :=
  {| sp_prefix := sp_prefix self;
     commands := commands self ++ [CGet (_get_key self key)] |}.

(** [execute]: one command after the other; an error stops the loop. *)
Fixpoint execute_loop (cs : list command) : M (list reply) :=
  match cs with
  | [] => mret []
  | c :: cs' => r ← run_command c; rs ← execute_loop cs'; mret (r :: rs)
  end.

Definition execute (self : t) : M (list reply) := execute_loop (commands self).

End SimplePipeline.

(** What [CacheClient.pipeline] returns: the driver's pipeline, whose
    methods take the key as the caller wrote it, or a [SimplePipeline]. *)
Inductive Pipeline : Type :=
| Native (queued : list command)
| Simple (p : SimplePipeline.t).

Definition pipeline (self : CacheClient) : M Pipeline :=
  if has_pipeline self
  then mret (Native [])
  else mret (Simple {| SimplePipeline.sp_prefix := prefix self;
                        SimplePipeline.commands := [] |}).

Definition pipe_incr (key : string) (pipe : Pipeline) : Pipeline :=
  match pipe with
  | Native q => Native (q ++ [CIncr key])
  | Simple p => Simple (SimplePipeline.incr key p)
  end.

Definition pipe_expire (key : string) (seconds : Z) (pipe : Pipeline) : Pipeline :=
  match pipe with
  | Native q => Native (q ++ [CExpire key seconds])
  | Simple p => Simple (SimplePipeline.expire key seconds p)
  end.

Definition pipe_set (key : string) (value : rvalue) (pipe : Pipeline) : Pipeline :=
  match pipe with
  | Native q => Native (q ++ [CSet key value])
  | Simple p => Simple (SimplePipeline.set key value p)
  end.

Definition pipe_execute (pipe : Pipeline) : M (list reply) :=
  match pipe with
  | Native q => pipeline_execute q
  | Simple p => SimplePipeline.execute p
  end.

Definition get (self : CacheClient) (key : string) : M (option rvalue) :=
  fun db => (Ok (Redis.get (_get_key self key) db), db).

Definition set (self : CacheClient) (key : string) (value : rvalue) : M unit :=
  fun db => (Ok tt, Redis.set (_get_key self key) value db).

Definition incr (self : CacheClient) (key : string) : M Z :=
  Redis.incr (_get_key self key).

Definition expire (self : CacheClient) (key : string) (seconds : Z) : M bool :=
  fun db => let '(b, db') := Redis.expire (_get_key self key) seconds db in (Ok b, db').

Definition ttl (self : CacheClient) (key : string) : M Z :=
  fun db => (Ok (Redis.ttl (_get_key self key) db), db).

(** A call a user of the cache makes, on a pipeline or on the client. *)
Inductive call : Type :=
| Incr (key : string)
| Expire (key : string) (seconds : Z)
| Set_ (key : string) (value : rvalue)
| Get (key : string).

(** The calls queued, in order, on a [SimplePipeline]. *)
Definition queue (calls : list call) (pipe : SimplePipeline.t) : SimplePipeline.t :=
  fold_left (fun pipe c =>
               match c with
               | Incr key => SimplePipeline.incr key pipe
               | Expire key seconds => SimplePipeline.expire key seconds pipe
               | Set_ key value => SimplePipeline.set key value pipe
               | Get key => SimplePipeline.get key pipe
               end) calls pipe.

(** The same calls made on the client, one after the other; the values
    they return are dropped. *)
Fixpoint client_calls (self : CacheClient) (calls : list call) : M unit :=
  match calls with
  | [] => mret tt
  | c :: rest =>
      _ ← match c with
          | Incr key => _ ← incr self key; mret tt
          | Expire key seconds => _ ← expire self key seconds; mret tt
          | Set_ key value => set self key value
          | Get key => _ ← get self key; mret tt
          end;
      client_calls self rest
  end.

End Cache.

(** ** [common/rate_limit.py] *)

Module RateLimit.
Import Redis Cache.

Inductive RateLimitStrategy : Type := FIXED_WINDOW | SLIDING_WINDOW | TOKEN_BUCKET.

Record RateLimitConfig : Type := {
  limit : Z;
  window : Z;
  strategy : RateLimitStrategy;
  bucket_count : Z
}.

(** The defaults of the dataclass. *)
Definition RateLimitConfig_default : RateLimitConfig :=
  {| limit := 100; window := 60; strategy := SLIDING_WINDOW; bucket_count := 6 |}.

(** [results[i]] of a pipeline, used as an integer. *)
Definition results_int (results : list reply) (i : nat) : result Z :=
  match results !! i with
  | Some (RepInt n) => Ok n
  | Some _ => Raise (Exception "TypeError")
  | None => Raise (Exception "IndexError")
  end.

(** [int(s)] and [float(s)] of a stored string. *)
Definition py_int (v : rvalue) : result Z :=
  match v with
  | RInt n => Ok n
  | _ => Raise ValueError
  end.

Definition py_float (v : rvalue) : result Q :=
  match v with
  | RInt n => Ok (inject_Z n)
  | RFloat q => Ok q
  | RText _ => Raise ValueError
  end.

(** [range(a, b)]. *)
Definition py_range (a b : Z) : list Z :=
  map (fun i => a + Z.of_nat i) (seq 0 (Z.to_nat (b - a))).

Definition py_sum (l : list Z) : Z := fold_right Z.add 0 l.

Definition Qlt_bool (x y : Q) : bool := negb (Qle_bool y x).

(** A number that is an [int] or a [float], for [min(limit, ...)]. *)
Inductive pynum : Type := PInt (n : Z) | PFloat (q : Q).

Definition num_value (x : pynum) : Q :=
  match x with PInt n => inject_Z n | PFloat q => q end.

(** [min(limit, x)]: the first argument unless the second is smaller. *)
Definition py_min (limit : Z) (x : Q) : pynum :=
  if Qlt_bool x (inject_Z limit) then PFloat x else PInt limit.

Definition num_pred (x : pynum) : pynum :=
  match x with PInt n => PInt (n - 1) | PFloat q => PFloat (q - 1)%Q end.

Definition num_int (x : pynum) : Z :=
  match x with PInt n => n | PFloat q => py_int_of_float q end.

Definition num_str (x : pynum) : rvalue :=
  match x with PInt n => RInt n | PFloat q => RFloat q end.

Module RateLimiters.

Definition fixed_window (redis : CacheClient) (key : string) (limit window : Z)
  : M (bool * Z * Z) :=
  current ← try_except
    (pipe ← pipeline redis;
     let pipe := pipe_incr key pipe in
     results ← pipe_execute pipe;
     current ← lift (results_int results 0);
     if Z.eqb current 1
     then (_ ← expire redis key window; mret current)
     else mret current)
    (fun _ =>
     current ← incr redis key;
     if Z.eqb current 1
     then (_ ← expire redis key window; mret current)
     else mret current);
  if Z.ltb limit current then
    t ← ttl redis key;
    mret (false, 0, if Z.ltb 0 t then t else window)
  else mret (true, limit - current, 0).

(** [now] is the value of [time.time()] at line 112. *)
Definition sliding_window (redis : CacheClient) (key : string)
    (limit window bucket_count : Z) (now : Q) : M (bool * Z * Z) :=
  let timestamp := py_int_of_float now in
  bucket_size ← lift (py_floordiv window bucket_count);
  current_bucket ← lift (py_floordiv timestamp bucket_size);
  let bucket_key := key +:+ ":" +:+ pretty current_bucket in
  _ ← try_except
    (pipe ← pipeline redis;
     let pipe := pipe_incr bucket_key pipe in
     let pipe := pipe_expire bucket_key window pipe in
     _ ← pipe_execute pipe;
     mret tt)
    (fun _ =>
     _ ← incr redis bucket_key;
     _ ← expire redis bucket_key window;
     mret tt);
  let window_start_bucket := current_bucket - bucket_count + 1 in
  let keys := map (fun i => key +:+ ":" +:+ pretty i)
                  (py_range window_start_bucket (current_bucket + 1)) in
  bucket_counts ← mapM_ (fun bucket_key =>
      count ← get redis bucket_key;
      match count with
      | Some c => lift (py_int c)
      | None => mret 0
      end) keys;
  let total_requests := py_sum bucket_counts in
  if Z.ltb limit total_requests
  then mret (false, 0, bucket_size)
  else mret (true, limit - total_requests, 0).

(** [current_time] is the value of [time.time()] at line 181. The floats
    are read as exact rationals: this is the limiter on the paths where
    no rounding takes place (a division by zero, a full bucket with no
    time passed); [Binary64.token_bucket] below has the rounding. *)
Definition token_bucket (redis : CacheClient) (key : string) (limit window : Z)
    (current_time : Q) : M (bool * Z * Z) :=
  let tokens_key := key +:+ ":tokens" in
  let timestamp_key := key +:+ ":timestamp" in
  last_tokens ← get redis tokens_key;
  last_timestamp ← get redis timestamp_key;
  let last_tokens := default (RInt limit) last_tokens in
  tokens_value ← lift (py_float last_tokens);
  let last_timestamp := default (RFloat current_time) last_timestamp in
  timestamp_value ← lift (py_float last_timestamp);
  token_rate ← lift (py_truediv (inject_Z limit) (inject_Z window));
  let time_passed := (current_time - timestamp_value)%Q in
  let new_tokens := py_min limit (tokens_value + time_passed * token_rate)%Q in
  if Qlt_bool (num_value new_tokens) 1 then
    wait_time ← lift (py_truediv (1 - num_value new_tokens)%Q token_rate);
    let retry_after := py_int_of_float wait_time + 1 in
    mret (false, 0, retry_after)
  else
    let new_tokens := num_pred new_tokens in
    _ ← try_except
      (pipe ← pipeline redis;
       let pipe := pipe_set tokens_key (num_str new_tokens) pipe in
       let pipe := pipe_set timestamp_key (RFloat current_time) pipe in
       let pipe := pipe_expire tokens_key (Z.max (window * 2) 600) pipe in
       let pipe := pipe_expire timestamp_key (Z.max (window * 2) 600) pipe in
       _ ← pipe_execute pipe;
       mret tt)
      (fun _ =>
       _ ← set redis tokens_key (num_str new_tokens);
       _ ← set redis timestamp_key (RFloat current_time);
       let max_idle := Z.max (window * 2) 600 in
       _ ← expire redis tokens_key max_idle;
       _ ← expire redis timestamp_key max_idle;
       mret tt);
    mret (true, num_int new_tokens, 0).

End RateLimiters.

(** *** The token bucket in binary64

    [RateLimiters.token_bucket] above reads the floats of lines 187 to
    203 as exact rationals. Here they are binary64 numbers, as in the
    source. A stored text is still classified by [rvalue]: [RFloat q] is
    a decimal text that denotes [q], which [float()] reads as the float
    nearest to [q]; the text [str()] writes for a finite float is taken
    to denote the float's exact value (the shortest text it really
    writes reads back as the same float); the sign of a zero, which the
    limiter never observes, is not kept. *)

Module Binary64.
Import Float64.

Fixpoint lower (s : string) : string :=
  match s with
  | EmptyString => EmptyString
  | String a rest =>
      let n := Ascii.nat_of_ascii a in
      String (if (65 <=? n)%nat && (n <=? 90)%nat
              then Ascii.ascii_of_nat (n + 32) else a) (lower rest)
  end.

Fixpoint lstrip (s : string) : string :=
  match s with
  | String a rest => if Ascii.is_space a then lstrip rest else s
  | EmptyString => EmptyString
  end.

Definition strip (s : string) : string :=
  String.rev (lstrip (String.rev (lstrip s))).

(** The texts that [float()] reads as an infinity or a NaN. *)
Definition special (s : string) : option spec_float :=
  let t := lower (strip s) in
  if existsb (String.eqb t) ["inf"; "+inf"; "infinity"; "+infinity"]
  then Some (S754_infinity false)
  else if existsb (String.eqb t) ["-inf"; "-infinity"]
  then Some (S754_infinity true)
  else if existsb (String.eqb t) ["nan"; "+nan"; "-nan"]
  then Some S754_nan
  else None.

(** [float(s)] of a stored string. *)
Definition py_float (v : rvalue) : result spec_float :=
  match v with
  | RInt n => Ok (of_int n)
  | RFloat q => Ok (of_Q q)
  | RText s =>
      match special s with
      | Some x => Ok x
      | None => Raise ValueError
      end
  end.

(** [str(x)] of a float, as a stored string. *)
Definition py_str (x : spec_float) : rvalue :=
  match x with
  | S754_nan => RText "nan"
  | S754_infinity s => RText (if s then "-inf" else "inf")
  | _ => RFloat (to_Q x)
  end.

(** A number that is an [int] or a [float]. *)
Inductive num : Type := NInt (n : Z) | NFloat (x : spec_float).

(** [min(limit, x)]: the first argument unless the second is smaller. *)
Definition py_min (limit : Z) (x : spec_float) : num :=
  if lt_int x limit then NFloat x else NInt limit.

(** [v < n] *)
Definition num_lt (v : num) (n : Z) : bool :=
  match v with
  | NInt m => Z.ltb m n
  | NFloat x => lt_int x n
  end.

(** [(1 - v) / y] for a float [y]. *)
Definition one_minus_over (v : num) (y : spec_float) : result spec_float :=
  numerator ←
    match v with
    | NInt n => int_to_float (1 - n)
    | NFloat x => Ok (sub one x)
    end;
  truediv numerator y.

(** [v - 1] *)
Definition num_pred (v : num) : num :=
  match v with
  | NInt n => NInt (n - 1)
  | NFloat x => NFloat (sub x one)
  end.

Definition num_str (v : num) : rvalue :=
  match v with NInt n => RInt n | NFloat x => py_str x end.

Definition num_int (v : num) : result Z :=
  match v with NInt n => Ok n | NFloat x => to_int x end.

(** [current_time] is the value of [time.time()] at line 181. *)
Definition token_bucket (redis : CacheClient) (key : string) (limit window : Z)
    (current_time : spec_float) : M (bool * Z * Z) :=
  let tokens_key := key +:+ ":tokens" in
  let timestamp_key := key +:+ ":timestamp" in
  last_tokens ← get redis tokens_key;
  last_timestamp ← get redis timestamp_key;
  let last_tokens := default (RInt limit) last_tokens in
  tokens_value ← lift (py_float last_tokens);
  let last_timestamp := default (py_str current_time) last_timestamp in
  timestamp_value ← lift (py_float last_timestamp);
  token_rate ← lift (int_truediv limit window);
  let time_passed := sub current_time timestamp_value in
  let new_tokens := py_min limit (add tokens_value (mul time_passed token_rate)) in
  if num_lt new_tokens 1 then
    wait_time ← lift (one_minus_over new_tokens token_rate);
    seconds ← lift (to_int wait_time);
    let retry_after := seconds + 1 in
    mret (false, 0, retry_after)
  else
    let new_tokens := num_pred new_tokens in
    _ ← try_except
      (pipe ← pipeline redis;
       let pipe := pipe_set tokens_key (num_str new_tokens) pipe in
       let pipe := pipe_set timestamp_key (py_str current_time) pipe in
       let pipe := pipe_expire tokens_key (Z.max (window * 2) 600) pipe in
       let pipe := pipe_expire timestamp_key (Z.max (window * 2) 600) pipe in
       _ ← pipe_execute pipe;
       mret tt)
      (fun _ =>
       _ ← set redis tokens_key (num_str new_tokens);
       _ ← set redis timestamp_key (py_str current_time);
       let max_idle := Z.max (window * 2) 600 in
       _ ← expire redis tokens_key max_idle;
       _ ← expire redis timestamp_key max_idle;
       mret tt);
    remaining ← lift (num_int new_tokens);
    mret (true, remaining, 0).

End Binary64.

(** [pattern in path] for two strings. *)
Fixpoint str_contains (pattern path : string) : bool :=
  if String.prefix pattern path then true
  else match path with
       | EmptyString => false
       | String _ rest => str_contains pattern rest
       end.

(** The middleware. A [Dict] that is iterated is kept as the list of its
    items in insertion order. *)
Record RateLimitMiddleware : Type := {
  redis_client : option CacheClient;
  default_config : RateLimitConfig;
  endpoint_configs : list (string * RateLimitConfig);
  method_configs : gmap string RateLimitConfig;
  excluded_paths : list string
}.

(** Lines 289 to 306 of [dispatch]: [None] for an excluded path, else the
    configuration the request is limited with. *)
Definition dispatch_config (self : RateLimitMiddleware) (path method : string)
  : option RateLimitConfig :=
  if existsb (fun excluded => String.prefix excluded path) (excluded_paths self)
  then None
  else
    let config := default_config self in
    let config :=
      match find (fun '(endpoint_pattern, _) => str_contains endpoint_pattern path)
                 (endpoint_configs self) with
      | Some (_, endpoint_config) => endpoint_config
      | None => config
      end in
    let config :=
      match method_configs self !! method with
      | Some method_config => method_config
      | None => config
      end in
    Some config.

Definition _apply_rate_limit (self : RateLimitMiddleware)
    (strategy : RateLimitStrategy) (key : string) (config : RateLimitConfig)
    (now : Q) : M (bool * Z * Z) :=
  match redis_client self with
  | None => mret (true, limit config, 0)
  | Some redis_client =>
      match strategy with
      | FIXED_WINDOW =>
          RateLimiters.fixed_window redis_client key (limit config) (window config)
      | SLIDING_WINDOW =>
          RateLimiters.sliding_window redis_client key (limit config)
            (window config) (bucket_count config) now
      | TOKEN_BUCKET =>
          RateLimiters.token_bucket redis_client key (limit config)
            (window config) now
      end
  end.

(** The name of the sub-bucket [i] of a key, and the count the store
    holds for a key: 0 when it is missing. *)
Definition stored_count (redis : CacheClient) (db : store) (k : string) : Z :=
  match Redis.get (_get_key redis k) db with
  | Some (RInt n) => n
  | _ => 0
  end.

(** [f"{key}:{i}"] *)
Definition bucket_name (key : string) (i : Z) : string := key +:+ ":" +:+ pretty i.

(** What a counter key may hold for the limiter to read it. *)
Definition is_count (v : option rvalue) : Prop :=
  v = None \/ exists n, v = Some (RInt n).

(** [n] calls of the fixed-window limiter in a row; the outcome of the
    last one is returned. *)
Fixpoint fixed_window_calls (n : nat) (redis : CacheClient) (key : string)
    (limit window : Z) (db : store) : option (result (bool * Z * Z)) * store :=
  match n with
  | O => (None, db)
  | S n' =>
      let '(_, db1) := fixed_window_calls n' redis key limit window db in
      let '(r, db2) := RateLimiters.fixed_window redis key limit window db1 in
      (Some r, db2)
  end.

(** The specification's formula for the waiting time of a denied
    token-bucket call: [ceil((1 - newTokens) / tokenRate) + 1]. *)
Definition spec_retry_after (new_tokens token_rate : Q) : Z :=
  Qceiling ((1 - new_tokens) / token_rate) + 1.

(** What the claim describes, on a given counter key: the outcome of a
    call that brought the counter to [n] and left the store [db2]. *)
Definition fixed_window_outcome (counter : string) (lim win n : Z) (db2 : store)
  : bool * Z * Z :=
  if Z.ltb lim n
  then (false, 0, let t := Redis.ttl counter db2 in if Z.ltb 0 t then t else win)
  else (true, lim - n, 0).

(** *** A middleware, for concrete runs *)

Definition login_config : RateLimitConfig :=
  {| limit := 10; window := 60; strategy := SLIDING_WINDOW; bucket_count := 6 |}.

Definition post_config : RateLimitConfig :=
  {| limit := 50; window := 60; strategy := FIXED_WINDOW; bucket_count := 6 |}.

Definition example_middleware : RateLimitMiddleware :=
  {| redis_client := None;
     default_config := RateLimitConfig_default;
     endpoint_configs := [("/auth/token", login_config)];
     method_configs := {["POST" := post_config]};
     excluded_paths := ["/health"; "/metrics"; "/docs"; "/openapi.json"] |}.

End RateLimit.

(** ** [common/messaging.py]

    A message body travels as JSON text. [json.dumps] followed by
    [json.loads] gives back the tree it was given, so the wire format is
    modelled as the JSON tree itself; a Python [dict] is the list of its
    items in insertion order. *)

Module Messaging.

#[local] Unset Elimination Schemes.
Inductive json : Type :=
| JNull
| JBool (b : bool)
| JInt (n : Z)
| JFloat (q : Q)
| JStr (s : string)
| JList (l : list json)
| JDict (items : list (string * json)).
#[local] Set Elimination Schemes.

Fixpoint assoc (k : string) (items : list (string * json)) : option json :=
  match items with
  | [] => None
  | (k', v) :: rest => if String.eqb k k' then Some v else assoc k rest
  end.

(** [body.get(k)]: [None] for a missing key. *)
Definition dict_get (body : json) (k : string) : result json :=
  match body with
  | JDict items => Ok (default JNull (assoc k items))
  | _ => Raise (AttributeError "object has no attribute 'get'")
  end.

Inductive MessageType : Type := COMMAND | EVENT | QUERY | RESPONSE.

Definition MessageType_value (t : MessageType) : string :=
  match t with
  | COMMAND => "command"
  | EVENT => "event"
  | QUERY => "query"
  | RESPONSE => "response"
  end.

Definition MessageType_of_value (s : string) : option MessageType :=
  if String.eqb s "command" then Some COMMAND
  else if String.eqb s "event" then Some EVENT
  else if String.eqb s "query" then Some QUERY
  else if String.eqb s "response" then Some RESPONSE
  else None.

Record Message : Type := {
  id : string;
  type : MessageType;
  name : string;
  data : json;
  correlation_id : option string;
  reply_to : option string
}.

Definition json_of_optional (o : option string) : json :=
  match o with Some s => JStr s | None => JNull end.

(** [message.dict()], ready for [json.dumps]: the enum member is a [str]
    and is written as its value. *)
Definition Message_dict (m : Message) : json :=
  JDict [("id", JStr (id m));
         ("type", JStr (MessageType_value (type m)));
         ("name", JStr (name m));
         ("data", data m);
         ("correlation_id", json_of_optional (correlation_id m));
         ("reply_to", json_of_optional (reply_to m))].

(** Validation of one field of the model, by its declared type. *)
Definition validate_str (v : option json) : option string :=
  match v with Some (JStr s) => Some s | _ => None end.

Definition validate_optional_str (v : option json) : option (option string) :=
  match v with
  | None | Some JNull => Some None
  | Some (JStr s) => Some (Some s)
  | Some _ => None
  end.

(** A [Message] built from the items of [body] as keyword arguments: the
    fields are validated against the declarations
    of lines 26 to 31. [fresh_id] is what the default factory of [id]
    would produce; [None] is a [ValidationError]. *)
Definition Message_validate (fresh_id : string) (body : json) : option Message :=
  match body with
  | JDict items =>
      id_ ← match assoc "id" items with
            | None => Some fresh_id
            | v => validate_str v
            end;
      type_ ← validate_str (assoc "type" items) ≫= MessageType_of_value;
      name_ ← validate_str (assoc "name" items);
      data_ ← assoc "data" items;
      correlation_id_ ← validate_optional_str (assoc "correlation_id" items);
      reply_to_ ← validate_optional_str (assoc "reply_to" items);
      Some {| id := id_; type := type_; name := name_; data := data_;
              correlation_id := correlation_id_; reply_to := reply_to_ |}
  | _ => None
  end.

(** An [aio_pika.Message] with the properties the code sets, and a
    publication on the exchange. *)
Record AmqpMessage : Type := {
  body : json;
  amqp_correlation_id : option string;
  amqp_reply_to : option string
}.

Record Publication : Type := {
  routing_key : option string;
  message : AmqpMessage
}.

(** A value used where a string or [None] is expected. *)
Definition optional_str (v : json) : result (option string) :=
  match v with
  | JNull => Ok None
  | JStr s => Ok (Some s)
  | _ => Raise (Exception "ValidationError")
  end.

(** The part of a [RabbitMQConnection] the query protocol uses.
    [futures] maps a correlation id to its pending future; [resolved]
    holds, per correlation id under which a future was registered, the
    body that [set_result] gave it. *)
Record RabbitMQConnection : Type := {
  callback_queue_name : string;
  futures : gset string;
  resolved : gmap string json;
  query_handlers : gmap string (json -> result json)
}.

Definition set_futures (f : gset string) (r : gmap string json)
    (self : RabbitMQConnection) : RabbitMQConnection :=
  {| callback_queue_name := callback_queue_name self;
     futures := f; resolved := r;
     query_handlers := query_handlers self |}.

Definition register_query (query_name : string) (handler : json -> result json)
    (self : RabbitMQConnection) : RabbitMQConnection :=
  {| callback_queue_name := callback_queue_name self;
     futures := futures self; resolved := resolved self;
     query_handlers := <[query_name := handler]> (query_handlers self) |}.

(** [_handle_query]. [fresh_id] is the uuid drawn for the [id] of the
    response. The outcome is what was published, if anything; an
    exception inside the [try] is logged and nothing is published. *)
Definition _handle_query (self : RabbitMQConnection) (fresh_id : string)
    (body_ : json) : result (option Publication) :=
  query_name ← dict_get body_ "name";
  match query_name with
  | JStr query_name =>
      match query_handlers self !! query_name with
      | Some handler =>
          let attempt : result Publication :=
            data_ ← dict_get body_ "data";
            result_ ← handler data_;
            id_ ← dict_get body_ "id";
            correlation ← optional_str id_;
            let response :=
              {| id := fresh_id; type := RESPONSE;
                 name := query_name +:+ "_response"; data := result_;
                 correlation_id := correlation; reply_to := None |} in
            reply ← dict_get body_ "reply_to" ≫= optional_str;
            mret {| routing_key := reply;
                    message := {| body := Message_dict response;
                                  amqp_correlation_id := correlation;
                                  amqp_reply_to := reply |} |} in
          match attempt with
          | Ok p => Ok (Some p)
          | Raise _ => Ok None
          end
      | None => Ok None
      end
  | _ => Ok None
  end.

(** [_process_message], for a message of type query; the other types do
    not answer. Any exception is logged. *)
Definition _process_message (self : RabbitMQConnection) (fresh_id : string)
    (incoming : AmqpMessage) : option Publication :=
  match dict_get (body incoming) "type" with
  | Ok (JStr t) =>
      if String.eqb t (MessageType_value QUERY) then
        match _handle_query self fresh_id (body incoming) with
        | Ok p => p
        | Raise _ => None
        end
      else None
  | _ => None
  end.

(** [send_query] up to the [await]: [correlation_id] and [message_id] are
    the two uuids drawn, in this order, at line 267 and by the default
    factory of [Message.id] at line 272. *)
Definition send_query (self : RabbitMQConnection) (correlation_id_ message_id : string)
    (service query_name : string) (data_ : json)
  : RabbitMQConnection * Publication :=
  let routing_key_ := "query." +:+ service +:+ "." +:+ query_name in
  let self' := set_futures ({[correlation_id_]} ∪ futures self) (resolved self) self in
  let message_ :=
    {| id := message_id; type := QUERY; name := query_name; data := data_;
       correlation_id := Some correlation_id_;
       reply_to := Some (callback_queue_name self) |} in
  (self',
   {| routing_key := Some routing_key_;
      message := {| body := Message_dict message_;
                    amqp_correlation_id := Some correlation_id_;
                    amqp_reply_to := Some (callback_queue_name self) |} |}).

(** An [aio_pika.IncomingMessage] as the callback queue hands it to
    [_process_response]. [decoded] is what
    [json.loads(message.body.decode())] gives: the body that was
    published, or an exception when the bytes are not JSON text. *)
Record IncomingMessage : Type := {
  decoded : result json;
  incoming_correlation_id : option string
}.

(** A published message as it arrives: the wire carries the text of the
    body, and decoding gives the body back. *)
Definition deliver (m : AmqpMessage) : IncomingMessage :=
  {| decoded := Ok (body m); incoming_correlation_id := amqp_correlation_id m |}.

(** [_process_response]: the future is looked up under the correlation
    id property of the incoming message and taken out of the table
    before the body is decoded; when decoding raises, the exception is
    logged and the future that was taken out is left without a
    result. *)
Definition _process_response (self : RabbitMQConnection)
    (incoming : IncomingMessage) : RabbitMQConnection :=
  match incoming_correlation_id incoming with
  | Some c =>
      if decide (c ∈ futures self)
      then
        let popped := set_futures (futures self ∖ {[c]}) (resolved self) self in
        match decoded incoming with
        | Ok body_ =>
            set_futures (futures popped) (<[c := body_]> (resolved popped)) popped
        | Raise _ => popped
        end
      else self
  | None => self
  end.

(** What the caller of [send_query] gets once its future is done:
    [response.get("data")]; [None] while it is still suspended. *)
Definition send_query_result (self : RabbitMQConnection) (correlation_id_ : string)
  : option (result json) :=
  (fun response => dict_get response "data") <$> resolved self !! correlation_id_.

(** A query from [sender] answered by [receiver]: publish, deliver,
    handle, deliver the response, process it. *)
Definition query_round_trip (sender receiver : RabbitMQConnection)
    (correlation_id_ message_id response_id : string)
    (service query_name : string) (data_ : json)
  : RabbitMQConnection * option Publication :=
  let '(sender1, query) := send_query sender correlation_id_ message_id
                             service query_name data_ in
  match _process_message receiver response_id (message query) with
  | Some response =>
      (_process_response sender1 (deliver (message response)), Some response)
  | None => (sender1, None)
  end.

(** *** Messages with any data on the wire

    [Message] is generic in its [data]: the source puts no bound on what
    a sender passes. [Wire] has the Python values that can be passed,
    what [json.dumps] makes of them and what [json.loads] gives back. A
    JSON text is stood for by the document it denotes: that the text
    the encoder writes for a document is read back as that document is
    the contract of the [json] module, which is not code of this
    repository. The depth of nesting that the interpreter allows is not
    modelled. *)

Module Wire.

#[local] Unset Elimination Schemes.

(** Python values. [PyObject cls] is an instance of any class the JSON
    encoder does not know: a [datetime], a [set], [bytes], a model. In a
    [PyDict] the items are in insertion order. *)
Inductive pyval : Type :=
| PyNone
| PyBool (b : bool)
| PyInt (n : Z)
| PyFloat (x : spec_float)
| PyStr (s : string)
| PyList (l : list pyval)
| PyTuple (l : list pyval)
| PyDict (items : list (pyval * pyval))
| PyObject (cls : string).

(** JSON documents. A number with a fraction or an exponent is a float;
    the encoder also writes [NaN], [Infinity] and [-Infinity], and the
    decoder reads them. *)
Inductive doc : Type :=
| DNull
| DBool (b : bool)
| DInt (n : Z)
| DFloat (x : spec_float)
| DStr (s : string)
| DArray (elements : list doc)
| DObject (members : list (string * doc)).

#[local] Set Elimination Schemes.

Definition type_name (v : pyval) : string :=
  match v with
  | PyNone => "NoneType"
  | PyBool _ => "bool"
  | PyInt _ => "int"
  | PyFloat _ => "float"
  | PyStr _ => "str"
  | PyList _ => "list"
  | PyTuple _ => "tuple"
  | PyDict _ => "dict"
  | PyObject cls => cls
  end.

Section Encoder.

(** [float.__repr__], the text the encoder writes for a float that is
    the key of a dict. *)
Variable float_repr : spec_float -> string.

(** [sys.get_int_max_str_digits()]: the interpreter refuses to write an
    int of more decimal digits ([4300] unless it was set otherwise, [0]
    for no limit). *)
Variable max_str_digits : Z.

Definition int_fits (n : Z) : bool :=
  (max_str_digits =? 0) || (Z.abs n <? 10 ^ max_str_digits).

Definition int_str (n : Z) : result string :=
  if int_fits n then Ok (pretty n)
  else Raise ValueError.

(** The key of a member, from the key of a dict item. *)
Definition dumps_key (k : pyval) : result string :=
  match k with
  | PyStr s => Ok s
  | PyFloat x => Ok (float_repr x)
  | PyBool true => Ok "true"
  | PyBool false => Ok "false"
  | PyNone => Ok "null"
  | PyInt n => int_str n
  | _ => Raise (Exception ("keys must be str, int, float, bool or None, not "
                           +:+ type_name k))
  end.

(** [json.dumps(v)] *)
Fixpoint dumps (v : pyval) : result doc :=
  match v with
  | PyNone => Ok DNull
  | PyBool b => Ok (DBool b)
  | PyInt n =>
      if int_fits n then Ok (DInt n)
      else Raise ValueError
  | PyFloat x => Ok (DFloat x)
  | PyStr s => Ok (DStr s)
  | PyList l | PyTuple l =>
      match (fix elements (l : list pyval) : result (list doc) :=
               match l with
               | [] => Ok []
               | x :: rest =>
                   match dumps x with
                   | Ok d =>
                       match elements rest with
                       | Ok ds => Ok (d :: ds)
                       | Raise e => Raise e
                       end
                   | Raise e => Raise e
                   end
               end) l with
      | Ok ds => Ok (DArray ds)
      | Raise e => Raise e
      end
  | PyDict items =>
      match (fix members (items : list (pyval * pyval))
               : result (list (string * doc)) :=
               match items with
               | [] => Ok []
               | (k, x) :: rest =>
                   match dumps_key k with
                   | Ok name =>
                       match dumps x with
                       | Ok d =>
                           match members rest with
                           | Ok ds => Ok ((name, d) :: ds)
                           | Raise e => Raise e
                           end
                       | Raise e => Raise e
                       end
                   | Raise e => Raise e
                   end
               end) items with
      | Ok ds => Ok (DObject ds)
      | Raise e => Raise e
      end
  | PyObject cls =>
      Raise (Exception ("Object of type " +:+ cls +:+ " is not JSON serializable"))
  end.

End Encoder.

(** [d[key] = value] on the items of a dict whose keys are strings: the
    value of a key that is there is replaced where it stands, a new key
    goes to the end. *)
Fixpoint setitem (key : string) (value : pyval) (items : list (pyval * pyval))
  : list (pyval * pyval) :=
  match items with
  | [] => [(PyStr key, value)]
  | (k, v) :: rest =>
      match k with
      | PyStr s =>
          if String.eqb s key then (k, value) :: rest
          else (k, v) :: setitem key value rest
      | _ => (k, v) :: setitem key value rest
      end
  end.

(** [json.loads] of the text of a document. *)
Fixpoint loads (d : doc) : pyval :=
  match d with
  | DNull => PyNone
  | DBool b => PyBool b
  | DInt n => PyInt n
  | DFloat x => PyFloat x
  | DStr s => PyStr s
  | DArray elements => PyList (map loads elements)
  | DObject members =>
      PyDict (fold_left (fun items member => setitem (fst member) (snd member) items)
                        (map (fun member => (fst member, loads (snd member))) members)
                        [])
  end.

(** [d.get(key)] for a dict whose keys are strings. *)
Fixpoint py_get (key : string) (items : list (pyval * pyval)) : option pyval :=
  match items with
  | [] => None
  | (PyStr s, v) :: rest => if String.eqb s key then Some v else py_get key rest
  | _ :: rest => py_get key rest
  end.

(** A [Message] with any Python value as its [data]. *)
Record Message : Type := {
  id : string;
  type : MessageType;
  name : string;
  data : pyval;
  correlation_id : option string;
  reply_to : option string
}.

Definition py_of_optional (o : option string) : pyval :=
  match o with Some s => PyStr s | None => PyNone end.

(** [message.dict()]; the member of the enumeration is a [str]. *)
Definition Message_dict (m : Message) : pyval :=
  PyDict [(PyStr "id", PyStr (id m));
          (PyStr "type", PyStr (MessageType_value (type m)));
          (PyStr "name", PyStr (name m));
          (PyStr "data", data m);
          (PyStr "correlation_id", py_of_optional (correlation_id m));
          (PyStr "reply_to", py_of_optional (reply_to m))].

Definition validate_str (v : option pyval) : option string :=
  match v with Some (PyStr s) => Some s | _ => None end.

Definition validate_optional_str (v : option pyval) : option (option string) :=
  match v with
  | None | Some PyNone => Some None
  | Some (PyStr s) => Some (Some s)
  | Some _ => None
  end.

(** A [Message] built from the items of [body] as keyword arguments: the
    fields are validated against the declarations of lines 26 to 31;
    [data] takes any value. [None] is a [ValidationError] (or the
    [TypeError] of a [body] that is not a dict). *)
Definition Message_validate (fresh_id : string) (body_ : pyval) : option Message :=
  match body_ with
  | PyDict items =>
      id_ ← match py_get "id" items with
            | None => Some fresh_id
            | v => validate_str v
            end;
      type_ ← validate_str (py_get "type" items) ≫= MessageType_of_value;
      name_ ← validate_str (py_get "name" items);
      data_ ← py_get "data" items;
      correlation_id_ ← validate_optional_str (py_get "correlation_id" items);
      reply_to_ ← validate_optional_str (py_get "reply_to" items);
      Some {| id := id_; type := type_; name := name_; data := data_;
              correlation_id := correlation_id_; reply_to := reply_to_ |}
  | _ => None
  end.

(** The body the senders put on the wire,
    [json.dumps(message.dict()).encode()] (lines 181, 223, 248 and 282),
    as the receivers read it, [json.loads(message.body.decode())]
    (lines 120 and 145). The text of [json.dumps] is ASCII, which
    [encode] and [decode] keep as it is. *)
Definition received (float_repr : spec_float -> string) (max_str_digits : Z)
    (m : Message) : result pyval :=
  match dumps float_repr max_str_digits (Message_dict m) with
  | Ok d => Ok (loads d)
  | Raise e => Raise e
  end.

(** The body received, made a [Message] again. *)
Definition round_trip (float_repr : spec_float -> string) (max_str_digits : Z)
    (fresh_id : string) (m : Message) : result Message :=
  match received float_repr max_str_digits m with
  | Ok body_ =>
      match Message_validate fresh_id body_ with
      | Some m' => Ok m'
      | None => Raise (Exception "ValidationError")
      end
  | Raise e => Raise e
  end.

Fixpoint distinct (keys : list string) : bool :=
  match keys with
  | [] => true
  | k :: rest => negb (existsb (String.eqb k) rest) && distinct rest
  end.

Definition str_key (k : pyval) : option string :=
  match k with PyStr s => Some s | _ => None end.

Definition is_nan (x : spec_float) : bool :=
  match x with S754_nan => true | _ => false end.

(** The values that have the shape of a JSON document: [None], a bool,
    an int the interpreter can write, a float other than NaN (which [==]
    tells apart from every float, itself included), a str, a list of
    such values, a dict of such values whose keys are strings (no key
    twice, as in every dict). *)
Fixpoint json_shaped (max_str_digits : Z) (v : pyval) : bool :=
  match v with
  | PyNone | PyBool _ | PyStr _ => true
  | PyInt n => int_fits max_str_digits n
  | PyFloat x => negb (is_nan x)
  | PyList l => forallb (json_shaped max_str_digits) l
  | PyDict items =>
      forallb (fun item => match fst item with
                           | PyStr _ => json_shaped max_str_digits (snd item)
                           | _ => false
                           end) items
      && distinct (omap (fun item => str_key (fst item)) items)
  | PyTuple _ | PyObject _ => false
  end.

End Wire.

(** *** The consumer side: commands and events

    Handlers of commands and of events are coroutines that work on a
    state [W] of the service. A call made to a handler is recorded with
    the label of the handler and the way it ended. *)

Module Consumer.
Section Handlers.
Context {W : Type}.

Record Handler : Type := {
  label : string;
  call : json -> W -> result unit * W
}.

(** [queries] is the part of the connection that answers queries. *)
Record Connection : Type := {
  event_handlers : gmap string (list Handler);
  command_handlers : gmap string Handler;
  queries : RabbitMQConnection
}.

Definition subscribe_event (event_name : string) (handler : Handler)
    (self : Connection) : Connection :=
  {| event_handlers :=
       <[event_name := default [] (event_handlers self !! event_name) ++ [handler]]>
         (event_handlers self);
     command_handlers := command_handlers self;
     queries := queries self |}.

Definition register_command (command_name : string) (handler : Handler)
    (self : Connection) : Connection :=
  {| event_handlers := event_handlers self;
     command_handlers := <[command_name := handler]> (command_handlers self);
     queries := queries self |}.

(** A JSON value used as the key of a lookup in a [dict] whose keys are
    strings: a list or a dict cannot be hashed, anything else that is
    not a string is not found. *)
Definition str_key (v : json) : result (option string) :=
  match v with
  | JStr s => Ok (Some s)
  | JList _ | JDict _ => Raise (Exception "unhashable type")
  | _ => Ok None
  end.

Definition _handle_command (self : Connection) (body_ : json) (w : W)
  : result unit * list (string * result unit) * W :=
  match command_name ← dict_get body_ "name"; str_key command_name with
  | Raise e => (Raise e, [], w)
  | Ok key =>
      match key ≫= (fun k => command_handlers self !! k) with
      | Some handler =>
          match dict_get body_ "data" with
          | Ok data_ =>
              let '(r, w') := call handler data_ w in
              (r, [(label handler, r)], w')
          | Raise e => (Raise e, [], w)
          end
      | None => (Ok tt, [], w)
      end
  end.

(** The loop of lines 197 to 201: an exception is logged and the loop
    goes on. *)
Fixpoint run_handlers (handlers : list Handler) (data_ : result json) (w : W)
  : list (string * result unit) * W :=
  match handlers with
  | [] => ([], w)
  | handler :: rest =>
      let '(r, w1) :=
        match data_ with
        | Ok d => call handler d w
        | Raise e => (Raise e, w)
        end in
      let '(calls, w2) := run_handlers rest data_ w1 in
      ((label handler, r) :: calls, w2)
  end.

Definition _handle_event (self : Connection) (body_ : json) (w : W)
  : result unit * list (string * result unit) * W :=
  match event_name ← dict_get body_ "name"; str_key event_name with
  | Raise e => (Raise e, [], w)
  | Ok key =>
      let handlers := default [] (key ≫= (fun k => event_handlers self !! k)) in
      let '(calls, w') := run_handlers handlers (dict_get body_ "data") w in
      (Ok tt, calls, w')
  end.

(** [msg_type == MessageType.COMMAND] and the like: the members of the
    enumeration are strings. *)
Definition is_type (msg_type : json) (t : MessageType) : bool :=
  match msg_type with
  | JStr s => String.eqb s (MessageType_value t)
  | _ => false
  end.

(** [_process_message] in full: what was published, the calls made to
    handlers, and the state afterwards. Any exception is logged. *)
Definition _process_message (self : Connection) (fresh_id : string)
    (incoming : AmqpMessage) (w : W)
  : option Publication * list (string * result unit) * W :=
  let body_ := body incoming in
  match msg_type ← dict_get body_ "type"; _ ← dict_get body_ "name"; mret msg_type with
  | Raise _ => (None, [], w)
  | Ok msg_type =>
      if is_type msg_type COMMAND then
        let '(_, calls, w') := _handle_command self body_ w in (None, calls, w')
      else if is_type msg_type QUERY then
        (match _handle_query (queries self) fresh_id body_ with
         | Ok p => p
         | Raise _ => None
         end, [], w)
      else if is_type msg_type EVENT then
        let '(_, calls, w') := _handle_event self body_ w in (None, calls, w')
      else (None, [], w)
  end.

(** The state a list of handlers leaves behind when each one is called
    with [data_] on the state the one before it left, whether or not it
    raised. *)
Definition state_after (handlers : list Handler) (data_ : json) (w : W) : W :=
  fold_left (fun w handler => snd (call handler data_ w)) handlers w.

(** Handlers subscribed one after the other to one event. *)
Definition subscribe_all (event_name : string) (handlers : list Handler)
    (self : Connection) : Connection :=
  fold_left (fun conn handler => subscribe_event event_name handler conn)
            handlers self.

(** A message as the publishing side builds it, delivered. *)
Definition delivered (m : Message) : AmqpMessage :=
  {| body := Message_dict m; amqp_correlation_id := None; amqp_reply_to := None |}.

End Handlers.

Arguments Handler : clear implicits.
Arguments Connection : clear implicits.

End Consumer.

(** *** Two services, for concrete runs *)

Definition user_service : RabbitMQConnection :=
  register_query "GetUser" (fun _ => Ok (JStr "alice"))
    {| callback_queue_name := "user-service_callback";
       futures := ∅; resolved := ∅; query_handlers := ∅ |}.

Definition api_gateway : RabbitMQConnection :=
  {| callback_queue_name := "api-gateway_callback";
     futures := ∅; resolved := ∅; query_handlers := ∅ |}.

End Messaging.

(** ** [common/cqrs.py]

    A command or an event is an instance of a model class; the class is
    identified by its name, which is also what [type(x).__name__] gives.
    Handlers work on a state [W] of their own (a database, a mailbox). *)

Module Cqrs.

Record BaseModel : Type := {
  type_name : string;
  fields : Messaging.json
}.

Record CommandResult : Type := {
  success : bool;
  message : option string;
  data : option Messaging.json;
  errors : option (list string)
}.

(** What a command handler can hand back, and what [execute] returns: a
    [CommandResult] or [None]. *)
Inductive pyobj : Type :=
| PResult (r : CommandResult)
| PNone.

(** [result.success] *)
Definition getattr_success (o : pyobj) : result bool :=
  match o with
  | PResult r => Ok (success r)
  | PNone => Raise (AttributeError "'NoneType' object has no attribute 'success'")
  end.

Section Buses.
Context {W : Type}.

Definition CommandHandler : Type := BaseModel -> W -> result pyobj * W.

Record CommandBus : Type := {
  command_handlers : gmap string CommandHandler
}.

(** [CommandBus.register], without the registration on the transport. *)
Definition CommandBus_register (command_type : string) (handler : CommandHandler)
    (self : CommandBus) : CommandBus :=
  {| command_handlers := <[command_type := handler]> (command_handlers self) |}.

(** The [CommandResult] of the [except] clause of lines 132 to 138. *)
Definition error_result (e : exn) : CommandResult :=
  {| success := false;
     message := Some ("Error executing command: " +:+ exn_str e);
     data := None;
     errors := Some [exn_str e] |}.

Definition not_found_result (command_type : string) : CommandResult :=
  {| success := false;
     message := Some ("No handler found for command: " +:+ command_type);
     data := None;
     errors := None |}.

(** The body of [CommandBus.execute], lines 116 to 138. *)
Definition execute_body (self : CommandBus) (command : BaseModel) (w : W)
  : result pyobj * W :=
  let command_type := type_name command in
  match command_handlers self !! command_type with
  | None => (Ok (PResult (not_found_result command_type)), w)
  | Some handler =>
      match handler command w with
      | (Ok r, w') =>
          match getattr_success r with
          | Ok _ => (Ok r, w')
          | Raise e => (Ok (PResult (error_result e)), w')
          end
      | (Raise e, w') => (Ok (PResult (error_result e)), w')
      end
  end.

Definition command_bus_config : Resilience.CircuitBreakerConfig :=
  {| Resilience.failure_threshold := 5;
     Resilience.recovery_timeout := 30;
     Resilience.success_threshold := 2;
     Resilience.half_open_max_requests := 1 |}.

(** [CommandBus.execute] as callers see it: the body under the
    decorator of lines 106 to 113. *)
Definition execute (self : CommandBus) (command : BaseModel)
    (clock : nat -> Q) (reg : Resilience.registry) (w : W)
  : result pyobj * Resilience.registry * W :=
  Resilience.circuit_breaker "command_bus_execute" (Some command_bus_config)
    PNone None (execute_body self command) clock reg w.

(** *** Event bus *)

Record EventHandler : Type := {
  handler_name : string;
  handle : BaseModel -> W -> result unit * W
}.

(** [_rabbitmq], when present, is seen through its [publish_event]. *)
Record EventBus : Type := {
  event_handlers : gmap string (list EventHandler);
  _rabbitmq : option (string -> Messaging.json -> W -> result unit * W)
}.

(** [EventBus.register], without the subscription on the transport. *)
Definition EventBus_register (event_type : string) (handler : EventHandler)
    (self : EventBus) : EventBus :=
  {| event_handlers :=
       <[event_type := default [] (event_handlers self !! event_type) ++ [handler]]>
         (event_handlers self);
     _rabbitmq := _rabbitmq self |}.

(** The loop of lines 283 to 287. Each call is recorded with the name
    of the handler and how it ended; an exception is logged and the loop
    goes on. *)
Fixpoint run_handlers (handlers : list EventHandler) (event : BaseModel) (w : W)
  : list (string * result unit) * W :=
  match handlers with
  | [] => ([], w)
  | handler :: rest =>
      let '(r, w1) := handle handler event w in
      let '(calls, w2) := run_handlers rest event w1 in
      ((handler_name handler, r) :: calls, w2)
  end.

(** [EventBus.publish]: the outcome, the calls made to local handlers in
    the order they were made, and the state afterwards. *)
Definition publish (self : EventBus) (event : BaseModel) (w : W)
  : result unit * list (string * result unit) * W :=
  let event_type := type_name event in
  let w1 :=
    match _rabbitmq self with
    | Some publish_event => snd (publish_event event_type (fields event) w)
    | None => w
    end in
  match event_handlers self !! event_type with
  | Some handlers =>
      let '(calls, w2) := run_handlers handlers event w1 in
      (Ok tt, calls, w2)
  | None => (Ok tt, [], w1)
  end.

(** The state a list of handlers leaves behind when each one is run on
    the state the one before it left, whether or not it raised. *)
Definition state_after (handlers : list EventHandler) (event : BaseModel) (w : W)
  : W :=
  fold_left (fun w handler => snd (handle handler event w)) handlers w.

(** Handlers registered one after the other for one event type. *)
Definition register_all (event_type : string) (handlers : list EventHandler)
    (self : EventBus) : EventBus :=
  fold_left (fun bus handler => EventBus_register event_type handler bus)
            handlers self.

(** The breaker of [execute] is absent (not yet created) or closed. *)
Definition breaker_closed (reg : Resilience.registry) : Prop :=
  match reg !! "command_bus_execute" with
  | None => True
  | Some cb => Resilience._state cb = Resilience.CLOSED
  end.

(** Commands executed one after the other, each with its own clock. *)
Fixpoint execute_all (self : CommandBus) (commands : list (BaseModel * (nat -> Q)))
    (reg : Resilience.registry) (w : W)
  : list (result pyobj) * Resilience.registry * W :=
  match commands with
  | [] => ([], reg, w)
  | (command, clock) :: rest =>
      let '(r, reg1, w1) := execute self command clock reg w in
      let '(rs, reg2, w2) := execute_all self rest reg1 w1 in
      (r :: rs, reg2, w2)
  end.

(** The bodies of [execute] run one after the other, without the
    decorator. *)
Fixpoint execute_bodies (self : CommandBus) (commands : list BaseModel) (w : W)
  : list (result pyobj) * W :=
  match commands with
  | [] => ([], w)
  | command :: rest =>
      let '(r, w1) := execute_body self command w in
      let '(rs, w2) := execute_bodies self rest w1 in
      (r :: rs, w2)
  end.

End Buses.

Arguments CommandHandler : clear implicits.
Arguments CommandBus : clear implicits.
Arguments EventHandler : clear implicits.
Arguments EventBus : clear implicits.

(** *** A small service, for concrete runs

    The state of the handlers is a journal of what they did. *)

Definition create_user_handler : CommandHandler (list string) :=
  fun _ journal => (Raise (Exception "database is down"), journal).

Definition example_command_bus : CommandBus (list string) :=
  CommandBus_register "CreateUserCommand" create_user_handler
    {| command_handlers := ∅ |}.

Definition journal_handler (n : string) (outcome : result unit)
  : EventHandler (list string) :=
  {| handler_name := n;
     handle := fun _ journal => (outcome, journal ++ [n]) |}.

Definition example_handlers : list (EventHandler (list string)) :=
  [journal_handler "audit" (Raise (Exception "disk full"));
   journal_handler "mail" (Ok tt);
   journal_handler "metrics" (Ok tt)].

Definition example_event_bus : EventBus (list string) :=
  register_all "UserCreatedEvent" example_handlers
    {| event_handlers := ∅;
       _rabbitmq := Some (fun _ _ journal =>
                            (Raise (Exception "connection lost"), journal)) |}.

End Cqrs.

(** * Properties *)

(** ** Circuit breaker *)

Module ResilienceFacts.
Import Resilience.

(** Reading the property of a breaker that is not [OPEN] changes nothing. *)
Lemma state_not_open now cb :
  _state cb <> OPEN -> state now cb = (_state cb, cb).
Proof.
  unfold state. destruct (_state cb); [reflexivity | congruence | reflexivity].
Qed.

Lemma state_config now cb : config (snd (state now cb)) = config cb.
Proof.
  unfold state.
  destruct (_state cb), (_last_failure_time cb); simpl; try reflexivity.
  destruct (negb _); simpl; [| reflexivity].
  destruct (Qle_bool _ _); reflexivity.
Qed.

(** The only two outcomes of a read of an [OPEN] breaker. *)
Lemma state_open_cases now cb :
  _state cb = OPEN ->
  state now cb = (OPEN, cb) \/
  state now cb = (HALF_OPEN, set_half_open_requests 0 (set_state HALF_OPEN cb)).
Proof.
  intros Hs. unfold state. rewrite Hs.
  destruct (_last_failure_time cb) as [t|]; [| now left].
  destruct (truthy_time (Some t)); [| now left].
  destruct (Qle_bool _ _); [now right | now left].
Qed.

Lemma state_open_elapsed now cb t :
  _state cb = OPEN ->
  _last_failure_time cb = Some t ->
  ~ (t == 0)%Q ->
  (recovery_timeout (config cb) <= now - t)%Q ->
  state now cb = (HALF_OPEN, set_half_open_requests 0 (set_state HALF_OPEN cb)).
Proof.
  intros Hs Ht Hnz Hel. unfold state. rewrite Hs, Ht. simpl.
  destruct (Qeq_bool t 0) eqn:E.
  - apply Qeq_bool_iff in E. contradiction.
  - simpl. apply Qle_bool_iff in Hel. now rewrite Hel.
Qed.

(** *** One recorded failure *)

Lemma record_failure_closed t0 t1 t2 cb :
  _state cb = CLOSED ->
  record_failure t0 t1 t2 cb =
    let cb2 := set_failure_count (_failure_count cb + 1)
                 (set_last_failure_time (Some t0) cb) in
    if Z.leb (failure_threshold (config cb)) (_failure_count cb + 1)
    then set_state OPEN cb2 else cb2.
Proof.
  intros Hs. unfold record_failure.
  rewrite state_not_open by (simpl; congruence).
  simpl. rewrite Hs. reflexivity.
Qed.

Lemma record_failure_half_open t0 t1 t2 cb :
  _state cb = HALF_OPEN ->
  record_failure t0 t1 t2 cb =
    set_success_count 0 (set_state OPEN (set_last_failure_time (Some t0) cb)).
Proof.
  intros Hs. unfold record_failure.
  rewrite state_not_open by (simpl; congruence).
  simpl. rewrite Hs. simpl.
  rewrite state_not_open by (simpl; congruence).
  simpl. rewrite Hs. reflexivity.
Qed.

Lemma record_failure_open t0 t1 t2 cb :
  _state cb = OPEN ->
  _state (record_failure t0 t1 t2 cb) = OPEN /\
  _last_failure_time (record_failure t0 t1 t2 cb) = Some t0 /\
  config (record_failure t0 t1 t2 cb) = config cb.
Proof.
  intros Hs. unfold record_failure.
  set (cb0 := set_last_failure_time (Some t0) cb).
  assert (H0 : _state cb0 = OPEN) by exact Hs.
  destruct (state_open_cases t1 cb0 H0) as [E | E]; rewrite E; simpl.
  - destruct (state_open_cases t2 cb0 H0) as [E2 | E2]; rewrite E2; simpl; auto.
  - auto.
Qed.

Lemma record_failure_config t0 t1 t2 cb :
  config (record_failure t0 t1 t2 cb) = config cb.
Proof.
  destruct (_state cb) eqn:Hs.
  - rewrite record_failure_closed by assumption. simpl.
    destruct (Z.leb _ _); reflexivity.
  - now apply record_failure_open.
  - rewrite record_failure_half_open by assumption. reflexivity.
Qed.

Lemma record_failure_last t0 t1 t2 cb :
  _last_failure_time (record_failure t0 t1 t2 cb) = Some t0.
Proof.
  destruct (_state cb) eqn:Hs.
  - rewrite record_failure_closed by assumption. simpl.
    destruct (Z.leb _ _); reflexivity.
  - now apply record_failure_open.
  - rewrite record_failure_half_open by assumption. reflexivity.
Qed.

(** *** Runs of failures *)

Lemma record_failures_open ts : forall cb,
  _state cb = OPEN -> _state (record_failures ts cb) = OPEN.
Proof.
  induction ts as [| [[t0 t1] t2] ts IH]; intros cb Hs; simpl; [assumption |].
  apply IH. now apply record_failure_open.
Qed.

Lemma record_failures_config ts : forall cb,
  config (record_failures ts cb) = config cb.
Proof.
  induction ts as [| [[t0 t1] t2] ts IH]; intros cb; simpl; [reflexivity |].
  rewrite IH. apply record_failure_config.
Qed.

Lemma record_failures_closed ts : forall cb,
  _state cb = CLOSED ->
  ts <> [] ->
  failure_threshold (config cb) <= _failure_count cb + Z.of_nat (length ts) ->
  _state (record_failures ts cb) = OPEN.
Proof.
  induction ts as [| [[t0 t1] t2] ts IH]; intros cb Hs Hne Hlen; [congruence |].
  simpl record_failures.
  pose proof (record_failure_closed t0 t1 t2 cb Hs) as E. simpl in E.
  destruct (Z.leb_spec (failure_threshold (config cb)) (_failure_count cb + 1)) as [Hle | Hgt].
  - apply record_failures_open. rewrite E. reflexivity.
  - apply IH.
    + rewrite E. exact Hs.
    + intros ->. simpl in Hlen. lia.
    + rewrite E. simpl. simpl length in Hlen. lia.
Qed.

(** The time stamp left by a run is the one of its last call. *)
Lemma record_failures_last ts : forall cb t0 t1 t2,
  _last_failure_time (record_failures (ts ++ [(t0, t1, t2)]) cb) = Some t0.
Proof.
  induction ts as [| [[a b] c] ts IH]; intros cb t0 t1 t2; simpl.
  - apply record_failure_last.
  - apply IH.
Qed.

(** *** Recorded successes *)

Lemma record_success_closed t1 t2 cb :
  _state cb = CLOSED ->
  record_success t1 t2 cb = set_failure_count 0 cb.
Proof.
  intros Hs. unfold record_success.
  rewrite state_not_open by congruence. rewrite Hs. reflexivity.
Qed.

Lemma record_success_half_open t1 t2 cb :
  _state cb = HALF_OPEN ->
  record_success t1 t2 cb =
    let cb3 := set_success_count (_success_count cb + 1) cb in
    if Z.leb (success_threshold (config cb)) (_success_count cb + 1)
    then set_success_count 0 (set_failure_count 0 (set_state CLOSED cb3))
    else cb3.
Proof.
  intros Hs. unfold record_success.
  rewrite state_not_open by congruence. rewrite Hs. simpl.
  rewrite state_not_open by congruence. rewrite Hs. reflexivity.
Qed.

Lemma record_successes_zeroed ts : forall cb,
  _state cb = CLOSED -> _success_count cb = 0 -> ts <> [] ->
  closed_and_zeroed (record_successes ts cb).
Proof.
  induction ts as [| [t1 t2] ts IH]; intros cb Hs Hsc Hne; [congruence |].
  simpl. rewrite record_success_closed by assumption.
  destruct ts as [| p ts'].
  - simpl. repeat split; assumption.
  - apply IH; [exact Hs | exact Hsc | discriminate].
Qed.

Lemma record_successes_half_open ts : forall cb,
  _state cb = HALF_OPEN ->
  ts <> [] ->
  success_threshold (config cb) <= _success_count cb + Z.of_nat (length ts) ->
  closed_and_zeroed (record_successes ts cb).
Proof.
  induction ts as [| [t1 t2] ts IH]; intros cb Hs Hne Hlen; [congruence |].
  simpl record_successes.
  pose proof (record_success_half_open t1 t2 cb Hs) as E. simpl in E.
  destruct (Z.leb_spec (success_threshold (config cb)) (_success_count cb + 1)) as [Hle | Hgt].
  - rewrite E. destruct ts as [| p ts'].
    + simpl. repeat split.
    + apply record_successes_zeroed; [reflexivity | reflexivity | discriminate].
  - apply IH.
    + rewrite E. exact Hs.
    + intros ->. simpl in Hlen. lia.
    + rewrite E. simpl. simpl length in Hlen. lia.
Qed.

(** *** Trial slots in [HALF_OPEN] *)

Lemma allow_request_half_open now cb :
  _state cb = HALF_OPEN ->
  allow_request now cb =
    if Z.ltb (_half_open_requests cb) (half_open_max_requests (config cb))
    then (true, set_half_open_requests (_half_open_requests cb + 1) cb)
    else (false, cb).
Proof.
  intros Hs. unfold allow_request.
  rewrite state_not_open by congruence. rewrite Hs. reflexivity.
Qed.

(** [k] trial slots are already taken: call number [i] (from 0) of a run
    is let through exactly when [k + i] is below the maximum. *)
Lemma allow_requests_half_open ts : forall cb,
  _state cb = HALF_OPEN ->
  _state (snd (allow_requests ts cb)) = HALF_OPEN /\
  config (snd (allow_requests ts cb)) = config cb /\
  forall i, (i < length ts)%nat ->
    fst (allow_requests ts cb) !! i =
      Some (Z.ltb (_half_open_requests cb + Z.of_nat i)
                  (half_open_max_requests (config cb))).
Proof.
  induction ts as [| t ts IH]; intros cb Hs.
  - simpl. repeat split; try assumption. intros i Hi. inversion Hi.
  - simpl allow_requests.
    rewrite (allow_request_half_open t cb Hs).
    destruct (Z.ltb_spec (_half_open_requests cb) (half_open_max_requests (config cb)))
      as [Hlt | Hge].
    + set (cb1 := set_half_open_requests (_half_open_requests cb + 1) cb).
      destruct (IH cb1 Hs) as (IH1 & IH2 & IH3).
      destruct (allow_requests ts cb1) as [bs cb2] eqn:E. simpl in *.
      repeat split; try assumption.
      intros [| i] Hi; simpl.
      * f_equal. symmetry. apply Z.ltb_lt. lia.
      * rewrite IH3 by lia. do 2 f_equal. lia.
    + destruct (IH cb Hs) as (IH1 & IH2 & IH3).
      destruct (allow_requests ts cb) as [bs cb2] eqn:E. simpl in *.
      repeat split; try assumption.
      intros [| i] Hi; simpl.
      * f_equal. symmetry. apply Z.ltb_ge. lia.
      * rewrite IH3 by lia. f_equal.
        transitivity false; [apply Z.ltb_ge | symmetry; apply Z.ltb_ge]; lia.
Qed.

(** No operation touches the trial-slot counter except [allow_request]
    (which adds one) and the [OPEN] to [HALF_OPEN] transition of the
    property (which zeroes it). *)
Lemma state_half_open_requests now cb :
  _half_open_requests (snd (state now cb)) = _half_open_requests cb \/
  (_state cb = OPEN /\ fst (state now cb) = HALF_OPEN /\
   _half_open_requests (snd (state now cb)) = 0).
Proof.
  destruct (_state cb) eqn:Hs.
  - left. rewrite state_not_open by congruence. reflexivity.
  - destruct (state_open_cases now cb Hs) as [E | E]; rewrite E; simpl; auto.
  - left. rewrite state_not_open by congruence. reflexivity.
Qed.

Lemma record_success_half_open_requests t1 t2 cb :
  _half_open_requests (record_success t1 t2 cb) = _half_open_requests cb \/
  (_state cb = OPEN /\ _half_open_requests (record_success t1 t2 cb) = 0).
Proof.
  destruct (_state cb) eqn:Hs.
  - left. rewrite record_success_closed by assumption. reflexivity.
  - unfold record_success.
    destruct (state_open_cases t1 cb Hs) as [E | E]; rewrite E; simpl.
    + destruct (state_open_cases t2 cb Hs) as [E2 | E2]; rewrite E2; simpl.
      * now left.
      * right. split; [reflexivity |]. destruct (Z.leb _ _); reflexivity.
    + right. split; [reflexivity |]. destruct (Z.leb _ _); reflexivity.
  - left. rewrite record_success_half_open by assumption. simpl.
    destruct (Z.leb _ _); reflexivity.
Qed.

Lemma record_failure_half_open_requests t0 t1 t2 cb :
  _half_open_requests (record_failure t0 t1 t2 cb) = _half_open_requests cb \/
  (_state cb = OPEN /\ _half_open_requests (record_failure t0 t1 t2 cb) = 0).
Proof.
  destruct (_state cb) eqn:Hs.
  - left. rewrite record_failure_closed by assumption. simpl.
    destruct (Z.leb _ _); reflexivity.
  - unfold record_failure.
    set (cb0 := set_last_failure_time (Some t0) cb).
    assert (H0 : _state cb0 = OPEN) by exact Hs.
    destruct (state_open_cases t1 cb0 H0) as [E | E]; rewrite E; simpl.
    + destruct (state_open_cases t2 cb0 H0) as [E2 | E2]; rewrite E2; simpl; auto.
    + auto.
  - left. rewrite record_failure_half_open by assumption. reflexivity.
Qed.

(** *** The state machine of section 4.1 *)

(** C2. For a breaker with thresholds of at least one and counters that
    are not negative: from [CLOSED], a run of [failure_threshold]
    recorded failures (whatever the clock values) leaves the breaker
    [OPEN]; a read of the property of an [OPEN] breaker at least
    [recovery_timeout] seconds after its (non-zero) [_last_failure_time]
    observes [HALF_OPEN]; from [HALF_OPEN], a run of [success_threshold]
    recorded successes leaves the breaker [CLOSED] with [_failure_count]
    and [_success_count] at zero; and one recorded failure in [HALF_OPEN]
    leaves it [OPEN] with [_success_count] reset to zero. *)
Theorem breaker_state_machine (cb : CircuitBreaker)
  (Hft : 1 <= failure_threshold (config cb))
  (Hst : 1 <= success_threshold (config cb))
  (Hfc : 0 <= _failure_count cb)
  (Hsc : 0 <= _success_count cb) :
  (_state cb = CLOSED ->
   forall fs, length fs = Z.to_nat (failure_threshold (config cb)) ->
     _state (record_failures fs cb) = OPEN)
  /\ (_state cb = OPEN ->
      forall t now, _last_failure_time cb = Some t -> ~ (t == 0)%Q ->
        (recovery_timeout (config cb) <= now - t)%Q ->
        fst (state now cb) = HALF_OPEN /\ _state (snd (state now cb)) = HALF_OPEN)
  /\ (_state cb = HALF_OPEN ->
      forall ss, length ss = Z.to_nat (success_threshold (config cb)) ->
        _state (record_successes ss cb) = CLOSED /\
        _failure_count (record_successes ss cb) = 0 /\
        _success_count (record_successes ss cb) = 0)
  /\ (_state cb = HALF_OPEN ->
      forall t0 t1 t2,
        _state (record_failure t0 t1 t2 cb) = OPEN /\
        _success_count (record_failure t0 t1 t2 cb) = 0).
Proof.
  repeat split.
  - intros Hs fs Hlen. apply record_failures_closed; [assumption | |].
    + intros ->. simpl in Hlen. lia.
    + rewrite Hlen. lia.
  - rewrite (state_open_elapsed now cb t); auto.
  - rewrite (state_open_elapsed now cb t); auto.
  - apply record_successes_half_open; [assumption | |].
    + intros ->. simpl in H0. lia.
    + rewrite H0. lia.
  - apply record_successes_half_open; [assumption | |].
    + intros ->. simpl in H0. lia.
    + rewrite H0. lia.
  - apply record_successes_half_open; [assumption | |].
    + intros ->. simpl in H0. lia.
    + rewrite H0. lia.
  - rewrite record_failure_half_open by assumption. reflexivity.
  - rewrite record_failure_half_open by assumption. reflexivity.
Qed.

(** A closed, an open and a half-open breaker with the default thresholds
    (5 failures, 30 seconds, 2 successes). *)
Lemma breaker_state_machine_witness :
  let c := new_breaker "users" default_config in
  let o := set_last_failure_time (Some 100%Q) (set_state OPEN c) in
  let h := set_state HALF_OPEN o in
  _state (record_failures
            [(1, 1, 1); (2, 2, 2); (3, 3, 3); (4, 4, 4); (5, 5, 5)]%Q c) = OPEN
  /\ fst (state 130%Q o) = HALF_OPEN
  /\ _state (record_successes [(131, 131); (132, 132)]%Q h) = CLOSED
  /\ _state (record_failure 131%Q 131%Q 131%Q h) = OPEN.
Proof.
  intros c o h.
  assert (Hc : 1 <= 5 /\ 1 <= 2 /\ 0 <= 0) by lia.
  destruct Hc as (H5 & H2 & H0).
  split; [| split; [| split]].
  - apply (proj1 (breaker_state_machine c H5 H2 H0 H0)); reflexivity.
  - apply (proj1 (proj2 (breaker_state_machine o H5 H2 H0 H0)) eq_refl 100%Q 130%Q).
    + reflexivity.
    + intros E. discriminate E.
    + intros E. discriminate E.
  - apply (proj1 (proj2 (proj2 (breaker_state_machine h H5 H2 H0 H0))) eq_refl);
      reflexivity.
  - apply (proj2 (proj2 (proj2 (breaker_state_machine h H5 H2 H0 H0))) eq_refl).
Defined.

(** C5. In [HALF_OPEN], with [k] trial slots taken so far, call number
    [i] (counting from 0) of a run of [allow_request] calls returns true
    exactly when [k + i < half_open_max_requests], and the run leaves the
    breaker [HALF_OPEN]. [k] is zero when the breaker has just come from
    [OPEN] through the property, so exactly the first
    [half_open_max_requests] calls after the transition are let through;
    recording a success or a failure, or reading the property, in
    [HALF_OPEN] does not give a slot back. *)
Theorem half_open_trial_slots (cb : CircuitBreaker) (ts : list Q)
  (Hs : _state cb = HALF_OPEN) :
  (forall i, (i < length ts)%nat ->
     fst (allow_requests ts cb) !! i =
       Some (Z.ltb (_half_open_requests cb + Z.of_nat i)
                   (half_open_max_requests (config cb))))
  /\ _state (snd (allow_requests ts cb)) = HALF_OPEN
  /\ (forall cb0 t, _state cb0 = OPEN -> snd (state t cb0) = cb ->
        _half_open_requests cb = 0)
  /\ (forall t1 t2,
        _half_open_requests (record_success t1 t2 cb) = _half_open_requests cb)
  /\ (forall t0 t1 t2,
        _half_open_requests (record_failure t0 t1 t2 cb) = _half_open_requests cb)
  /\ (forall t, _half_open_requests (snd (state t cb)) = _half_open_requests cb).
Proof.
  destruct (allow_requests_half_open ts cb Hs) as (H1 & _ & H3).
  split; [exact H3 |]. split; [exact H1 |]. split; [| split; [| split]].
  - intros cb0 t H0 E.
    destruct (state_open_cases t cb0 H0) as [E' | E']; rewrite E' in E;
      simpl in E; subst cb.
    + congruence.
    + reflexivity.
  - intros t1 t2. rewrite record_success_half_open by assumption. simpl.
    destruct (Z.leb _ _); reflexivity.
  - intros t0 t1 t2. rewrite record_failure_half_open by assumption. reflexivity.
  - intros t. rewrite state_not_open by congruence. reflexivity.
Qed.

(** An opened breaker with two trial slots, probed 30 seconds after its
    last failure and then asked four times. *)
Lemma half_open_trial_slots_witness :
  let cfg := {| failure_threshold := 5; recovery_timeout := 30;
                success_threshold := 2; half_open_max_requests := 2 |} in
  let o := set_last_failure_time (Some 100%Q)
             (set_state OPEN (new_breaker "users" cfg)) in
  let h := snd (state 130%Q o) in
  let bs := fst (allow_requests [130; 131; 132; 133]%Q h) in
  _state h = HALF_OPEN /\
  bs !! 0%nat = Some true /\ bs !! 1%nat = Some true /\
  bs !! 2%nat = Some false /\ bs !! 3%nat = Some false.
Proof.
  intros cfg o h bs.
  assert (Hh : _state h = HALF_OPEN) by reflexivity.
  pose proof (proj1 (half_open_trial_slots h [130; 131; 132; 133]%Q Hh)) as Hi.
  split; [exact Hh |].
  split; [| split; [| split]].
  - exact (Hi 0%nat ltac:(simpl; lia)).
  - exact (Hi 1%nat ltac:(simpl; lia)).
  - exact (Hi 2%nat ltac:(simpl; lia)).
  - exact (Hi 3%nat ltac:(simpl; lia)).
Defined.

End ResilienceFacts.

(** ** Rate limiter *)

Module RateLimitFacts.
Import Redis Cache RateLimit.

(** *** Sliding window: the size of a bucket *)

Lemma py_floordiv_small window bucket_count :
  0 <= window < bucket_count -> py_floordiv window bucket_count = Ok 0.
Proof.
  intros H. unfold py_floordiv.
  destruct (Z.eqb_spec bucket_count 0) as [E | _]; [lia |].
  now rewrite Z.div_small.
Qed.

Lemma py_floordiv_pos window bucket_count :
  0 < bucket_count <= window ->
  exists bucket_size, py_floordiv window bucket_count = Ok bucket_size /\ 0 < bucket_size.
Proof.
  intros H. unfold py_floordiv.
  destruct (Z.eqb_spec bucket_count 0) as [E | _]; [lia |].
  eexists. split; [reflexivity |].
  apply Z.div_str_pos. lia.
Qed.

Lemma nzd_ret {A : Type} (a : A) : no_zero_division (mret a).
Proof. intros db. discriminate. Qed.

Lemma nzd_bind {A B : Type} (m : M A) (k : A -> M B) :
  no_zero_division m -> (forall a, no_zero_division (k a)) ->
  no_zero_division (m ≫= k).
Proof.
  intros Hm Hk db. unfold mbind, M_bind.
  specialize (Hm db). destruct (m db) as [[a | e] db']; simpl in *.
  - apply Hk.
  - intros E. apply Hm. injection E as ->. reflexivity.
Qed.

Lemma nzd_try_except {A : Type} (body : M A) (handler : exn -> M A) :
  (forall e, no_zero_division (handler e)) ->
  no_zero_division (try_except body handler).
Proof.
  intros Hh db. unfold try_except.
  destruct (body db) as [[a | e] db']; simpl.
  - discriminate.
  - apply Hh.
Qed.

Lemma nzd_lift {A : Type} (r : result A) :
  r <> Raise ZeroDivisionError -> no_zero_division (lift r).
Proof. intros H db. exact H. Qed.

Lemma nzd_incr redis key : no_zero_division (incr redis key).
Proof.
  intros db. unfold incr, Redis.incr.
  destruct (db !! _get_key redis key) as [e |]; [| discriminate].
  destruct (ent_value e); discriminate.
Qed.

Lemma nzd_expire redis key seconds : no_zero_division (expire redis key seconds).
Proof.
  intros db. unfold expire. destruct (Redis.expire _ _ _). discriminate.
Qed.

Lemma nzd_get redis key : no_zero_division (get redis key).
Proof. intros db. discriminate. Qed.

Lemma nzd_mapM {A B : Type} (f : A -> M B) (l : list A) :
  (forall a, no_zero_division (f a)) -> no_zero_division (mapM_ f l).
Proof.
  intros Hf. induction l as [| a l IH]; simpl.
  - apply nzd_ret.
  - apply nzd_bind; [apply Hf |]. intros b.
    apply nzd_bind; [exact IH |]. intros bs. apply nzd_ret.
Qed.

Lemma nzd_py_int v : py_int v <> Raise ZeroDivisionError.
Proof. destruct v; discriminate. Qed.

(** With at least one second per bucket the limiter never divides by
    zero, whatever the store holds. *)
Lemma sliding_window_no_zero_division redis key limit window bucket_count now :
  0 < bucket_count <= window ->
  no_zero_division
    (RateLimiters.sliding_window redis key limit window bucket_count now).
Proof.
  intros H.
  destruct (py_floordiv_pos window bucket_count H) as (bs & E & Hpos).
  unfold RateLimiters.sliding_window. rewrite E.
  intros db. unfold mbind at 1, M_bind at 1, lift at 1.
  assert (E2 : py_floordiv (py_int_of_float now) bs =
               Ok (py_int_of_float now / bs)).
  { unfold py_floordiv. destruct (Z.eqb_spec bs 0); [lia | reflexivity]. }
  rewrite E2. unfold mbind at 1, M_bind at 1, lift at 1.
  revert db. change (no_zero_division ?m) with (forall db, fst (m db) <> Raise ZeroDivisionError).
  apply nzd_bind.
  - apply nzd_try_except. intros _.
    apply nzd_bind; [apply nzd_incr |]. intros _.
    apply nzd_bind; [apply nzd_expire |]. intros _. apply nzd_ret.
  - intros _. apply nzd_bind.
    + apply nzd_mapM. intros k.
      apply nzd_bind; [apply nzd_get |]. intros [c |].
      * apply nzd_lift, nzd_py_int.
      * apply nzd_ret.
    + intros counts. intros db.
      destruct (Z.ltb _ _); discriminate.
Qed.

(** C10. With [0 <= window < bucket_count] the integer division of line
    113 gives a bucket size of 0, and line 114 raises
    [ZeroDivisionError] before the store is touched: for every client,
    key, limit, clock value and store the call raises and leaves the
    store as it was. The middleware reaches this with any sliding-window
    configuration that keeps the default [bucket_count] of 6 and has a
    window of 0 to 5 seconds. *)
Theorem sliding_window_small_window_raises
    (redis : CacheClient) (key : string) (lim win buckets : Z)
    (now : Q) (db : store)
    (Hwindow : 0 <= win) (Hsmall : win < buckets) :
  py_floordiv win buckets = Ok 0
  /\ RateLimiters.sliding_window redis key lim win buckets now db
     = (Raise ZeroDivisionError, db)
  /\ (buckets = bucket_count RateLimitConfig_default ->
      forall self,
        redis_client self = Some redis ->
        _apply_rate_limit self SLIDING_WINDOW key
          {| limit := lim; window := win; strategy := SLIDING_WINDOW;
             bucket_count := bucket_count RateLimitConfig_default |} now db
        = (Raise ZeroDivisionError, db)).
Proof.
  assert (E : py_floordiv win buckets = Ok 0)
    by (apply py_floordiv_small; lia).
  assert (R : RateLimiters.sliding_window redis key lim win buckets now db
              = (Raise ZeroDivisionError, db)).
  { unfold RateLimiters.sliding_window. rewrite E. reflexivity. }
  split; [exact E |]. split; [exact R |].
  intros Hb self Hc. subst buckets.
  unfold _apply_rate_limit. rewrite Hc. exact R.
Qed.

(** A five-second window with the default six buckets. *)
Lemma sliding_window_small_window_raises_witness :
  let redis := {| prefix := "ratelimit:"; has_pipeline := true |} in
  RateLimiters.sliding_window redis "10.0.0.1:abc" 100 5 6 1700000000 ∅
  = (Raise ZeroDivisionError, ∅).
Proof.
  intros redis.
  assert (H0 : 0 <= 5) by lia. assert (H1 : 5 < 6) by lia.
  exact (proj1 (proj2 (sliding_window_small_window_raises
                         redis "10.0.0.1:abc" 100 5 6 1700000000 ∅ H0 H1))).
Defined.

(** *** The configuration a request is limited with *)

Lemma prefix_spec (pattern path : string) :
  String.prefix pattern path = true <-> exists rest, path = pattern +:+ rest.
Proof.
  revert path. induction pattern as [| a pattern IH]; intros path; simpl.
  - split; [intros _; now exists path | now destruct path].
  - destruct path as [| b path].
    + split; [discriminate | intros [rest E]; discriminate E].
    + simpl. destruct (Ascii.ascii_dec a b) as [-> | Hne].
      * rewrite IH. split; intros [rest E]; exists rest.
        -- now rewrite E.
        -- now injection E.
      * split; [discriminate |]. intros [rest E]. injection E as E1 E2.
        congruence.
Qed.

Lemma str_contains_unfold (pattern path : string) :
  str_contains pattern path =
    if String.prefix pattern path then true
    else match path with
         | EmptyString => false
         | String _ rest => str_contains pattern rest
         end.
Proof. destruct path; reflexivity. Qed.

(** [str_contains] is Python's [in] on strings: the pattern occurs
    somewhere in the path. *)
Lemma str_contains_spec (pattern path : string) :
  str_contains pattern path = true <->
  exists before rest, path = before +:+ pattern +:+ rest.
Proof.
  induction path as [| b path IH]; rewrite str_contains_unfold.
  - destruct (String.prefix pattern "") eqn:E.
    + split; [intros _ | reflexivity].
      apply prefix_spec in E as [rest E]. now exists "", rest.
    + split; [discriminate |]. intros (before & rest & E').
      destruct before as [| c before]; [| discriminate E'].
      simpl in E'. assert (String.prefix pattern "" = true)
        by (apply prefix_spec; now exists rest).
      congruence.
  - destruct (String.prefix pattern (String b path)) eqn:E.
    + split; [intros _ | reflexivity].
      apply prefix_spec in E as [rest E]. now exists "", rest.
    + rewrite IH. split.
      * intros (before & rest & E'). exists (String b before), rest.
        simpl. now rewrite E'.
      * intros (before & rest & E').
        destruct before as [| c before].
        -- simpl in E'. assert (String.prefix pattern (String b path) = true)
             by (apply prefix_spec; now exists rest).
           congruence.
        -- simpl in E'. injection E' as _ E'. now exists before, rest.
Qed.

Lemma find_first_match {A : Type} (f : A -> bool) (before after : list A) (x : A) :
  (forall y, In y before -> f y = false) -> f x = true ->
  find f (before ++ x :: after) = Some x.
Proof.
  intros Hb Hx. induction before as [| y before IH]; simpl.
  - now rewrite Hx.
  - rewrite (Hb y) by now left. apply IH. intros z Hz. apply Hb. now right.
Qed.

Lemma find_no_match {A : Type} (f : A -> bool) (l : list A) :
  (forall y, In y l -> f y = false) -> find f l = None.
Proof.
  intros H. induction l as [| y l IH]; simpl; [reflexivity |].
  rewrite (H y) by now left. apply IH. intros z Hz. apply H. now right.
Qed.

Lemma existsb_excluded (path : string) (excluded : list string) :
  Forall (fun e => String.prefix e path = false) excluded ->
  existsb (fun e => String.prefix e path) excluded = false.
Proof.
  induction 1 as [| e l He _ IH]; simpl; [reflexivity |].
  now rewrite He, IH.
Qed.

Lemma not_excluded (path : string) (excluded : list string) :
  existsb (fun e => String.prefix e path) excluded = false ->
  Forall (fun e => String.prefix e path = false) excluded.
Proof.
  induction excluded as [| e l IH]; simpl; intros H; constructor.
  - now destruct (String.prefix e path).
  - apply IH. now destruct (String.prefix e path).
Qed.

(** C4, as the code has it. For a request whose path starts with none of
    the excluded paths: a configuration registered for the request's HTTP
    method is the one applied, also when an endpoint pattern occurs in
    the path; the configuration of the first endpoint pattern (in
    insertion order) that occurs in the path is applied only when no
    method configuration is registered for the method; the default
    configuration is applied only when neither matches. *)
Theorem dispatch_config_precedence (self : RateLimitMiddleware) (path method : string)
  (Hpath : Forall (fun e => String.prefix e path = false) (excluded_paths self)) :
  (forall method_config,
     method_configs self !! method = Some method_config ->
     dispatch_config self path method = Some method_config)
  /\ (method_configs self !! method = None ->
      forall before pattern endpoint_config after,
        endpoint_configs self = before ++ (pattern, endpoint_config) :: after ->
        (forall p c, In (p, c) before -> str_contains p path = false) ->
        str_contains pattern path = true ->
        dispatch_config self path method = Some endpoint_config)
  /\ (method_configs self !! method = None ->
      (forall p c, In (p, c) (endpoint_configs self) -> str_contains p path = false) ->
      dispatch_config self path method = Some (default_config self)).
Proof.
  pose proof (existsb_excluded path _ Hpath) as Hex.
  unfold dispatch_config. rewrite Hex. split; [| split].
  - intros mc Hm. now rewrite Hm.
  - intros Hm before pattern ec after Hl Hb Hp. rewrite Hm, Hl.
    rewrite (find_first_match _ before after (pattern, ec)); [reflexivity | | exact Hp].
    intros [p c] Hin. apply (Hb p c Hin).
  - intros Hm Hall. rewrite Hm.
    rewrite find_no_match; [reflexivity |].
    intros [p c] Hin. apply (Hall p c Hin).
Qed.

(** A [POST] and a [GET] to the login endpoint, and a [GET] elsewhere. *)
Lemma dispatch_config_precedence_witness :
  dispatch_config example_middleware "/api/v1/auth/token" "POST" = Some post_config
  /\ dispatch_config example_middleware "/api/v1/auth/token" "GET" = Some login_config
  /\ dispatch_config example_middleware "/api/v1/users" "GET"
     = Some RateLimitConfig_default.
Proof.
  pose proof (fun path => not_excluded path (excluded_paths example_middleware)) as Hex.
  split; [| split].
  - apply (proj1 (dispatch_config_precedence example_middleware
                    "/api/v1/auth/token" "POST" (Hex "/api/v1/auth/token" eq_refl))).
    reflexivity.
  - apply (proj1 (proj2 (dispatch_config_precedence example_middleware
                    "/api/v1/auth/token" "GET" (Hex "/api/v1/auth/token" eq_refl)))
             eq_refl [] "/auth/token" login_config []).
    + reflexivity.
    + intros p c [].
    + reflexivity.
  - apply (proj2 (proj2 (dispatch_config_precedence example_middleware
                    "/api/v1/users" "GET" (Hex "/api/v1/users" eq_refl))) eq_refl).
    intros p c [E | []]. injection E as <- _. reflexivity.
Defined.

(** The claim as the specification words it fails: an endpoint pattern
    and a method configuration both match, and the method configuration
    is the one applied. *)
Lemma endpoint_pattern_overridden_by_method :
  str_contains "/auth/token" "/api/v1/auth/token" = true
  /\ method_configs example_middleware !! "POST" = Some post_config
  /\ dispatch_config example_middleware "/api/v1/auth/token" "POST"
     <> Some login_config.
Proof.
  split; [reflexivity |]. split; [reflexivity |].
  intros E. vm_compute in E. discriminate E.
Qed.

(** *** Token bucket: a denied call

    The first three lemmas are about the exact reading of the limiter. *)

Lemma Qlt_bool_iff (x y : Q) : Qlt_bool x y = true <-> (x < y)%Q.
Proof.
  unfold Qlt_bool. rewrite negb_true_iff. split.
  - intros H. apply Qnot_le_lt. intros Hle.
    apply Qle_bool_iff in Hle. congruence.
  - intros H. destruct (Qle_bool y x) eqn:E; [| reflexivity].
    apply Qle_bool_iff in E. exfalso. exact (Qlt_not_le _ _ H E).
Qed.

Lemma py_truediv_nonzero (a b : Q) :
  ~ (b == 0)%Q -> py_truediv a b = Ok (a / b)%Q.
Proof.
  intros H. unfold py_truediv. destruct (Qeq_bool b 0) eqn:E; [| reflexivity].
  apply Qeq_bool_iff in E. contradiction.
Qed.

(** [min(limit, x)] has the value of the minimum of the two numbers. *)
Lemma py_min_value (lim : Z) (x : Q) :
  num_value (py_min lim x) = Qmin (inject_Z lim) x.
Proof.
  unfold py_min, Qmin, GenericMinMax.gmin.
  destruct (Qlt_bool x (inject_Z lim)) eqn:E.
  - apply Qlt_bool_iff in E. apply Qgt_alt in E. now rewrite E.
  - destruct (inject_Z lim ?= x)%Q eqn:C; try reflexivity.
    apply Qgt_alt in C. apply Qlt_bool_iff in C. congruence.
Qed.

Lemma lt_int_mono (x : spec_float) (n : Z) :
  Float64.lt_int x 1 = true -> 1 <= n -> Float64.lt_int x n = true.
Proof.
  intros H Hn. destruct x as [s | s | | s m e]; simpl in *.
  - apply Z.ltb_lt. lia.
  - exact H.
  - discriminate H.
  - destruct e as [| k | k].
    + apply Z.ltb_lt in H. apply Z.ltb_lt. lia.
    + apply Z.ltb_lt in H. apply Z.ltb_lt. lia.
    + apply Z.ltb_lt in H. apply Z.ltb_lt.
      assert (0 < 2 ^ Z.pos k) by (apply Z.pow_pos_nonneg; lia). nia.
Qed.

(** C3, as the code has it, in binary64. For a limit of at least 1, when
    the stored count and timestamp read as floats and [limit / window]
    is a float that is not zero: if the refilled count
    [tokens + (now - timestamp) * tokenRate] is below 1 (it is then the
    [min] with the limit) and the waiting time
    [(1 - newTokens) / tokenRate] is finite, the call is denied with
    [remaining = 0] and [retry_after = int(waitTime) + 1], every
    operation rounded as binary64 rounds it: line 203 truncates the
    waiting time before it adds one, it does not round it up. Nothing is
    written to the store. *)
Theorem token_bucket_denied (redis : CacheClient) (key : string) (lim win : Z)
    (now : spec_float) (db : store)
    (tokens_value timestamp_value token_rate : spec_float)
    (Hlim : 1 <= lim)
    (Htokens : Binary64.py_float (default (RInt lim)
                 (Redis.get (_get_key redis (key +:+ ":tokens")) db))
               = Ok tokens_value)
    (Htimestamp : Binary64.py_float (default (Binary64.py_str now)
                    (Redis.get (_get_key redis (key +:+ ":timestamp")) db))
                  = Ok timestamp_value)
    (Hrate : Float64.int_truediv lim win = Ok token_rate)
    (Hnonzero : Float64.is_zero token_rate = false) :
  let new_tokens :=
    Float64.add tokens_value
      (Float64.mul (Float64.sub now timestamp_value) token_rate) in
  let wait_time :=
    SFdiv Float64.prec Float64.emax (Float64.sub Float64.one new_tokens) token_rate in
  Float64.lt_int new_tokens 1 = true ->
  Float64.is_finite wait_time = true ->
  Binary64.py_min lim new_tokens = Binary64.NFloat new_tokens
  /\ Binary64.token_bucket redis key lim win now db
     = (Ok (false, 0, Float64.trunc wait_time + 1), db).
Proof.
  intros new_tokens wait_time Hlt Hfin.
  assert (Hmin : Binary64.py_min lim new_tokens = Binary64.NFloat new_tokens).
  { unfold Binary64.py_min. now rewrite (lt_int_mono new_tokens lim Hlt Hlim). }
  split; [exact Hmin |].
  unfold Binary64.token_bucket, get, mbind, M_bind, lift.
  rewrite Htokens, Htimestamp, Hrate. fold new_tokens. rewrite Hmin.
  cbn [Binary64.num_lt]. rewrite Hlt.
  unfold Binary64.one_minus_over. cbn [mbind result_bind bind].
  assert (Hdiv : Float64.truediv (Float64.sub Float64.one new_tokens) token_rate
                 = Ok wait_time).
  { unfold Float64.truediv. destruct token_rate; [discriminate Hnonzero | ..];
      reflexivity. }
  rewrite Hdiv.
  assert (Hint : Float64.to_int wait_time = Ok (Float64.trunc wait_time)).
  { unfold Float64.to_int. destruct wait_time; try reflexivity; discriminate Hfin. }
  rewrite Hint. reflexivity.
Qed.

(** One request per 93 seconds and an empty bucket: the waiting time is
    [1 / (1 / 93)], which binary64 rounds to 92.99999999999999, so that
    the call is denied for 93 seconds. *)
Lemma token_bucket_denied_witness :
  let redis := {| prefix := "ratelimit:"; has_pipeline := false |} in
  let now := Float64.of_int 1700000000 in
  let db := Redis.set "ratelimit:c1:timestamp" (RFloat 1700000000)
              (Redis.set "ratelimit:c1:tokens" (RInt 0) ∅) in
  Binary64.token_bucket redis "c1" 1 93 now db = (Ok (false, 0, 93), db).
Proof.
  intros redis now db.
  assert (H1 : 1 <= 1) by lia.
  exact (proj2 (token_bucket_denied redis "c1" 1 93 now db
                  (Float64.of_int 0) now (Float64.of_ratio 1 93)
                  H1 eq_refl eq_refl eq_refl eq_refl eq_refl eq_refl)).
Defined.

(** The claim as the specification words it fails: with half a token and
    a rate of one token per second, both exact in binary64, the call is
    denied with a waiting time of 1, while [ceil((1 - 1/2) / 1) + 1]
    is 2. *)
Lemma token_bucket_retry_after_is_not_ceiling :
  let redis := {| prefix := "ratelimit:"; has_pipeline := false |} in
  let now := Float64.of_int 1000 in
  let db := Redis.set "ratelimit:c1:timestamp" (RFloat 1000)
              (Redis.set "ratelimit:c1:tokens" (RFloat (1 # 2)) ∅) in
  let token_rate := Float64.one in
  let new_tokens :=
    Float64.add (Float64.of_Q (1 # 2))
      (Float64.mul (Float64.sub now (Float64.of_Q 1000)) token_rate) in
  Float64.int_truediv 1 1 = Ok token_rate
  /\ Float64.lt_int new_tokens 1 = true
  /\ (Float64.to_Q new_tokens == 1 # 2)%Q
  /\ (Float64.to_Q token_rate == 1)%Q
  /\ fst (Binary64.token_bucket redis "c1" 1 1 now db) = Ok (false, 0, 1)
  /\ spec_retry_after (Float64.to_Q new_tokens) (Float64.to_Q token_rate) = 2
  /\ fst (Binary64.token_bucket redis "c1" 1 1 now db)
     <> Ok (false, 0, spec_retry_after (Float64.to_Q new_tokens)
                        (Float64.to_Q token_rate)).
Proof.
  repeat split; try reflexivity.
  intros E. vm_compute in E. discriminate E.
Qed.

(** *** Fixed window *)

(** With a [SimplePipeline] the increment, the expiry and the TTL all go
    to the prefixed key, and the call does what the specification says. *)
Lemma fixed_window_simple_pipeline redis key lim win db n db1 :
  has_pipeline redis = false ->
  Redis.incr (_get_key redis key) db = (Ok n, db1) ->
  let db2 := if Z.eqb n 1
             then snd (Redis.expire (_get_key redis key) win db1) else db1 in
  RateLimiters.fixed_window redis key lim win db
  = (Ok (fixed_window_outcome (_get_key redis key) lim win n db2), db2).
Proof.
  intros Hp Hincr db2. subst db2.
  unfold RateLimiters.fixed_window, fixed_window_outcome, pipeline.
  rewrite Hp.
  unfold mbind, M_bind, try_except, mret, M_ret, pipe_incr, pipe_execute,
    SimplePipeline.execute, SimplePipeline.incr, lift, expire, ttl. simpl.
  unfold mbind, M_bind, mret, M_ret, run_command.
  change (SimplePipeline._get_key _ key) with (_get_key redis key).
  rewrite Hincr. simpl.
  destruct (Z.eqb n 1).
  - destruct (Redis.expire (_get_key redis key) win db1) as [b db2]. simpl.
    destruct (Z.ltb lim n); reflexivity.
  - destruct (Z.ltb lim n); reflexivity.
Qed.

(** With the driver's pipeline the increment goes to the key as the
    limiter wrote it, the expiry and the TTL to the prefixed key. *)
Lemma fixed_window_native_pipeline redis key lim win db n db1 :
  has_pipeline redis = true ->
  Redis.incr key db = (Ok n, db1) ->
  let db2 := if Z.eqb n 1
             then snd (Redis.expire (_get_key redis key) win db1) else db1 in
  RateLimiters.fixed_window redis key lim win db
  = (Ok (fixed_window_outcome (_get_key redis key) lim win n db2), db2).
Proof.
  intros Hp Hincr db2. subst db2.
  unfold RateLimiters.fixed_window, fixed_window_outcome, pipeline.
  rewrite Hp.
  unfold mbind, M_bind, try_except, mret, M_ret, pipe_incr, pipe_execute,
    pipeline_execute, lift, expire, ttl. simpl.
  rewrite Hincr. simpl.
  destruct (Z.eqb n 1).
  - destruct (Redis.expire (_get_key redis key) win db1) as [b db2]. simpl.
    destruct (Z.ltb lim n); reflexivity.
  - destruct (Z.ltb lim n); reflexivity.
Qed.

(** Hence, when the prefix is not empty and the store holds neither key,
    the first call creates the counter and sets no expiry on it. *)
Lemma fixed_window_native_first_call redis key lim win db :
  has_pipeline redis = true ->
  _get_key redis key <> key ->
  db !! key = None ->
  db !! _get_key redis key = None ->
  let db' := snd (RateLimiters.fixed_window redis key lim win db) in
  Redis.get key db' = Some (RInt 1) /\ Redis.ttl key db' = -1.
Proof.
  intros Hp Hne Hk Hpk db'.
  assert (Hincr : Redis.incr key db
                  = (Ok 1, <[key := {| ent_value := RInt 1; ent_ttl := None |}]> db))
    by (unfold Redis.incr; now rewrite Hk).
  subst db'. rewrite (fixed_window_native_pipeline redis key lim win db _ _ Hp Hincr).
  simpl. unfold Redis.expire. rewrite lookup_insert_ne by congruence.
  rewrite Hpk. simpl. unfold Redis.get, Redis.ttl.
  rewrite lookup_insert_eq. split; reflexivity.
Qed.

(** C6 on the code. A client built as the middleware builds it (prefix
    [ratelimit:], the driver's pipeline) and an empty store: the first
    call is let through with [remaining = limit - 1], but the counter it
    created sits under the unprefixed key and has no expiry (TTL -1),
    because the [expire] of line 72 was sent to the prefixed key, which
    does not exist. *)
Theorem fixed_window_native_pipeline_sets_no_expiry :
  let redis := {| prefix := "ratelimit:"; has_pipeline := true |} in
  let run := RateLimiters.fixed_window redis "c1" 5 60 ∅ in
  fst run = Ok (true, 4, 0)
  /\ Redis.get "c1" (snd run) = Some (RInt 1)
  /\ Redis.ttl "c1" (snd run) = -1
  /\ Redis.get "ratelimit:c1" (snd run) = None.
Proof. vm_compute. repeat split; reflexivity. Qed.

(** The same call through a [SimplePipeline] sets the expiry. *)
Example fixed_window_simple_pipeline_sets_expiry :
  let redis := {| prefix := "ratelimit:"; has_pipeline := false |} in
  let run := RateLimiters.fixed_window redis "c1" 5 60 ∅ in
  fst run = Ok (true, 4, 0)
  /\ Redis.get "ratelimit:c1" (snd run) = Some (RInt 1)
  /\ Redis.ttl "ratelimit:c1" (snd run) = 60.
Proof. vm_compute. repeat split; reflexivity. Qed.

(** Six calls, a full window of waiting, one more call: through the
    driver's pipeline the client stays locked out, through a
    [SimplePipeline] the window has started afresh. *)
Example fixed_window_after_the_window :
  let native := {| prefix := "ratelimit:"; has_pipeline := true |} in
  let simple := {| prefix := "ratelimit:"; has_pipeline := false |} in
  let after redis :=
    fst (RateLimiters.fixed_window redis "c1" 5 60
           (elapse 60 (snd (fixed_window_calls 6 redis "c1" 5 60 ∅)))) in
  fst (fixed_window_calls 6 native "c1" 5 60 ∅) = Some (Ok (false, 0, 60))
  /\ fst (fixed_window_calls 6 simple "c1" 5 60 ∅) = Some (Ok (false, 0, 60))
  /\ after native = Ok (false, 0, 60)
  /\ after simple = Ok (true, 4, 0).
Proof. vm_compute. repeat split; reflexivity. Qed.

End RateLimitFacts.

(** ** The wire format *)

Module WireFacts.
Import Messaging Messaging.Wire.

Section Induction.

Variable P : pyval -> Prop.
Hypothesis Hnone : P PyNone.
Hypothesis Hbool : forall b, P (PyBool b).
Hypothesis Hint : forall n, P (PyInt n).
Hypothesis Hfloat : forall x, P (PyFloat x).
Hypothesis Hstr : forall s, P (PyStr s).
Hypothesis Hlist : forall l, Forall P l -> P (PyList l).
Hypothesis Htuple : forall l, Forall P l -> P (PyTuple l).
Hypothesis Hdict :
  forall items, Forall (fun item => P (snd item)) items -> P (PyDict items).
Hypothesis Hobject : forall cls, P (PyObject cls).

Lemma pyval_induction : forall v, P v.
Proof using All.
  fix IH 1. intros [| b | n | x | s | l | l | items | cls].
  - exact Hnone.
  - apply Hbool.
  - apply Hint.
  - apply Hfloat.
  - apply Hstr.
  - apply Hlist. induction l as [| x rest IHl]; constructor; [apply IH | exact IHl].
  - apply Htuple. induction l as [| x rest IHl]; constructor; [apply IH | exact IHl].
  - apply Hdict. induction items as [| x rest IHl]; constructor; [apply IH | exact IHl].
  - apply Hobject.
Qed.

End Induction.

(** The string keys of the items of a dict. *)
Lemma existsb_eqb_In (k : string) (l : list string) :
  existsb (String.eqb k) l = true <-> In k l.
Proof.
  rewrite existsb_exists. split.
  - intros (x & Hx & E). apply String.eqb_eq in E. now subst.
  - intros H. exists k. split; [exact H | apply String.eqb_refl].
Qed.

Lemma setitem_fresh key value items :
  ~ In key (omap (fun item => str_key (fst item)) items) ->
  setitem key value items = items ++ [(PyStr key, value)].
Proof.
  induction items as [| [k v] rest IH]; intros Hn; [reflexivity |].
  cbn [setitem]. cbn [omap list_omap fst] in Hn.
  destruct k; cbn [str_key] in Hn;
    try (cbn [app]; f_equal; apply IH; exact Hn).
  destruct (String.eqb_spec s key) as [-> | Hne].
  - exfalso. apply Hn. now left.
  - cbn [app]. f_equal. apply IH. intros Hin. apply Hn. now right.
Qed.

Lemma distinct_NoDup (l : list string) : distinct l = true <-> NoDup l.
Proof.
  induction l as [| k rest IH]; cbn [distinct].
  - split; [intros _; constructor | reflexivity].
  - rewrite andb_true_iff, negb_true_iff, NoDup_cons, IH.
    rewrite list_elem_of_In, <- existsb_eqb_In.
    destruct (existsb (String.eqb k) rest); split; intros [H1 H2]; split;
      try assumption; try congruence; try reflexivity.
Qed.

Lemma fold_setitem (ms : list (string * pyval)) : forall acc,
  distinct (omap (fun item => str_key (fst item)) acc ++ map fst ms) = true ->
  fold_left (fun items member => setitem (fst member) (snd member) items) ms acc
  = acc ++ map (fun member => (PyStr (fst member), snd member)) ms.
Proof.
  induction ms as [| [k v] rest IH]; intros acc Hd; cbn [fold_left map fst snd].
  - now rewrite app_nil_r.
  - apply distinct_NoDup in Hd. cbn [map fst] in Hd.
    apply NoDup_app in Hd as (Hacc & Hdisj & Hrest).
    assert (Hk : ~ In k (omap (fun item => str_key (fst item)) acc)).
    { intros Hin. apply list_elem_of_In in Hin. apply (Hdisj k Hin). now left. }
    rewrite (setitem_fresh k v acc Hk).
    rewrite IH.
    + now rewrite <- app_assoc.
    + apply distinct_NoDup. rewrite omap_app. cbn [omap list_omap fst str_key app].
      rewrite <- app_assoc. cbn [app].
      apply NoDup_app. split; [exact Hacc |]. split; [exact Hdisj | exact Hrest].
Qed.

Lemma loads_dumps float_repr max_str_digits : forall v,
  json_shaped max_str_digits v = true ->
  exists d, dumps float_repr max_str_digits v = Ok d /\ loads d = v.
Proof.
  apply (pyval_induction
           (fun v => json_shaped max_str_digits v = true ->
                     exists d, dumps float_repr max_str_digits v = Ok d /\ loads d = v));
    try (intros; eexists; split; reflexivity); try discriminate.
  - intros n Hs. cbn [json_shaped] in Hs. cbn [dumps]. rewrite Hs.
    eexists; split; reflexivity.
  - intros l IH Hs. cbn [json_shaped] in Hs. cbn [dumps].
    match goal with
    | |- context [match ?t with Ok _ => _ | Raise _ => _ end] =>
        assert (H : exists ds, t = Ok ds /\ map loads ds = l)
    end.
    { induction IH as [| x rest Hx _ IHrest]; [now exists [] |].
      cbn [forallb] in Hs. apply andb_true_iff in Hs as [Hs1 Hs2].
      destruct (Hx Hs1) as (d & Ed & El).
      destruct (IHrest Hs2) as (ds & Eds & Els).
      exists (d :: ds). rewrite Ed, Eds. cbn [map]. now rewrite El, Els. }
    destruct H as (ds & -> & Els). eexists. split; [reflexivity |].
    cbn [loads]. now rewrite Els.
  - intros items IH Hs. cbn [json_shaped] in Hs.
    apply andb_true_iff in Hs as [Hall Hd]. cbn [dumps].
    match goal with
    | |- context [match ?t with Ok _ => _ | Raise _ => _ end] =>
        assert (H : exists ms, t = Ok ms
                  /\ map (fun member => (PyStr (fst member), loads (snd member))) ms
                     = items
                  /\ map fst ms = omap (fun item => str_key (fst item)) items)
    end.
    { clear Hd. induction IH as [| [k x] rest Hx _ IHrest]; [now exists [] |].
      cbn [forallb fst snd] in Hall. apply andb_true_iff in Hall as [Hk Hall].
      destruct k; try discriminate Hk.
      destruct (Hx Hk) as (d & Ed & El).
      destruct (IHrest Hall) as (ms & Ems & Els & Eks).
      exists ((s, d) :: ms). cbn [dumps_key]. cbn [snd] in Ed. rewrite Ed, Ems.
      cbn [map fst snd omap list_omap str_key].
      cbn [snd] in El. now rewrite El, Els, Eks. }
    destruct H as (ms & -> & Els & Eks). eexists. split; [reflexivity |].
    cbn [loads]. rewrite fold_setitem.
    + cbn [app]. rewrite map_map. cbn [fst snd]. now rewrite Els.
    + cbn [omap list_omap app]. rewrite map_map. cbn [fst].
      change (map (fun x : string * doc => fst x) ms) with (map fst ms).
      now rewrite Eks.
Qed.

Lemma validate_dict fresh_id (m : Message) :
  Message_validate fresh_id (Message_dict m) = Some m.
Proof.
  destruct m as [i t n d c r]. unfold Message_validate, Message_dict.
  cbn [py_get String.eqb Ascii.eqb Bool.eqb id type name data correlation_id reply_to].
  destruct t, c, r; reflexivity.
Qed.

Lemma dict_shaped max_str_digits (m : Message) :
  json_shaped max_str_digits (data m) = true ->
  json_shaped max_str_digits (Message_dict m) = true.
Proof.
  intros H. unfold Message_dict. cbn [json_shaped forallb fst snd].
  rewrite H. destruct (correlation_id m), (reply_to m); reflexivity.
Qed.

(** C9. A message whose [data] has the shape of a JSON document comes
    back from the wire as it was sent: the body the receiver reads,
    [json.loads] of what [json.dumps(message.dict())] wrote, is the dict
    of the message, the fields the handlers take from it with [get] are
    the fields of the message, and a [Message] made from it is the
    message sent, with the same [id], [type], [name], [data],
    [correlation_id] and [reply_to]. *)
Theorem message_round_trip (float_repr : spec_float -> string)
    (max_str_digits : Z) (fresh_id : string) (m : Message)
    (Hdata : json_shaped max_str_digits (data m) = true) :
  received float_repr max_str_digits m = Ok (Message_dict m)
  /\ (forall items, Message_dict m = PyDict items ->
        py_get "id" items = Some (PyStr (id m))
        /\ py_get "type" items = Some (PyStr (MessageType_value (type m)))
        /\ py_get "name" items = Some (PyStr (name m))
        /\ py_get "data" items = Some (data m)
        /\ py_get "correlation_id" items = Some (py_of_optional (correlation_id m))
        /\ py_get "reply_to" items = Some (py_of_optional (reply_to m)))
  /\ round_trip float_repr max_str_digits fresh_id m = Ok m.
Proof.
  assert (Hr : received float_repr max_str_digits m = Ok (Message_dict m)).
  { unfold received.
    destruct (loads_dumps float_repr max_str_digits (Message_dict m)
                (dict_shaped max_str_digits m Hdata)) as (d & -> & ->).
    reflexivity. }
  split; [exact Hr |]. split.
  - intros items E. injection E as <-. repeat split; reflexivity.
  - unfold round_trip. rewrite Hr, validate_dict. reflexivity.
Qed.

Lemma message_round_trip_witness :
  let m := {| id := "m-1"; type := EVENT; name := "QuestCompleted";
              data := PyDict [(PyStr "quest", PyStr "q-7");
                              (PyStr "xp", PyInt 50);
                              (PyStr "ratio", PyFloat (Float64.of_ratio 1 2));
                              (PyStr "tags", PyList [PyStr "daily"; PyNone; PyBool true])];
              correlation_id := None; reply_to := Some "gateway_callback" |} in
  json_shaped 4300 (data m) = true
  /\ received (fun _ => "0.5") 4300 m = Ok (Message_dict m)
  /\ round_trip (fun _ => "0.5") 4300 "fresh" m = Ok m.
Proof.
  intros m.
  assert (H : json_shaped 4300 (data m) = true) by (vm_compute; reflexivity).
  split; [exact H |].
  destruct (message_round_trip (fun _ => "0.5") 4300 "fresh" m H) as (Hr & _ & Ht).
  split; [exact Hr | exact Ht].
Defined.

(** A [data] that is no JSON document does not come back as it was
    sent. A tuple comes back as a list and a key that is an int as its
    text; a [datetime] is refused by [json.dumps] with a [TypeError], so
    that nothing is sent. *)
Lemma message_data_not_reproduced :
  let message_ data_ := {| id := "m-1"; type := EVENT; name := "QuestCompleted";
                           data := data_; correlation_id := None; reply_to := None |} in
  round_trip (fun _ => "0.5") 4300 "fresh"
    (message_ (PyDict [(PyStr "position", PyTuple [PyInt 1; PyInt 2])]))
  = Ok (message_ (PyDict [(PyStr "position", PyList [PyInt 1; PyInt 2])]))
  /\ round_trip (fun _ => "0.5") 4300 "fresh"
       (message_ (PyDict [(PyInt 1, PyStr "first")]))
     = Ok (message_ (PyDict [(PyStr "1", PyStr "first")]))
  /\ round_trip (fun _ => "0.5") 4300 "fresh"
       (message_ (PyDict [(PyStr "at", PyObject "datetime")]))
     = Raise (Exception "Object of type datetime is not JSON serializable")
  /\ ~ (forall m, exists m',
          round_trip (fun _ => "0.5") 4300 "fresh" m = Ok m'
          /\ id m' = id m /\ type m' = type m /\ name m' = name m
          /\ data m' = data m
          /\ correlation_id m' = correlation_id m /\ reply_to m' = reply_to m).
Proof.
  intros message_.
  assert (H1 : round_trip (fun _ => "0.5") 4300 "fresh"
                 (message_ (PyDict [(PyStr "position", PyTuple [PyInt 1; PyInt 2])]))
               = Ok (message_ (PyDict [(PyStr "position", PyList [PyInt 1; PyInt 2])])))
    by (vm_compute; reflexivity).
  split; [exact H1 |]. split; [vm_compute; reflexivity |].
  split; [vm_compute; reflexivity |].
  intros H.
  destruct (H (message_ (PyDict [(PyStr "position", PyTuple [PyInt 1; PyInt 2])])))
    as (m' & Hm & _ & _ & _ & Hd & _).
  rewrite H1 in Hm. injection Hm as <-. discriminate Hd.
Qed.

End WireFacts.

(** ** Message bus *)

Module MessagingFacts.
Import Messaging.

Lemma MessageType_round_trip (t : MessageType) :
  MessageType_of_value (MessageType_value t) = Some t.
Proof. destruct t; reflexivity. Qed.

Lemma validate_optional_round_trip (o : option string) :
  validate_optional_str (Some (json_of_optional o)) = Some o.
Proof. destruct o; reflexivity. Qed.

(** A body that is already parsed: the dict of a message whose [data]
    is a JSON document validates as that message. *)
Lemma Message_validate_dict (m : Message) (fresh_id : string) :
  Message_validate fresh_id (Message_dict m) = Some m.
Proof.
  destruct m as [i t n d c r]. unfold Message_dict, Message_validate.
  cbn [assoc String.eqb Ascii.eqb Bool.eqb validate_str mbind option_bind].
  rewrite MessageType_round_trip.
  cbn [mbind option_bind].
  rewrite !validate_optional_round_trip. reflexivity.
Qed.

(** The wire format has the six keys of section 6, in this order. *)
Lemma message_dict_keys (m : Message) :
  exists items,
    Message_dict m = JDict items /\
    map fst items = ["id"; "type"; "name"; "data"; "correlation_id"; "reply_to"].
Proof. eexists. split; reflexivity. Qed.

(** *** The query protocol *)

(** The response to a query carries, as its correlation id, the [id] of
    the query message. *)
Lemma handle_query_correlation (self : RabbitMQConnection)
    (fresh_id : string) (query : Message) handler payload :
  query_handlers self !! name query = Some handler ->
  handler (data query) = Ok payload ->
  exists p,
    _handle_query self fresh_id (Message_dict query) = Ok (Some p) /\
    amqp_correlation_id (message p) = Some (id query) /\
    routing_key p = reply_to query /\
    Message_validate "" (body (message p)) =
      Some {| id := fresh_id; type := RESPONSE;
              name := name query +:+ "_response"; data := payload;
              correlation_id := Some (id query); reply_to := None |}.
Proof.
  intros Hh Hp. destruct query as [i t n d c r]. simpl in *.
  unfold _handle_query, Message_dict, dict_get. simpl. rewrite Hh. simpl.
  rewrite Hp. simpl.
  destruct r as [r |]; simpl; eexists; (split; [reflexivity |]);
    (split; [reflexivity |]); (split; [reflexivity |]);
    reflexivity.
Qed.

Lemma send_query_registers (self : RabbitMQConnection) c mid service q d :
  let '(self', p) := send_query self c mid service q d in
  c ∈ futures self' /\
  resolved self' = resolved self /\
  amqp_correlation_id (message p) = Some c /\
  body (message p) =
    Message_dict {| id := mid; type := QUERY; name := q; data := d;
                    correlation_id := Some c;
                    reply_to := Some (callback_queue_name self) |}.
Proof. simpl. repeat split. set_solver. Qed.

(** A query whose message id differs from its correlation id, as two
    draws of [uuid4] do: the handler's answer comes back under the
    message id, the sender finds no future under it, and the caller's
    future stays pending. *)
Lemma query_round_trip_unresolved (sender receiver : RabbitMQConnection)
    (c mid rid service q : string) (d : json) handler payload :
  query_handlers receiver !! q = Some handler ->
  handler d = Ok payload ->
  mid <> c ->
  mid ∉ futures sender ->
  resolved sender !! c = None ->
  let run := query_round_trip sender receiver c mid rid service q d in
  (exists p, snd run = Some p /\ amqp_correlation_id (message p) = Some mid) /\
  c ∈ futures (fst run) /\
  send_query_result (fst run) c = None.
Proof.
  intros Hh Hp Hne Hmid Hres run. subst run.
  unfold query_round_trip, send_query, _process_message. simpl.
  unfold _handle_query, dict_get. simpl. rewrite Hh. simpl. rewrite Hp. simpl.
  unfold _process_response. simpl.
  destruct (decide (mid ∈ {[c]} ∪ futures sender)) as [Hin | Hnin].
  - exfalso. apply elem_of_union in Hin as [Hin | Hin].
    + apply elem_of_singleton in Hin. contradiction.
    + contradiction.
  - split; [eexists; split; reflexivity |].
    split; [simpl; set_solver |].
    unfold send_query_result. simpl. now rewrite Hres.
Qed.

(** Only if the two draws coincided would the future be resolved with the
    handler's payload. *)
Lemma query_round_trip_same_id (sender receiver : RabbitMQConnection)
    (c rid service q : string) (d : json) handler payload :
  query_handlers receiver !! q = Some handler ->
  handler d = Ok payload ->
  let '(sender', _) := query_round_trip sender receiver c c rid service q d in
  send_query_result sender' c = Some (Ok payload).
Proof.
  intros Hh Hp.
  unfold query_round_trip, send_query, _process_message. simpl.
  unfold _handle_query, dict_get. simpl. rewrite Hh. simpl. rewrite Hp. simpl.
  unfold _process_response. simpl.
  destruct (decide (c ∈ {[c]} ∪ futures sender)) as [Hin | Hnin].
  - unfold send_query_result. simpl. now rewrite lookup_insert_eq.
  - exfalso. set_solver.
Qed.

(** C1 on the code. The gateway sends the query [GetUser] with
    correlation id [c-1] in a message whose id is [m-1]; the user service
    has a handler for it. The response is published with correlation id
    [m-1] (line 176 and 182 read [body.get("id")]), the gateway has no
    future under [m-1], and the future registered under [c-1] is never
    resolved. *)
Theorem query_response_misses_the_future :
  let run := query_round_trip api_gateway user_service
               "c-1" "m-1" "r-1" "user-service" "GetUser" JNull in
  (exists p, snd run = Some p /\
             amqp_correlation_id (message p) = Some "m-1" /\
             routing_key p = Some "api-gateway_callback")
  /\ "c-1" ∈ futures (fst run)
  /\ send_query_result (fst run) "c-1" = None.
Proof.
  intros run.
  destruct (query_round_trip_unresolved api_gateway user_service
              "c-1" "m-1" "r-1" "user-service" "GetUser" JNull
              (fun _ => Ok (JStr "alice")) (JStr "alice"))
    as ((p & Hp & Hc) & Hf & Hr); try reflexivity.
  - discriminate.
  - apply not_elem_of_empty.
  - split; [| split; assumption].
    exists p. split; [exact Hp |]. split; [exact Hc |].
    vm_compute in Hp. injection Hp as <-. reflexivity.
Qed.

End MessagingFacts.

(** ** Command bus and event bus *)

Module CqrsFacts.
Import Resilience Cqrs.

Section Facts.
Context {W : Type}.

(** The body of [execute] always returns a [CommandResult]. *)
Lemma execute_body_returns (self : CommandBus W) (command : BaseModel) (w : W) :
  exists r w', execute_body self command w = (Ok (PResult r), w').
Proof.
  unfold execute_body.
  destruct (command_handlers self !! type_name command) as [handler |].
  - destruct (handler command w) as [[[r |] | e] w']; simpl; eauto.
  - eauto.
Qed.

Lemma allow_request_closed now cb :
  _state cb = CLOSED -> allow_request now cb = (true, cb).
Proof.
  intros Hs. unfold allow_request.
  rewrite ResilienceFacts.state_not_open by congruence. now rewrite Hs.
Qed.

(** Under a closed breaker the wrapper runs the body, hands its result
    through and leaves the breaker closed. *)
Lemma execute_closed (self : CommandBus W) command clock reg w :
  breaker_closed reg ->
  exists cb,
    _state cb = CLOSED /\
    execute self command clock reg w =
      (fst (execute_body self command w),
       <["command_bus_execute" := cb]> reg,
       snd (execute_body self command w)).
Proof.
  intros Hc. unfold execute, circuit_breaker, get_or_create.
  destruct (execute_body_returns self command w) as (r & w' & E).
  unfold breaker_closed in Hc.
  destruct (reg !! "command_bus_execute") as [cb |] eqn:Hreg.
  - rewrite (allow_request_closed _ cb Hc). simpl. rewrite E. simpl.
    rewrite (ResilienceFacts.record_success_closed _ _ cb Hc).
    exists (set_failure_count 0 cb). split; [exact Hc | reflexivity].
  - set (cb := new_breaker "command_bus_execute" (default default_config (Some command_bus_config))).
    rewrite (allow_request_closed _ cb eq_refl). simpl. rewrite E. simpl.
    exists (record_success (clock 1%nat) (clock 2%nat) cb).
    split; [reflexivity |].
    now rewrite insert_insert_eq.
Qed.

Lemma execute_keeps_closed (self : CommandBus W) command clock reg w :
  breaker_closed reg ->
  breaker_closed (snd (fst (execute self command clock reg w))).
Proof.
  intros Hc. destruct (execute_closed self command clock reg w Hc) as (cb & Hs & E).
  rewrite E. simpl. unfold breaker_closed. now rewrite lookup_insert_eq.
Qed.

(** C8. [CommandBus.execute] returns a value for every bus, command,
    clock, registry and handler state: it never raises. With the breaker
    of [execute] closed (as it is when the process starts, and as every
    call leaves it): when no handler is registered for the type of the
    command the value is a result with [success = false] and a message
    naming the type; when the handler raises, the value is a result with
    [success = false] whose message and [errors] carry the text of the
    exception. *)
Theorem command_bus_execute_never_raises (self : CommandBus W)
    (command : BaseModel) (clock : nat -> Q) (reg : registry) (w : W) :
  let out := execute self command clock reg w in
  (exists v, fst (fst out) = Ok v)
  /\ (breaker_closed reg ->
      breaker_closed (snd (fst out))
      /\ (command_handlers self !! type_name command = None ->
          fst (fst out) =
            Ok (PResult {| success := false;
                           message := Some ("No handler found for command: "
                                            +:+ type_name command);
                           data := None; errors := None |}))
      /\ (forall handler e w',
            command_handlers self !! type_name command = Some handler ->
            handler command w = (Raise e, w') ->
            fst (fst out) =
              Ok (PResult {| success := false;
                             message := Some ("Error executing command: "
                                              +:+ exn_str e);
                             data := None; errors := Some [exn_str e] |}))).
Proof.
  intros out. split.
  - subst out. unfold execute, circuit_breaker.
    destruct (get_or_create _ _ reg) as [breaker reg1].
    destruct (allow_request _ breaker) as [[|] breaker1]; simpl.
    + destruct (execute_body_returns self command w) as (r & w' & E).
      rewrite E. simpl. eauto.
    + destruct (state _ breaker1). simpl. eauto.
  - intros Hc. split; [apply execute_keeps_closed, Hc |].
    destruct (execute_closed self command clock reg w Hc) as (cb & _ & E).
    subst out. rewrite E. cbn [fst snd]. split.
    + intros Hnone. unfold execute_body, CommandHandler in *. now rewrite Hnone.
    + intros handler e w' Hh He. unfold execute_body, CommandHandler in *.
      now rewrite Hh, He.
Qed.

(** From the start of the process on, every command gets a
    [CommandResult] back. *)
Lemma execute_all_returns (self : CommandBus W) commands : forall reg w,
  breaker_closed reg ->
  Forall (fun r => exists c, r = Ok (PResult c))
         (fst (fst (execute_all self commands reg w))).
Proof.
  induction commands as [| [command clock] rest IH]; intros reg w Hc; simpl.
  - constructor.
  - pose proof (execute_keeps_closed self command clock reg w Hc) as Hc'.
    destruct (execute_closed self command clock reg w Hc) as (cb & _ & E).
    destruct (execute_body_returns self command w) as (c & w' & Eb).
    rewrite E in *. rewrite Eb in *. simpl in *.
    specialize (IH _ w' Hc').
    destruct (execute_all self rest _ w') as [[rs reg2] w2]. simpl in *.
    constructor; [eauto | exact IH].
Qed.

(** *** Event bus *)

Lemma run_handlers_names (handlers : list (EventHandler W)) event : forall w,
  map fst (fst (run_handlers handlers event w)) = map handler_name handlers.
Proof.
  induction handlers as [| h rest IH]; intros w; simpl; [reflexivity |].
  destruct (handle h event w) as [r w1].
  specialize (IH w1). destruct (run_handlers rest event w1) as [calls w2].
  simpl in *. now rewrite IH.
Qed.

(** The handler at position [i] is called on the state the handlers
    before it left, whether or not they raised. *)
Lemma run_handlers_app (before after : list (EventHandler W)) event w :
  run_handlers (before ++ after) event w =
    let '(calls1, w1) := run_handlers before event w in
    let '(calls2, w2) := run_handlers after event w1 in
    (calls1 ++ calls2, w2).
Proof.
  revert w. induction before as [| h rest IH]; intros w; simpl.
  - now destruct (run_handlers after event w).
  - destruct (handle h event w) as [r w1]. rewrite IH.
    destruct (run_handlers rest event w1) as [calls1 w2].
    now destruct (run_handlers after event w2).
Qed.

Lemma register_handlers (self : EventBus W) event_type handler :
  event_handlers (EventBus_register event_type handler self) !! event_type
  = Some (default [] (event_handlers self !! event_type) ++ [handler]).
Proof. unfold EventBus_register. simpl. apply lookup_insert_eq. Qed.

Lemma register_all_handlers event_type (handlers : list (EventHandler W)) :
  forall self : EventBus W,
  handlers <> [] ->
  event_handlers (register_all event_type handlers self) !! event_type
  = Some (default [] (event_handlers self !! event_type) ++ handlers).
Proof.
  induction handlers as [| h rest IH]; intros self Hne; [congruence |].
  unfold register_all. simpl. fold (register_all event_type rest (EventBus_register event_type h self)).
  destruct rest as [| h' rest'].
  - simpl. apply register_handlers.
  - rewrite IH by discriminate. rewrite register_handlers. simpl.
    now rewrite <- app_assoc.
Qed.

Lemma run_handlers_state (handlers : list (EventHandler W)) event : forall w,
  snd (run_handlers handlers event w) = state_after handlers event w.
Proof.
  induction handlers as [| h rest IH]; intros w; [reflexivity |].
  cbn [run_handlers state_after fold_left].
  destruct (handle h event w) as [r w1]. specialize (IH w1).
  destruct (run_handlers rest event w1) as [calls w2]. exact IH.
Qed.

Lemma run_handlers_lookup (handlers : list (EventHandler W)) event :
  forall w i h,
  handlers !! i = Some h ->
  fst (run_handlers handlers event w) !! i
  = Some (handler_name h,
          fst (handle h event (state_after (take i handlers) event w))).
Proof.
  induction handlers as [| h0 rest IH]; intros w i h Hi.
  - rewrite lookup_nil in Hi. discriminate Hi.
  - cbn [run_handlers].
    destruct (handle h0 event w) as [r w1] eqn:E0.
    specialize (IH w1).
    destruct (run_handlers rest event w1) as [calls w2].
    destruct i as [| i].
    + injection Hi as <-. cbn. now rewrite E0.
    + cbn in Hi. cbn [fst] in *. cbn [lookup list_lookup take state_after fold_left].
      rewrite E0. cbn [snd]. exact (IH i h Hi).
Qed.

(** C7. [publish] returns normally, whatever the handlers and the
    transport do. The calls it makes to the local handlers of the
    event's type are exactly the handlers registered for that type, each
    one once and in registration order: call number [i] is the call of
    handler number [i], run on the state that the transport and the
    handlers before it left, whether or not they raised, and its outcome
    is what that handler returns or raises there. The state [publish]
    leaves is the state after the last handler. Registration appends, so
    for handlers registered one after the other the order is the order
    of the [register] calls. *)
Theorem publish_calls_every_handler (self : EventBus W) (event : BaseModel) (w : W) :
  let handlers := default [] (event_handlers self !! type_name event) in
  let w1 := match _rabbitmq self with
            | Some publish_event =>
                snd (publish_event (type_name event) (fields event) w)
            | None => w
            end in
  let out := publish self event w in
  fst (fst out) = Ok tt
  /\ map fst (snd (fst out)) = map handler_name handlers
  /\ (forall i h, handlers !! i = Some h ->
        snd (fst out) !! i
        = Some (handler_name h,
                fst (handle h event (state_after (take i handlers) event w1))))
  /\ snd out = state_after handlers event w1
  /\ (forall registered,
        event_handlers self !! type_name event = None ->
        default [] (event_handlers (register_all (type_name event) registered self)
                      !! type_name event) = registered
        /\ map fst (snd (fst (publish (register_all (type_name event) registered self)
                                      event w)))
           = map handler_name registered).
Proof.
  intros handlers w1 out.
  assert (Hout : out = (Ok tt, fst (run_handlers handlers event w1),
                        snd (run_handlers handlers event w1))).
  { subst out handlers. unfold publish. fold w1.
    destruct (event_handlers self !! type_name event) as [hs |]; [| reflexivity].
    change (default [] (Some hs)) with hs. now destruct (run_handlers hs event w1). }
  assert (Hreg : forall registered,
            event_handlers self !! type_name event = None ->
            default [] (event_handlers (register_all (type_name event) registered self)
                          !! type_name event) = registered).
  { intros registered Hnone. destruct registered as [| h rest].
    - unfold register_all. cbn [fold_left]. now rewrite Hnone.
    - rewrite register_all_handlers by discriminate. now rewrite Hnone. }
  rewrite Hout. cbn [fst snd].
  split; [reflexivity |]. split; [apply run_handlers_names |].
  split; [intros i h Hi; now apply run_handlers_lookup |].
  split; [apply run_handlers_state |].
  intros registered Hnone. split; [now apply Hreg |].
  unfold publish.
  pose proof (Hreg registered Hnone) as Hr.
  destruct (event_handlers (register_all (type_name event) registered self)
              !! type_name event) as [hs |]; simpl in Hr; subst registered.
  - pose proof (run_handlers_names hs event
                  (match _rabbitmq (register_all (type_name event) hs self) with
                   | Some publish_event =>
                       snd (publish_event (type_name event) (fields event) w)
                   | None => w
                   end)) as H.
    now destruct (run_handlers hs event _).
  - reflexivity.
Qed.

End Facts.

(** A command without a handler, and a command whose handler raises, on
    a fresh registry. *)
Lemma command_bus_execute_never_raises_witness :
  let noon : nat -> Q := fun _ => 1700000000%Q in
  fst (fst (execute example_command_bus
              {| type_name := "DeleteUserCommand"; fields := Messaging.JNull |}
              noon ∅ []))
  = Ok (PResult {| success := false;
                   message := Some "No handler found for command: DeleteUserCommand";
                   data := None; errors := None |})
  /\ fst (fst (execute example_command_bus
                 {| type_name := "CreateUserCommand"; fields := Messaging.JNull |}
                 noon ∅ []))
     = Ok (PResult {| success := false;
                      message := Some "Error executing command: database is down";
                      data := None; errors := Some ["database is down"] |}).
Proof.
  intros noon.
  assert (Hc : @breaker_closed ∅) by exact I.
  split.
  - exact (proj1 (proj2 (proj2 (command_bus_execute_never_raises
             example_command_bus
             {| type_name := "DeleteUserCommand"; fields := Messaging.JNull |}
             noon ∅ []) Hc)) eq_refl).
  - exact (proj2 (proj2 (proj2 (command_bus_execute_never_raises
             example_command_bus
             {| type_name := "CreateUserCommand"; fields := Messaging.JNull |}
             noon ∅ []) Hc))
             create_user_handler (Exception "database is down") [] eq_refl eq_refl).
Defined.

(** Three handlers registered in this order, the first of which raises,
    and a transport that fails: the journal shows the order in which
    they ran. *)
Lemma publish_calls_every_handler_witness :
  let out := publish example_event_bus
               {| type_name := "UserCreatedEvent"; fields := Messaging.JNull |} [] in
  fst (fst out) = Ok tt
  /\ snd (fst out) !! 1%nat = Some ("mail", Ok tt)
  /\ snd out = ["audit"; "mail"; "metrics"].
Proof.
  intros out.
  pose proof (publish_calls_every_handler example_event_bus
                {| type_name := "UserCreatedEvent"; fields := Messaging.JNull |} [])
    as (H1 & _ & H3 & H4 & _).
  split; [exact H1 |]. split; [| exact H4].
  exact (H3 1%nat (journal_handler "mail" (Ok tt)) eq_refl).
Defined.

(** The same run in full: every call and the journal the handlers wrote. *)
Example publish_run :
  publish example_event_bus
    {| type_name := "UserCreatedEvent"; fields := Messaging.JNull |} []
  = (Ok tt,
     [("audit", Raise (Exception "disk full")); ("mail", Ok tt); ("metrics", Ok tt)],
     ["audit"; "mail"; "metrics"]).
Proof. vm_compute. reflexivity. Qed.

End CqrsFacts.

(** ** Circuit breaker: further properties *)

Module ResilienceMore.
Import Resilience ResilienceFacts.

(** A run of failures that stays below the threshold. *)
Lemma record_failures_below fs : forall cb,
  _state cb = CLOSED ->
  _failure_count cb + Z.of_nat (length fs) < failure_threshold (config cb) ->
  _state (record_failures fs cb) = CLOSED /\
  _failure_count (record_failures fs cb) = _failure_count cb + Z.of_nat (length fs).
Proof.
  induction fs as [| [[t0 t1] t2] fs IH]; intros cb Hs Hlt.
  - simpl. split; [assumption | lia].
  - simpl record_failures.
    pose proof (record_failure_closed t0 t1 t2 cb Hs) as E. simpl in E.
    simpl length in Hlt.
    destruct (Z.leb_spec (failure_threshold (config cb)) (_failure_count cb + 1));
      [lia |].
    destruct (IH (record_failure t0 t1 t2 cb)) as (IH1 & IH2).
    + rewrite E. exact Hs.
    + rewrite E. simpl. lia.
    + split; [exact IH1 |]. rewrite IH2, E. simpl. simpl length. lia.
Qed.

(** X1. Only consecutive failures open the breaker: a success recorded while
    closed puts the failure count back to zero, so fewer than
    [failure_threshold] failures after it leave the breaker closed,
    however many failures came before. *)
Theorem success_restarts_failure_count (cb : CircuitBreaker) (t1 t2 : Q)
    (fs : list (Q * Q * Q))
    (Hs : _state cb = CLOSED)
    (Hfew : Z.of_nat (length fs) < failure_threshold (config cb)) :
  let cb' := record_failures fs (record_success t1 t2 cb) in
  _state cb' = CLOSED /\ _failure_count cb' = Z.of_nat (length fs).
Proof.
  intros cb'. subst cb'. rewrite record_success_closed by assumption.
  destruct (record_failures_below fs (set_failure_count 0 cb)) as (H1 & H2);
    [exact Hs | simpl; lia |].
  split; [exact H1 |]. rewrite H2. simpl. lia.
Qed.

Lemma success_restarts_failure_count_witness :
  let cb := set_failure_count 4 (new_breaker "users" default_config) in
  _state (record_failures [(2, 2, 2); (3, 3, 3); (4, 4, 4); (5, 5, 5)]%Q
            (record_success 1 1 cb)) = CLOSED.
Proof.
  intros cb.
  assert (H : Z.of_nat 4 < 5) by (simpl; lia).
  exact (proj1 (success_restarts_failure_count cb 1 1
                  [(2, 2, 2); (3, 3, 3); (4, 4, 4); (5, 5, 5)]%Q eq_refl H)).
Defined.

(** A read of the property of an open breaker before the recovery
    timeout has passed changes nothing. *)
Lemma state_open_waiting now cb t :
  _state cb = OPEN ->
  _last_failure_time cb = Some t ->
  (now - t < recovery_timeout (config cb))%Q ->
  state now cb = (OPEN, cb).
Proof.
  intros Hs Ht Hlt. unfold state. rewrite Hs, Ht.
  destruct (truthy_time (Some t)); [| reflexivity].
  destruct (Qle_bool (recovery_timeout (config cb)) (now - t)) eqn:E;
    [| reflexivity].
  apply Qle_bool_iff in E. exfalso. exact (Qlt_not_le _ _ Hlt E).
Qed.

Lemma allow_request_in_closed now cb :
  _state cb = CLOSED -> allow_request now cb = (true, cb).
Proof.
  intros Hs. unfold allow_request.
  rewrite state_not_open by congruence. now rewrite Hs.
Qed.

Lemma allow_request_open_waiting now cb t :
  _state cb = OPEN ->
  _last_failure_time cb = Some t ->
  (now - t < recovery_timeout (config cb))%Q ->
  allow_request now cb = (false, cb).
Proof.
  intros Hs Ht Hlt. unfold allow_request.
  now rewrite (state_open_waiting now cb t Hs Ht Hlt).
Qed.

Lemma allow_request_open_elapsed now cb t :
  _state cb = OPEN ->
  _last_failure_time cb = Some t -> ~ (t == 0)%Q ->
  (recovery_timeout (config cb) <= now - t)%Q ->
  let half := set_half_open_requests 0 (set_state HALF_OPEN cb) in
  allow_request now cb =
    if Z.ltb 0 (half_open_max_requests (config cb))
    then (true, set_half_open_requests 1 half)
    else (false, half).
Proof.
  intros Hs Ht Hnz Hel half. unfold allow_request.
  rewrite (state_open_elapsed now cb t Hs Ht Hnz Hel). simpl.
  destruct (Z.ltb 0 (half_open_max_requests (config cb))); reflexivity.
Qed.

(** X2. What [allow_request] answers, state by state: a closed breaker lets
    every call through and is not changed; an open breaker refuses, and
    is not changed, as long as less than [recovery_timeout] seconds have
    passed since the last failure; once they have passed, the call that
    asks is the first trial call: the breaker becomes half-open and, if
    it has a trial slot at all, the call is let through and takes it. *)
Theorem allow_request_by_state (cb : CircuitBreaker) (now : Q) :
  (_state cb = CLOSED -> allow_request now cb = (true, cb))
  /\ (_state cb = OPEN ->
      forall t, _last_failure_time cb = Some t ->
        (now - t < recovery_timeout (config cb))%Q ->
        allow_request now cb = (false, cb))
  /\ (_state cb = OPEN ->
      forall t, _last_failure_time cb = Some t -> ~ (t == 0)%Q ->
        (recovery_timeout (config cb) <= now - t)%Q ->
        let half := set_half_open_requests 0 (set_state HALF_OPEN cb) in
        allow_request now cb =
          if Z.ltb 0 (half_open_max_requests (config cb))
          then (true, set_half_open_requests 1 half)
          else (false, half)).
Proof.
  split; [| split].
  - apply allow_request_in_closed.
  - intros Hs t. now apply allow_request_open_waiting.
  - intros Hs t. now apply allow_request_open_elapsed.
Qed.

Lemma allow_request_by_state_witness :
  let o := set_last_failure_time (Some 100%Q)
             (set_state OPEN (new_breaker "users" default_config)) in
  fst (allow_request 129 o) = false /\ fst (allow_request 130 o) = true.
Proof.
  intros o.
  pose proof (allow_request_by_state o 129) as (_ & H1 & _).
  pose proof (allow_request_by_state o 130) as (_ & _ & H2).
  split.
  - rewrite (H1 eq_refl 100%Q eq_refl eq_refl). reflexivity.
  - rewrite (H2 eq_refl 100%Q eq_refl ltac:(intros E; discriminate E)
               ltac:(intros E; discriminate E)).
    reflexivity.
Defined.

(** X3. The registry: the first retrieval of a name creates the breaker with
    the configuration given then; later retrievals return that breaker
    and ignore their configuration; other names are not touched; after
    [reset] the next retrieval creates a new breaker. *)
Theorem registry_first_writer_wins (n : string)
    (c1 c2 : option CircuitBreakerConfig) (reg : registry)
    (Hnew : reg !! n = None) :
  let cb1 := fst (get_or_create n c1 reg) in
  let reg1 := snd (get_or_create n c1 reg) in
  cb1 = new_breaker n (default default_config c1)
  /\ get_or_create n c2 reg1 = (cb1, reg1)
  /\ (forall m, m <> n -> reg1 !! m = reg !! m)
  /\ get_or_create n c2 (reset n reg1)
     = (new_breaker n (default default_config c2),
        <[n := new_breaker n (default default_config c2)]> reg).
Proof.
  intros cb1 reg1. subst cb1 reg1. unfold get_or_create, reset.
  rewrite Hnew. simpl. rewrite lookup_insert_eq, lookup_delete_eq.
  repeat split.
  - intros m Hm. now rewrite lookup_insert_ne by congruence.
  - f_equal. rewrite delete_insert_eq. f_equal. now apply delete_id.
Qed.

Lemma registry_first_writer_wins_witness :
  let strict := {| failure_threshold := 1; recovery_timeout := 5;
                   success_threshold := 1; half_open_max_requests := 1 |} in
  config (fst (get_or_create "payments" (Some strict)
                 (snd (get_or_create "payments" None ∅)))) = default_config.
Proof.
  intros strict.
  pose proof (registry_first_writer_wins "payments" None (Some strict) ∅ eq_refl)
    as (_ & H & _).
  simpl in H. rewrite H. reflexivity.
Defined.

(** *** The decorator *)

Section Decorator.
Context {W A : Type}.
Implicit Types (func : W -> result A * W) (clock : nat -> Q) (reg : registry).

(** A first call finds no breaker and creates it; it then goes on as a
    call that found it. *)
Lemma circuit_breaker_create n c (fb : A) ff func clock reg (w : W) :
  reg !! n = None ->
  circuit_breaker n c fb ff func clock reg w =
  circuit_breaker n c fb ff func clock
    (<[n := new_breaker n (default default_config c)]> reg) w.
Proof.
  intros Hn. unfold circuit_breaker, get_or_create.
  now rewrite Hn, lookup_insert_eq.
Qed.

Lemma circuit_breaker_allowed n c (fb : A) ff func clock reg (w : W) cb cb1 :
  reg !! n = Some cb ->
  allow_request (clock 0%nat) cb = (true, cb1) ->
  circuit_breaker n c fb ff func clock reg w =
    match func w with
    | (Ok r, w') =>
        (Ok r, <[n := record_success (clock 1%nat) (clock 2%nat) cb1]> reg, w')
    | (Raise e, w') =>
        (Raise e,
         <[n := record_failure (clock 1%nat) (clock 2%nat) (clock 3%nat) cb1]> reg,
         w')
    end.
Proof.
  intros Hn Ha. unfold circuit_breaker, get_or_create. rewrite Hn, Ha. simpl.
  now destruct (func w) as [[r | e] w'].
Qed.

Lemma circuit_breaker_denied n c (fb : A) func clock reg (w : W) cb cb1 :
  reg !! n = Some cb ->
  allow_request (clock 0%nat) cb = (false, cb1) ->
  circuit_breaker n c fb None func clock reg w =
    (Ok fb, <[n := snd (state (clock 1%nat) cb1)]> reg, w).
Proof.
  intros Hn Ha. unfold circuit_breaker, get_or_create. rewrite Hn, Ha. simpl.
  now destruct (state (clock 1%nat) cb1).
Qed.

(** X4. Fail fast. While the breaker is open and the recovery timeout has not
    passed, a protected call does not run the function it wraps: it
    returns the fallback value (or what the fallback function returns),
    and neither the state the function works on nor the breaker is
    changed. *)
Theorem circuit_breaker_open_fails_fast (n : string)
    (c : option CircuitBreakerConfig) (fb : A) func clock reg (w : W)
    (cb : CircuitBreaker) (t : Q)
    (Hreg : reg !! n = Some cb)
    (Hopen : _state cb = OPEN)
    (Hlast : _last_failure_time cb = Some t)
    (Hwait0 : (clock 0%nat - t < recovery_timeout (config cb))%Q)
    (Hwait1 : (clock 1%nat - t < recovery_timeout (config cb))%Q) :
  circuit_breaker n c fb None func clock reg w = (Ok fb, reg, w)
  /\ forall fallback_function,
       circuit_breaker n c fb (Some fallback_function) func clock reg w
       = (fst (fallback_function w), reg, snd (fallback_function w)).
Proof.
  pose proof (allow_request_open_waiting (clock 0%nat) cb t
                Hopen Hlast Hwait0) as Ha.
  pose proof (state_open_waiting (clock 1%nat) cb t Hopen Hlast Hwait1) as Hst.
  split.
  - rewrite (circuit_breaker_denied n c fb func clock reg w cb cb Hreg Ha).
    rewrite Hst. simpl. now rewrite insert_id.
  - intros f. unfold circuit_breaker, get_or_create. rewrite Hreg, Ha. simpl.
    rewrite Hst. rewrite insert_id by assumption. now destruct (f w).
Qed.

Lemma protected_calls_open_after n c (fb : A) calls : forall reg (w : W) cb,
  reg !! n = Some cb ->
  _state cb = CLOSED ->
  calls <> [] ->
  _failure_count cb + Z.of_nat (length calls) = failure_threshold (config cb) ->
  0 <= _failure_count cb ->
  Forall (fun call => always_raises (fst call)) calls ->
  let out := protected_calls n c fb calls reg w in
  (fst (fst out), snd out) = unprotected_calls calls w
  /\ Forall (fun r => exists e, r = Raise e) (fst (fst out))
  /\ exists cb', snd (fst out) !! n = Some cb' /\ _state cb' = OPEN
                 /\ config cb' = config cb.
Proof.
  induction calls as [| [func clock] rest IH]; intros reg w cb Hreg Hs Hne Hlen Hfc Hall;
    [congruence |].
  apply Forall_cons in Hall as [Hf Hrest]. simpl in Hf.
  destruct (Hf w) as (e & w' & Ef).
  cbn [protected_calls unprotected_calls].
  rewrite (circuit_breaker_allowed n c fb None func clock reg w cb cb Hreg
             (allow_request_in_closed (clock 0%nat) cb Hs)).
  rewrite Ef.
  pose proof (record_failure_closed (clock 1%nat) (clock 2%nat) (clock 3%nat) cb Hs) as E.
  simpl in E. simpl length in Hlen.
  set (cb1 := record_failure (clock 1%nat) (clock 2%nat) (clock 3%nat) cb) in *.
  set (reg1 := <[n := cb1]> reg).
  assert (Hreg1 : reg1 !! n = Some cb1) by apply lookup_insert_eq.
  destruct rest as [| call rest'].
  - simpl. split; [reflexivity |]. split; [repeat constructor; eauto |].
    exists cb1. split; [exact Hreg1 |].
    destruct (Z.leb_spec (failure_threshold (config cb)) (_failure_count cb + 1));
      [| simpl in Hlen; lia].
    rewrite E. split; reflexivity.
  - destruct (Z.leb_spec (failure_threshold (config cb)) (_failure_count cb + 1));
      [simpl in Hlen; lia |].
    destruct (IH reg1 w' cb1 Hreg1) as (IH0 & IH1 & cb' & IH2 & IH3 & IH4).
    + rewrite E. exact Hs.
    + discriminate.
    + rewrite E. simpl. simpl length in *. lia.
    + rewrite E. simpl. lia.
    + exact Hrest.
    + destruct (protected_calls n c fb (call :: rest') reg1 w') as [[rs reg2] w2].
      cbn [fst snd] in *. rewrite <- IH0.
      split; [reflexivity |]. split; [constructor; eauto |].
      exists cb'. split; [exact IH2 |]. split; [exact IH3 |].
      rewrite IH4, E. reflexivity.
Qed.

(** X5. From the first use of a name on, [failure_threshold] protected
    calls in a row whose functions raise leave the breaker of that name
    open. Until then the decorator is transparent: every call runs its
    function on the state the calls before it left, and hands on to the
    caller exactly the exception that function raised, so that results
    and final state are those of the same functions called without the
    decorator. *)
Theorem circuit_breaker_opens_after_failures (n : string)
    (c : option CircuitBreakerConfig) (fb : A)
    (calls : list ((W -> result A * W) * (nat -> Q))) reg (w : W)
    (Hnew : reg !! n = None)
    (Hthreshold : 1 <= failure_threshold (default default_config c))
    (Hlen : Z.of_nat (length calls) = failure_threshold (default default_config c))
    (Hfail : Forall (fun call => always_raises (fst call)) calls) :
  let out := protected_calls n c fb calls reg w in
  (fst (fst out), snd out) = unprotected_calls calls w
  /\ Forall (fun r => exists e, r = Raise e) (fst (fst out))
  /\ exists cb, snd (fst out) !! n = Some cb /\ _state cb = OPEN
                /\ config cb = default default_config c.
Proof.
  destruct calls as [| [func clock] rest]; [simpl in Hlen; lia |].
  set (cb := new_breaker n (default default_config c)).
  assert (E : protected_calls n c fb ((func, clock) :: rest) reg w
              = protected_calls n c fb ((func, clock) :: rest) (<[n := cb]> reg) w).
  { simpl. now rewrite (circuit_breaker_create n c fb None func clock reg w Hnew). }
  intros out. subst out. rewrite E.
  apply (protected_calls_open_after n c fb ((func, clock) :: rest)
           (<[n := cb]> reg) w cb).
  - apply lookup_insert_eq.
  - reflexivity.
  - discriminate.
  - simpl _failure_count. simpl config. lia.
  - simpl. lia.
  - exact Hfail.
Qed.

(** *** A half-open breaker without a free trial slot *)

Lemma circuit_breaker_no_slot n c (fb : A) func clock reg (w : W) cb :
  reg !! n = Some cb ->
  _state cb = HALF_OPEN ->
  half_open_max_requests (config cb) <= _half_open_requests cb ->
  circuit_breaker n c fb None func clock reg w = (Ok fb, reg, w).
Proof.
  intros Hreg Hs Hfull.
  assert (Ha : allow_request (clock 0%nat) cb = (false, cb)).
  { rewrite allow_request_half_open by assumption.
    destruct (Z.ltb_spec (_half_open_requests cb) (half_open_max_requests (config cb)));
      [lia | reflexivity]. }
  rewrite (circuit_breaker_denied n c fb func clock reg w cb cb Hreg Ha).
  rewrite state_not_open by congruence. simpl. now rewrite insert_id.
Qed.

Lemma protected_calls_no_slot n c (fb : A) calls reg (w : W) cb :
  reg !! n = Some cb ->
  _state cb = HALF_OPEN ->
  half_open_max_requests (config cb) <= _half_open_requests cb ->
  protected_calls n c fb calls reg w
  = (map (fun _ => Ok fb) calls, reg, w).
Proof.
  intros Hreg Hs Hfull. induction calls as [| [func clock] rest IH]; simpl.
  - reflexivity.
  - rewrite (circuit_breaker_no_slot n c fb func clock reg w cb Hreg Hs Hfull).
    now rewrite IH.
Qed.

(** X6. With one trial slot and a [success_threshold] above one (the
    defaults are 1 and 2), a breaker that has opened does not close
    again through the decorator. The first call after the recovery
    timeout is let through; if it succeeds, the breaker is half-open
    with one success counted and its only slot taken, and from then on
    every protected call is answered with the fallback value without
    running its function, whatever the clock says. *)
Theorem circuit_breaker_stays_half_open (n : string)
    (c : option CircuitBreakerConfig) (fb : A) func clock
    (later : list ((W -> result A * W) * (nat -> Q))) reg (w w' : W)
    (cb : CircuitBreaker) (t : Q) (r : A)
    (Hreg : reg !! n = Some cb)
    (Hopen : _state cb = OPEN)
    (Hlast : _last_failure_time cb = Some t)
    (Hnz : ~ (t == 0)%Q)
    (Helapsed : (recovery_timeout (config cb) <= clock 0%nat - t)%Q)
    (Hslots : half_open_max_requests (config cb) = 1)
    (Hsuccesses : _success_count cb + 1 < success_threshold (config cb))
    (Hok : func w = (Ok r, w')) :
  exists cb',
    protected_calls n c fb ((func, clock) :: later) reg w
    = (Ok r :: map (fun _ => Ok fb) later, <[n := cb']> reg, w')
    /\ _state cb' = HALF_OPEN
    /\ _success_count cb' = _success_count cb + 1
    /\ _half_open_requests cb' = 1.
Proof.
  set (half := set_half_open_requests 0 (set_state HALF_OPEN cb)).
  set (cb1 := set_half_open_requests 1 half).
  assert (Ha : allow_request (clock 0%nat) cb = (true, cb1)).
  { pose proof (allow_request_open_elapsed (clock 0%nat) cb t
                  Hopen Hlast Hnz Helapsed) as H.
    simpl in H. rewrite Hslots in H. exact H. }
  assert (Hs1 : _state cb1 = HALF_OPEN) by reflexivity.
  pose proof (record_success_half_open (clock 1%nat) (clock 2%nat) cb1 Hs1) as E.
  simpl in E.
  destruct (Z.leb_spec (success_threshold (config cb)) (_success_count cb + 1));
    [lia |].
  set (cb' := record_success (clock 1%nat) (clock 2%nat) cb1) in *.
  exists cb'. simpl protected_calls.
  rewrite (circuit_breaker_allowed n c fb None func clock reg w cb cb1 Hreg Ha).
  rewrite Hok. fold cb'.
  assert (Hreg' : <[n := cb']> reg !! n = Some cb') by apply lookup_insert_eq.
  rewrite (protected_calls_no_slot n c fb later (<[n := cb']> reg) w' cb' Hreg').
  - rewrite E. repeat split; reflexivity.
  - rewrite E. reflexivity.
  - rewrite E. simpl. lia.
Qed.

End Decorator.

(** An open breaker, five seconds after the last failure: the gateway is
    not called. *)
Lemma circuit_breaker_open_fails_fast_witness :
  let o := set_last_failure_time (Some 1000%Q)
             (set_state OPEN (new_breaker "payments" default_config)) in
  let up : nat -> result (option string) * nat :=
    fun calls => (Ok (Some "paid"), S calls) in
  circuit_breaker "payments" None None None up (fun _ => 1005%Q)
    {["payments" := o]} 0%nat
  = (Ok None, {["payments" := o]}, 0%nat).
Proof.
  intros o up.
  exact (proj1 (circuit_breaker_open_fails_fast "payments" None None up
                  (fun _ => 1005%Q) {["payments" := o]} 0%nat o 1000%Q
                  (lookup_singleton_eq _ _) eq_refl eq_refl eq_refl eq_refl)).
Defined.

(** A payment gateway that fails three times, each time with the number
    of the attempt in its message, with a breaker that opens at three
    failures. *)
Lemma circuit_breaker_opens_after_failures_witness :
  let cfg := {| failure_threshold := 3; recovery_timeout := 10;
                success_threshold := 2; half_open_max_requests := 1 |} in
  let down : nat -> result unit * nat :=
    fun attempts => (Raise (Exception ("timeout " +:+ pretty attempts)), S attempts) in
  let noon : nat -> Q := fun _ => 1000%Q in
  let out := protected_calls "payments" (Some cfg) tt
               [(down, noon); (down, noon); (down, noon)] ∅ 0%nat in
  fst (fst out) = [Raise (Exception "timeout 0"); Raise (Exception "timeout 1");
                   Raise (Exception "timeout 2")]
  /\ snd out = 3%nat
  /\ exists cb, snd (fst out) !! "payments" = Some cb /\ _state cb = OPEN.
Proof.
  intros cfg down noon out.
  assert (H1 : 1 <= 3) by lia.
  assert (Hd : always_raises down) by (intros w; eexists _, _; reflexivity).
  assert (Hall : Forall (fun call : (nat -> result unit * nat) * (nat -> Q) =>
                           always_raises (fst call))
                        [(down, noon); (down, noon); (down, noon)])
    by (repeat constructor; exact Hd).
  destruct (circuit_breaker_opens_after_failures "payments" (Some cfg) tt
              [(down, noon); (down, noon); (down, noon)] ∅ 0%nat
              (lookup_empty _) H1 eq_refl Hall)
    as (Hrun & _ & cb & Hcb & Hs & _).
  fold out in Hrun, Hcb.
  split; [exact (f_equal fst Hrun) |]. split; [exact (f_equal snd Hrun) |].
  exists cb. split; assumption.
Defined.

(** The open breaker of the example, eleven seconds later: the probe
    succeeds, and the two calls after it are refused although the
    gateway is up again. *)
Lemma circuit_breaker_stays_half_open_witness :
  let cfg := {| failure_threshold := 3; recovery_timeout := 10;
                success_threshold := 2; half_open_max_requests := 1 |} in
  let o := set_last_failure_time (Some 1000%Q)
             (set_state OPEN (new_breaker "payments" cfg)) in
  let up : nat -> result (option string) * nat :=
    fun calls => (Ok (Some "paid"), S calls) in
  let later : nat -> Q := fun _ => 1011%Q in
  let out := protected_calls "payments" (Some cfg) None
               [(up, later); (up, later); (up, later)] {["payments" := o]} 0%nat in
  fst (fst out) = [Ok (Some "paid"); Ok None; Ok None] /\ snd out = 1%nat.
Proof.
  intros cfg o up later.
  assert (Hs : 0 + 1 < 2) by lia.
  destruct (circuit_breaker_stays_half_open "payments" (Some cfg) None up later
              [(up, later); (up, later)] {["payments" := o]} 0%nat 1%nat
              o 1000%Q (Some "paid")
              (lookup_singleton_eq _ _) eq_refl eq_refl
              ltac:(intros E; discriminate E) ltac:(intros E; discriminate E)
              eq_refl Hs eq_refl)
    as (cb' & E & _).
  rewrite E. split; reflexivity.
Defined.

End ResilienceMore.

(** ** Rate limiter: further properties *)

Module RateLimitMore.
Import Redis Cache RateLimit RateLimitFacts.

Lemma append_inv_head (s a b : string) : s +:+ a = s +:+ b -> a = b.
Proof.
  induction s as [| c s IH]; simpl; intros H; [exact H |].
  injection H as H. now apply IH.
Qed.

(** *** Fixed window, through a [SimplePipeline] *)

Lemma fixed_window_calls_simple redis key lim win db (k : nat) :
  has_pipeline redis = false ->
  0 < win ->
  db !! _get_key redis key = None ->
  fixed_window_calls (S k) redis key lim win db
  = (Some (Ok (if Z.ltb lim (Z.of_nat (S k))
               then (false, 0, win)
               else (true, lim - Z.of_nat (S k), 0))),
     <[_get_key redis key :=
         {| ent_value := RInt (Z.of_nat (S k)); ent_ttl := Some win |}]> db).
Proof.
  intros Hp Hwin Hnone.
  assert (Hw : Z.ltb 0 win = true) by (apply Z.ltb_lt; exact Hwin).
  induction k as [| k IH].
  - simpl fixed_window_calls.
    assert (Hincr : Redis.incr (_get_key redis key) db
                    = (Ok 1, <[_get_key redis key :=
                                 {| ent_value := RInt 1; ent_ttl := None |}]> db))
      by (unfold Redis.incr; now rewrite Hnone).
    rewrite (fixed_window_simple_pipeline redis key lim win db _ _ Hp Hincr).
    change (Z.eqb 1 1) with true. cbv iota.
    unfold Redis.expire. rewrite lookup_insert_eq, Hw. cbn [snd ent_value].
    rewrite insert_insert_eq. unfold fixed_window_outcome, Redis.ttl.
    rewrite lookup_insert_eq. cbn [ent_ttl]. rewrite Hw. reflexivity.
  - change (fixed_window_calls (S (S k)) redis key lim win db)
      with (let '(_, db1) := fixed_window_calls (S k) redis key lim win db in
            let '(r, db2) := RateLimiters.fixed_window redis key lim win db1 in
            (Some r, db2)).
    rewrite IH.
    set (db1 := <[_get_key redis key :=
                    {| ent_value := RInt (Z.of_nat (S k)); ent_ttl := Some win |}]> db).
    assert (Hincr : Redis.incr (_get_key redis key) db1
                    = (Ok (Z.of_nat (S k) + 1),
                       <[_get_key redis key :=
                           {| ent_value := RInt (Z.of_nat (S k) + 1);
                              ent_ttl := Some win |}]> db1)).
    { unfold Redis.incr, db1. now rewrite lookup_insert_eq. }
    rewrite (fixed_window_simple_pipeline redis key lim win db1 _ _ Hp Hincr).
    destruct (Z.eqb_spec (Z.of_nat (S k) + 1) 1) as [E | _]; [lia |].
    unfold db1. rewrite insert_insert_eq.
    unfold fixed_window_outcome, Redis.ttl. rewrite lookup_insert_eq.
    cbn [ent_ttl]. cbv iota beta. rewrite Hw. replace (Z.of_nat (S k) + 1) with (Z.of_nat (S (S k))) by lia.
    reflexivity.
Qed.

(** X7. Through a [SimplePipeline], with a positive window and no counter in
    the store yet, and no time passing between the calls: call number
    [k] (from 1) is let through with [remaining = limit - k] as long as
    [k <= limit], and is refused with [remaining = 0] and
    [retry_after = window] from then on; the counter holds [k] and
    expires [window] seconds after the first call. *)
Theorem fixed_window_counts_calls (redis : CacheClient) (key : string)
    (lim win : Z) (db : store) (k : nat)
    (Hsimple : has_pipeline redis = false)
    (Hwin : 0 < win)
    (Hfresh : db !! _get_key redis key = None)
    (Hk : (1 <= k)%nat) :
  let out := fixed_window_calls k redis key lim win db in
  fst out = Some (Ok (if Z.ltb lim (Z.of_nat k)
                      then (false, 0, win)
                      else (true, lim - Z.of_nat k, 0)))
  /\ Redis.get (_get_key redis key) (snd out) = Some (RInt (Z.of_nat k))
  /\ Redis.ttl (_get_key redis key) (snd out) = win.
Proof.
  destruct k as [| k]; [lia |].
  intros out. subst out.
  rewrite (fixed_window_calls_simple redis key lim win db k Hsimple Hwin Hfresh).
  cbn [fst snd]. unfold Redis.get, Redis.ttl. rewrite lookup_insert_eq.
  repeat split.
Qed.

Lemma fixed_window_counts_calls_witness :
  let redis := {| prefix := "ratelimit:"; has_pipeline := false |} in
  fst (fixed_window_calls 5 redis "c1" 5 60 ∅) = Some (Ok (true, 0, 0))
  /\ fst (fixed_window_calls 6 redis "c1" 5 60 ∅) = Some (Ok (false, 0, 60)).
Proof.
  intros redis.
  assert (Hw : 0 < 60) by lia.
  split.
  - exact (proj1 (fixed_window_counts_calls redis "c1" 5 60 ∅ 5
                    eq_refl Hw (lookup_empty _) ltac:(lia))).
  - exact (proj1 (fixed_window_counts_calls redis "c1" 5 60 ∅ 6
                    eq_refl Hw (lookup_empty _) ltac:(lia))).
Defined.




(** *** Sliding window: when it divides by zero *)

Lemma sliding_window_divides redis key lim win buckets now :
  buckets <> 0 -> win / buckets <> 0 ->
  no_zero_division
    (RateLimiters.sliding_window redis key lim win buckets now).
Proof.
  intros Hb Hs.
  unfold RateLimiters.sliding_window, py_floordiv.
  destruct (Z.eqb_spec buckets 0) as [E | _]; [contradiction |].
  intros db. unfold mbind at 1, M_bind at 1, lift at 1.
  destruct (Z.eqb_spec (win / buckets) 0) as [E | _]; [contradiction |].
  unfold mbind at 1, M_bind at 1, lift at 1.
  revert db.
  change (no_zero_division ?m) with (forall db, fst (m db) <> Raise ZeroDivisionError).
  apply nzd_bind.
  - apply nzd_try_except. intros _.
    apply nzd_bind; [apply nzd_incr |]. intros _.
    apply nzd_bind; [apply nzd_expire |]. intros _. apply nzd_ret.
  - intros _. apply nzd_bind.
    + apply nzd_mapM. intros k.
      apply nzd_bind; [apply nzd_get |]. intros [c |].
      * apply nzd_lift, nzd_py_int.
      * apply nzd_ret.
    + intros counts db. destruct (Z.ltb _ _); discriminate.
Qed.

(** X9. The sliding-window limiter raises [ZeroDivisionError] exactly when
    [bucket_count] is 0 or the floor of [window / bucket_count] is 0,
    for every client, key, limit, clock value and store; when it does,
    the store has not been touched. *)
Theorem sliding_window_zero_division_iff (redis : CacheClient) (key : string)
    (lim win buckets : Z) (now : Q) (db : store) :
  (fst (RateLimiters.sliding_window redis key lim win buckets now db)
   = Raise ZeroDivisionError
   <-> buckets = 0 \/ win / buckets = 0)
  /\ (buckets = 0 \/ win / buckets = 0 ->
      RateLimiters.sliding_window redis key lim win buckets now db
      = (Raise ZeroDivisionError, db)).
Proof.
  assert (Hraise : buckets = 0 \/ win / buckets = 0 ->
                   RateLimiters.sliding_window redis key lim win buckets now db
                   = (Raise ZeroDivisionError, db)).
  { intros H. unfold RateLimiters.sliding_window, py_floordiv.
    destruct (Z.eqb_spec buckets 0) as [E | Hne]; [reflexivity |].
    destruct H as [H | H]; [contradiction |].
    unfold mbind at 1, M_bind at 1, lift at 1. rewrite H. reflexivity. }
  split; [| exact Hraise]. split.
  - intros H.
    destruct (Z.eq_dec buckets 0) as [| Hb]; [now left |].
    destruct (Z.eq_dec (win / buckets) 0) as [| Hs]; [now right |].
    exfalso. exact (sliding_window_divides redis key lim win buckets now Hb Hs db H).
  - intros H. now rewrite (Hraise H).
Qed.

Lemma sliding_window_zero_division_iff_witness :
  let redis := {| prefix := "ratelimit:"; has_pipeline := true |} in
  RateLimiters.sliding_window redis "c1" 100 5 6 1700000000 ∅
  = (Raise ZeroDivisionError, ∅).
Proof.
  intros redis.
  exact (proj2 (sliding_window_zero_division_iff redis "c1" 100 5 6 1700000000 ∅)
           (or_intror eq_refl)).
Defined.

(** *** Token bucket *)

Lemma py_min_below (lim : Z) (x : Q) :
  lim <= 0 -> (num_value (py_min lim x) < 1)%Q.
Proof.
  intros H. rewrite py_min_value.
  apply Qle_lt_trans with (inject_Z lim); [apply Q.le_min_l |].
  unfold Qlt. simpl. lia.
Qed.

(** X11. The token bucket does not refuse with a limit of zero, and does not
    work with a window of zero: when the stored values can be read as
    floats, a call with [window = 0] or with [limit = 0] raises
    [ZeroDivisionError] and leaves the store as it was. *)
Theorem token_bucket_zero_division (redis : CacheClient) (key : string)
    (lim win : Z) (now : Q) (db : store) (tokens_value timestamp_value : Q)
    (Htokens : py_float (default (RInt lim)
                 (Redis.get (_get_key redis (key +:+ ":tokens")) db))
               = Ok tokens_value)
    (Htimestamp : py_float (default (RFloat now)
                    (Redis.get (_get_key redis (key +:+ ":timestamp")) db))
                  = Ok timestamp_value)
    (Hzero : win = 0 \/ lim = 0) :
  RateLimiters.token_bucket redis key lim win now db
  = (Raise ZeroDivisionError, db).
Proof.
  unfold RateLimiters.token_bucket, get, mbind, M_bind, lift.
  rewrite Htokens, Htimestamp.
  destruct (Z.eq_dec win 0) as [-> | Hw]; [reflexivity |].
  destruct Hzero as [| ->]; [contradiction |].
  assert (Hnz : ~ (inject_Z win == 0)%Q).
  { unfold Qeq. simpl. lia. }
  rewrite (py_truediv_nonzero _ _ Hnz).
  pose proof (py_min_below 0 (tokens_value + (now - timestamp_value)
                                * (inject_Z 0 / inject_Z win))%Q (Z.le_refl 0)) as Hlt.
  apply Qlt_bool_iff in Hlt. rewrite Hlt.
  unfold py_truediv.
  assert (E : Qeq_bool (inject_Z 0 / inject_Z win) 0 = true).
  { apply Qeq_bool_iff. unfold Qdiv. apply Qmult_0_l. }
  rewrite E. reflexivity.
Qed.

Lemma token_bucket_zero_division_witness :
  let redis := {| prefix := "ratelimit:"; has_pipeline := true |} in
  RateLimiters.token_bucket redis "c1" 0 60 1000 ∅ = (Raise ZeroDivisionError, ∅)
  /\ RateLimiters.token_bucket redis "c1" 10 0 1000 ∅ = (Raise ZeroDivisionError, ∅).
Proof.
  intros redis. split.
  - exact (token_bucket_zero_division redis "c1" 0 60 1000 ∅ 0 1000
             eq_refl eq_refl (or_intror eq_refl)).
  - exact (token_bucket_zero_division redis "c1" 10 0 1000 ∅ 10 1000
             eq_refl eq_refl (or_introl eq_refl)).
Defined.

(** *** Sliding window: what is counted *)

Lemma bucket_name_inj redis key i j :
  _get_key redis (bucket_name key i) = _get_key redis (bucket_name key j) -> i = j.
Proof.
  unfold _get_key, bucket_name. intros E.
  do 2 apply append_inv_head in E. simpl in E. injection E as E.
  exact (pretty_Z_inj _ _ E).
Qed.

Lemma py_range_snoc a c : a <= c -> py_range a (c + 1) = py_range a c ++ [c].
Proof.
  intros H. unfold py_range.
  replace (Z.to_nat (c + 1 - a)) with (S (Z.to_nat (c - a))) by lia.
  rewrite seq_S, map_app. simpl. do 2 f_equal. lia.
Qed.

Lemma py_range_lt a c i : In i (py_range a c) -> a <= i < c.
Proof.
  unfold py_range. rewrite in_map_iff. intros (j & <- & Hj).
  apply in_seq in Hj. lia.
Qed.

Lemma py_sum_app l1 l2 : py_sum (l1 ++ l2) = py_sum l1 + py_sum l2.
Proof. induction l1 as [| x l IH]; simpl; [reflexivity | rewrite IH; lia]. Qed.

Lemma read_buckets redis key (db : store) (l : list Z) :
  (forall i, In i l -> is_count (Redis.get (_get_key redis (bucket_name key i)) db)) ->
  mapM_ (fun bucket_key =>
           count ← get redis bucket_key;
           match count with
           | Some c => lift (py_int c)
           | None => mret 0
           end) (map (bucket_name key) l) db
  = (Ok (map (fun i => stored_count redis db (bucket_name key i)) l), db).
Proof.
  set (f := fun bucket_key : string => _).
  induction l as [| i l IH]; intros H; [reflexivity |].
  assert (Ef : f (bucket_name key i) db
               = (Ok (stored_count redis db (bucket_name key i)), db)).
  { subst f. unfold mbind, M_bind, get, stored_count. cbv beta.
    destruct (H i (or_introl eq_refl)) as [E | [n E]]; rewrite E; reflexivity. }
  cbn [map mapM_]. unfold mbind at 1, M_bind at 1. rewrite Ef.
  unfold mbind at 1, M_bind at 1.
  rewrite IH by (intros j Hj; apply H; now right). reflexivity.
Qed.

Lemma sliding_window_increment redis key win current (db : store) :
  has_pipeline redis = false -> 0 < win ->
  is_count (Redis.get (_get_key redis (bucket_name key current)) db) ->
  try_except
    (pipe ← pipeline redis;
     let pipe := pipe_incr (bucket_name key current) pipe in
     let pipe := pipe_expire (bucket_name key current) win pipe in
     _ ← pipe_execute pipe;
     mret tt)
    (fun _ =>
     _ ← incr redis (bucket_name key current);
     _ ← expire redis (bucket_name key current) win;
     mret tt) db
  = (Ok tt,
     <[_get_key redis (bucket_name key current) :=
         {| ent_value := RInt (stored_count redis db (bucket_name key current) + 1);
            ent_ttl := Some win |}]> db).
Proof.
  intros Hp Hwin Hc.
  assert (Hw : Z.ltb 0 win = true) by (apply Z.ltb_lt; exact Hwin).
  set (pk := _get_key redis (bucket_name key current)) in *.
  assert (Hincr : exists ttl0,
            Redis.incr pk db
            = (Ok (stored_count redis db (bucket_name key current) + 1),
               <[pk := {| ent_value := RInt (stored_count redis db (bucket_name key current) + 1);
                          ent_ttl := ttl0 |}]> db)).
  { unfold Redis.incr, stored_count. fold pk. unfold Redis.get in *.
    destruct Hc as [E | [n E]].
    - destruct (db !! pk) as [e |]; [discriminate E |]. now exists None.
    - destruct (db !! pk) as [[v t] |]; [| discriminate E].
      simpl in E. injection E as ->. simpl. now exists t. }
  destruct Hincr as [ttl0 Hincr].
  unfold try_except, pipeline. rewrite Hp.
  unfold mbind, M_bind, mret, M_ret, pipe_incr, pipe_expire, pipe_execute,
    SimplePipeline.execute, SimplePipeline.incr, SimplePipeline.expire.
  cbn [SimplePipeline.commands SimplePipeline.sp_prefix app SimplePipeline.execute_loop].
  unfold mbind, M_bind, mret, M_ret, run_command.
  change (SimplePipeline._get_key _ (bucket_name key current)) with pk.
  rewrite Hincr. unfold Redis.expire. rewrite lookup_insert_eq, Hw.
  cbn [ent_value]. now rewrite insert_insert_eq.
Qed.

(** X10. Through a [SimplePipeline], with [0 < bucket_count <= window] and
    sub-bucket keys that hold integers or are missing: the call adds one
    to the sub-bucket of the current time, [floor(timestamp /
    bucket_size)], gives it an expiry of [window] seconds, and counts
    the requests of the last [bucket_count] sub-buckets, this one
    included. It is refused, with [remaining = 0] and
    [retry_after = bucket_size], exactly when that total exceeds the
    limit; otherwise [remaining = limit - total]. *)
Theorem sliding_window_sums_buckets (redis : CacheClient) (key : string)
    (lim win buckets : Z) (now : Q) (db : store)
    (Hsimple : has_pipeline redis = false)
    (Hbuckets : 0 < buckets <= win) :
  let bucket_size := win / buckets in
  let current := py_int_of_float now / bucket_size in
  let first := current - buckets + 1 in
  (forall i, first <= i <= current ->
     is_count (Redis.get (_get_key redis (bucket_name key i)) db)) ->
  let total :=
    1 + py_sum (map (fun i => stored_count redis db (bucket_name key i))
                    (py_range first (current + 1))) in
  let out := RateLimiters.sliding_window redis key lim win buckets now db in
  fst out = Ok (if Z.ltb lim total
                then (false, 0, bucket_size)
                else (true, lim - total, 0))
  /\ snd out = <[_get_key redis (bucket_name key current) :=
                   {| ent_value := RInt (stored_count redis db (bucket_name key current) + 1);
                      ent_ttl := Some win |}]> db.
Proof.
  intros bucket_size current first Hcounts total out.
  assert (Hwin : 0 < win) by lia.
  assert (Hsize : 0 < bucket_size) by (apply Z.div_str_pos; lia).
  assert (E1 : py_floordiv win buckets = Ok bucket_size).
  { unfold py_floordiv. destruct (Z.eqb_spec buckets 0); [lia | reflexivity]. }
  assert (E2 : py_floordiv (py_int_of_float now) bucket_size = Ok current).
  { unfold py_floordiv. destruct (Z.eqb_spec bucket_size 0); [lia | reflexivity]. }
  set (pk := _get_key redis (bucket_name key current)).
  set (n := stored_count redis db (bucket_name key current)).
  set (db1 := <[pk := {| ent_value := RInt (n + 1); ent_ttl := Some win |}]> db).
  assert (Hsame : forall i, i <> current ->
            Redis.get (_get_key redis (bucket_name key i)) db1
            = Redis.get (_get_key redis (bucket_name key i)) db).
  { intros i Hi. unfold Redis.get, db1. rewrite lookup_insert_ne; [reflexivity |].
    intros E. apply Hi. symmetry. exact (bucket_name_inj redis key _ _ E). }
  assert (Hcur : Redis.get pk db1 = Some (RInt (n + 1))).
  { unfold Redis.get, db1. now rewrite lookup_insert_eq. }
  assert (Hcounts1 : forall i, In i (py_range first (current + 1)) ->
            is_count (Redis.get (_get_key redis (bucket_name key i)) db1)).
  { intros i Hi. apply py_range_lt in Hi.
    destruct (Z.eq_dec i current) as [-> | Hne].
    - right. exists (n + 1). exact Hcur.
    - rewrite Hsame by exact Hne. apply Hcounts. lia. }
  assert (Hsum : py_sum (map (fun i => stored_count redis db1 (bucket_name key i))
                             (py_range first (current + 1)))
                 = total).
  { subst total. rewrite py_range_snoc by lia.
    rewrite !map_app, !py_sum_app. cbn [map py_sum].
    assert (Hl : map (fun i => stored_count redis db1 (bucket_name key i))
                     (py_range first current)
                 = map (fun i => stored_count redis db (bucket_name key i))
                       (py_range first current)).
    { apply map_ext_in. intros i Hi. apply py_range_lt in Hi.
      unfold stored_count. rewrite Hsame by lia. reflexivity. }
    rewrite Hl. unfold stored_count at 2. fold pk. rewrite Hcur. fold n. cbn [py_sum fold_right]. lia. }
  assert (Hout : out = (Ok (if Z.ltb lim total
                            then (false, 0, bucket_size)
                            else (true, lim - total, 0)), db1)).
  { subst out. unfold RateLimiters.sliding_window. rewrite E1.
    unfold mbind at 1, M_bind at 1, lift at 1. rewrite E2.
    unfold mbind at 1, M_bind at 1, lift at 1.
    unfold mbind at 1, M_bind at 1.
    change (py_int_of_float now / bucket_size) with current.
    change (key +:+ ":" +:+ pretty current) with (bucket_name key current).
    pose proof (sliding_window_increment redis key win current db Hsimple Hwin
                  (Hcounts current ltac:(lia))) as Hinc.
    cbv zeta in Hinc. rewrite Hinc. clear Hinc.
    fold n pk db1.
    unfold mbind at 1, M_bind at 1.
    change (map (fun i : Z => key +:+ ":" +:+ pretty i))
      with (map (bucket_name key)).
    fold first.
    rewrite (read_buckets redis key db1 _ Hcounts1).
    rewrite Hsum. now destruct (Z.ltb lim total). }
  rewrite Hout. split; reflexivity.
Qed.

Lemma sliding_window_sums_buckets_witness :
  let redis := {| prefix := "ratelimit:"; has_pipeline := false |} in
  fst (RateLimiters.sliding_window redis "c1" 5 60 6 1000 ∅) = Ok (true, 4, 0).
Proof.
  intros redis.
  refine (proj1 (sliding_window_sums_buckets redis "c1" 5 60 6 1000 ∅
                   eq_refl ltac:(lia) _)).
  intros i _. left. unfold Redis.get. now rewrite lookup_empty.
Defined.

(** *** Sliding window, through the driver's pipeline *)

Lemma sliding_window_native_increment redis key win current (db : store) :
  has_pipeline redis = true -> 0 < win ->
  is_count (Redis.get (bucket_name key current) db) ->
  exists n,
    try_except
      (pipe ← pipeline redis;
       let pipe := pipe_incr (bucket_name key current) pipe in
       let pipe := pipe_expire (bucket_name key current) win pipe in
       _ ← pipe_execute pipe;
       mret tt)
      (fun _ =>
       _ ← incr redis (bucket_name key current);
       _ ← expire redis (bucket_name key current) win;
       mret tt) db
    = (Ok tt,
       <[bucket_name key current :=
           {| ent_value := RInt n; ent_ttl := Some win |}]> db).
Proof.
  intros Hp Hwin Hc.
  assert (Hw : Z.ltb 0 win = true) by (apply Z.ltb_lt; exact Hwin).
  set (rk := bucket_name key current) in *.
  assert (Hincr : exists n ttl0,
            Redis.incr rk db
            = (Ok n, <[rk := {| ent_value := RInt n; ent_ttl := ttl0 |}]> db)).
  { unfold Redis.incr. unfold Redis.get in Hc.
    destruct Hc as [E | [n E]].
    - destruct (db !! rk) as [e |]; [discriminate E |]. now exists 1, None.
    - destruct (db !! rk) as [[v t] |]; [| discriminate E].
      simpl in E. injection E as ->. simpl. now exists (n + 1), t. }
  destruct Hincr as (n & ttl0 & Hincr). exists n.
  unfold try_except, pipeline. rewrite Hp.
  unfold mbind, M_bind, mret, M_ret, pipe_incr, pipe_expire, pipe_execute,
    pipeline_execute.
  cbn [app run_transaction]. unfold run_command at 1. rewrite Hincr.
  unfold run_command, Redis.expire. rewrite lookup_insert_eq, Hw.
  cbn [ent_value collect]. now rewrite insert_insert_eq.
Qed.

Lemma read_absent_buckets redis key (db : store) (l : list Z) :
  (forall k, String.prefix (prefix redis) k = true -> db !! k = None) ->
  mapM_ (fun bucket_key =>
           count ← get redis bucket_key;
           match count with
           | Some c => lift (py_int c)
           | None => mret 0
           end) (map (bucket_name key) l) db
  = (Ok (map (fun _ => 0) l), db).
Proof.
  intros Hempty. rewrite read_buckets.
  - f_equal. f_equal. apply map_ext. intros i. unfold stored_count, Redis.get.
    rewrite Hempty; [reflexivity |]. apply prefix_spec. now eexists.
  - intros i _. left. unfold Redis.get.
    rewrite Hempty; [reflexivity |]. apply prefix_spec. now eexists.
Qed.

Lemma py_sum_zeros {A : Type} (l : list A) : py_sum (map (fun _ => 0) l) = 0.
Proof. induction l as [| x l IH]; simpl; [reflexivity | exact IH]. Qed.

(** X22. Through the driver's own pipeline the sliding-window limiter
    does not limit. The request is counted under the key as the limiter
    wrote it, and the sub-buckets are read under the prefixed keys: in a
    store that holds nothing under the prefix of the client, a call with
    [0 < bucket_count <= window] and a limit that is not negative is let
    through with [remaining = limit], and the store still holds nothing
    under the prefix afterwards, so the next call finds the same. *)
Theorem sliding_window_native_pipeline_never_refuses (redis : CacheClient)
    (key : string) (lim win buckets : Z) (now : Q) (db : store)
    (Hnative : has_pipeline redis = true)
    (Hbuckets : 0 < buckets <= win)
    (Hlim : 0 <= lim)
    (Hempty : forall k, String.prefix (prefix redis) k = true -> db !! k = None) :
  let current := py_int_of_float now / (win / buckets) in
  String.prefix (prefix redis) (bucket_name key current) = false ->
  is_count (Redis.get (bucket_name key current) db) ->
  let out := RateLimiters.sliding_window redis key lim win buckets now db in
  fst out = Ok (true, lim, 0)
  /\ (forall k, String.prefix (prefix redis) k = true -> snd out !! k = None)
  /\ exists n, Redis.get (bucket_name key current) (snd out) = Some (RInt n)
               /\ Redis.ttl (bucket_name key current) (snd out) = win.
Proof.
  intros current Hraw Hcount out.
  assert (Hwin : 0 < win) by lia.
  assert (Hsize : 0 < win / buckets) by (apply Z.div_str_pos; lia).
  assert (E1 : py_floordiv win buckets = Ok (win / buckets)).
  { unfold py_floordiv. destruct (Z.eqb_spec buckets 0); [lia | reflexivity]. }
  assert (E2 : py_floordiv (py_int_of_float now) (win / buckets) = Ok current).
  { unfold py_floordiv. destruct (Z.eqb_spec (win / buckets) 0); [lia | reflexivity]. }
  destruct (sliding_window_native_increment redis key win current db
              Hnative Hwin Hcount) as [n Hinc].
  set (db1 := <[bucket_name key current :=
                  {| ent_value := RInt n; ent_ttl := Some win |}]> db) in *.
  assert (Hempty1 : forall k, String.prefix (prefix redis) k = true -> db1 !! k = None).
  { intros k Hk. unfold db1. rewrite lookup_insert_ne; [now apply Hempty |].
    intros E. rewrite <- E in Hk. congruence. }
  assert (Hout : out = (Ok (true, lim, 0), db1)).
  { subst out. unfold RateLimiters.sliding_window. rewrite E1.
    unfold mbind at 1, M_bind at 1, lift at 1. rewrite E2.
    unfold mbind at 1, M_bind at 1, lift at 1.
    unfold mbind at 1, M_bind at 1.
    change (py_int_of_float now / (win / buckets)) with current.
    change (key +:+ ":" +:+ pretty current) with (bucket_name key current).
    cbv zeta in Hinc. rewrite Hinc.
    unfold mbind at 1, M_bind at 1.
    change (map (fun i : Z => key +:+ ":" +:+ pretty i))
      with (map (bucket_name key)).
    rewrite (read_absent_buckets redis key db1 _ Hempty1).
    rewrite py_sum_zeros.
    destruct (Z.ltb_spec lim 0); [lia |].
    now rewrite Z.sub_0_r. }
  rewrite Hout. cbn [fst snd]. split; [reflexivity |]. split; [exact Hempty1 |].
  exists n. unfold Redis.get, Redis.ttl, db1. rewrite lookup_insert_eq.
  split; reflexivity.
Qed.

Lemma sliding_window_native_pipeline_never_refuses_witness :
  let redis := {| prefix := "ratelimit:"; has_pipeline := true |} in
  fst (RateLimiters.sliding_window redis "c1" 5 60 6 1000 ∅) = Ok (true, 5, 0).
Proof.
  intros redis.
  refine (proj1 (sliding_window_native_pipeline_never_refuses redis "c1" 5 60 6 1000 ∅
                   eq_refl ltac:(lia) ltac:(lia) (fun k _ => lookup_empty k)
                   eq_refl _)).
  left. unfold Redis.get. now rewrite lookup_empty.
Defined.

(** *** Token bucket, through the driver's pipeline *)




(** *** Requests that are not limited *)

(** X13. A request is exempt from rate limiting exactly when its path starts
    with one of the excluded paths, whatever the method and the other
    settings are: the match is by prefix, so every path that extends an
    excluded one is exempt too. *)
Theorem dispatch_config_exempt_iff (self : RateLimitMiddleware)
    (path method : string) :
  dispatch_config self path method = None
  <-> exists excluded rest,
        In excluded (excluded_paths self) /\ path = excluded +:+ rest.
Proof.
  unfold dispatch_config.
  destruct (existsb (fun excluded => String.prefix excluded path)
                    (excluded_paths self)) eqn:E.
  - split; [intros _ | reflexivity].
    apply existsb_exists in E as (excluded & Hin & Hp).
    apply prefix_spec in Hp as [rest Hrest]. now exists excluded, rest.
  - split; [discriminate |]. intros (excluded & rest & Hin & Hrest).
    exfalso.
    assert (Ht : existsb (fun excluded => String.prefix excluded path)
                         (excluded_paths self) = true).
    { apply existsb_exists. exists excluded. split; [exact Hin |].
      apply prefix_spec. now exists rest. }
    congruence.
Qed.

Lemma dispatch_config_exempt_iff_witness :
  dispatch_config example_middleware "/healthcheck/db" "POST" = None.
Proof.
  apply (proj2 (dispatch_config_exempt_iff example_middleware "/healthcheck/db" "POST")).
  exists "/health", "check/db". split; [now left | reflexivity].
Defined.

End RateLimitMore.

(** ** Message bus: further properties *)

Module MessagingMore.
Import Messaging.

(** X15. A response that arrives on the callback queue with
    correlation id [c]. If a future is pending under [c], it is taken
    out of the table, and the other futures and results stay as they
    are; when the body can be decoded the future is resolved with it, so
    that the caller of [send_query] gets the body's [data]; when it
    cannot, the future is left without a result. Either way every later
    delivery under [c] is dropped: a duplicate changes nothing, and
    after a body that could not be decoded the caller is not answered by
    a well-formed response either. If no future is pending under [c] the
    response is dropped. *)
Theorem process_response_resolves_once (self : RabbitMQConnection)
    (incoming : IncomingMessage) (c : string)
    (Hc : incoming_correlation_id incoming = Some c) :
  (c ∈ futures self ->
   let self' := _process_response self incoming in
   futures self' = futures self ∖ {[c]}
   /\ (forall body_, decoded incoming = Ok body_ ->
         send_query_result self' c = Some (dict_get body_ "data"))
   /\ (forall e, decoded incoming = Raise e -> resolved self' = resolved self)
   /\ (forall c', c' <> c -> resolved self' !! c' = resolved self !! c')
   /\ (forall later, incoming_correlation_id later = Some c ->
         _process_response self' later = self'))
  /\ (c ∉ futures self -> _process_response self incoming = self).
Proof.
  split.
  - intros Hin self'.
    assert (Hf : futures self' = futures self ∖ {[c]}).
    { subst self'. unfold _process_response. rewrite Hc.
      destruct (decide (c ∈ futures self)) as [_ | Hn]; [| contradiction].
      now destruct (decoded incoming). }
    split; [exact Hf |]. split; [| split; [| split]].
    + intros body_ Hb. subst self'. unfold _process_response. rewrite Hc, Hb.
      destruct (decide (c ∈ futures self)) as [_ | Hn]; [| contradiction].
      unfold send_query_result, set_futures. cbn [resolved].
      rewrite (lookup_insert_eq (resolved self) c body_). reflexivity.
    + intros e He. subst self'. unfold _process_response. rewrite Hc, He.
      destruct (decide (c ∈ futures self)) as [_ | Hn]; [| contradiction].
      reflexivity.
    + intros c' Hne. subst self'. unfold _process_response. rewrite Hc.
      destruct (decide (c ∈ futures self)) as [_ | Hn]; [| contradiction].
      destruct (decoded incoming); cbn [resolved set_futures]; [| reflexivity].
      now rewrite lookup_insert_ne by congruence.
    + intros later Hl. unfold _process_response at 1. rewrite Hl.
      destruct (decide (c ∈ futures self')) as [Hin' | _]; [| reflexivity].
      rewrite Hf in Hin'. apply elem_of_difference in Hin' as [_ Hin'].
      exfalso. apply Hin'. now apply elem_of_singleton.
  - intros Hn. unfold _process_response. rewrite Hc.
    destruct (decide (c ∈ futures self)); [contradiction | reflexivity].
Qed.

(** A gateway that waits for the answer to [c-1]: the answer resolves
    the future; bytes that are not JSON text take the future away, and
    the answer that comes afterwards is dropped. *)
Lemma process_response_resolves_once_witness :
  let waiting := set_futures {["c-1"]} ∅ api_gateway in
  let answer := {| decoded := Ok (JDict [("data", JStr "alice")]);
                   incoming_correlation_id := Some "c-1" |} in
  let garbled := {| decoded := Raise (Exception "JSONDecodeError");
                    incoming_correlation_id := Some "c-1" |} in
  send_query_result (_process_response waiting answer) "c-1"
  = Some (Ok (JStr "alice"))
  /\ send_query_result
       (_process_response (_process_response waiting garbled) answer) "c-1"
     = None.
Proof.
  intros waiting answer garbled.
  assert (Hin : "c-1" ∈ futures waiting).
  { change ("c-1" ∈ ({["c-1"]} : gset string)). now apply elem_of_singleton. }
  split.
  - pose proof (proj1 (process_response_resolves_once waiting answer "c-1" eq_refl)
                  Hin) as (_ & H & _).
    exact (H _ eq_refl).
  - pose proof (proj1 (process_response_resolves_once waiting garbled "c-1" eq_refl)
                  Hin) as (_ & _ & Hres & _ & Hlater).
    rewrite (Hlater answer eq_refl).
    unfold send_query_result. rewrite (Hres _ eq_refl). reflexivity.
Defined.

(** X16. A query that cannot be answered is not answered at all: when no
    handler is registered for the name of the query, or when the handler
    raises, nothing is published, so the sender is told neither. *)
Theorem process_message_no_reply (self : RabbitMQConnection) (fresh_id : string)
    (query : Message) (incoming : AmqpMessage)
    (Hbody : body incoming = Message_dict query)
    (Htype : type query = QUERY) :
  (query_handlers self !! name query = None ->
   _process_message self fresh_id incoming = None)
  /\ (forall handler e,
        query_handlers self !! name query = Some handler ->
        handler (data query) = Raise e ->
        _process_message self fresh_id incoming = None).
Proof.
  destruct query as [i t n d c r]. simpl in Htype. subst t.
  unfold _process_message. rewrite Hbody.
  unfold Message_dict, dict_get, _handle_query. simpl. split.
  - intros Hn. now rewrite Hn.
  - intros handler e Hh He. now rewrite Hh, He.
Qed.

Lemma process_message_no_reply_witness :
  let query := {| id := "m-1"; type := QUERY; name := "GetOrders"; data := JNull;
                  correlation_id := Some "c-1";
                  reply_to := Some "api-gateway_callback" |} in
  _process_message user_service "r-1"
    {| body := Message_dict query; amqp_correlation_id := Some "c-1";
       amqp_reply_to := Some "api-gateway_callback" |} = None.
Proof.
  intros query.
  refine (proj1 (process_message_no_reply user_service "r-1" query
                   {| body := Message_dict query; amqp_correlation_id := Some "c-1";
                      amqp_reply_to := Some "api-gateway_callback" |}
                   eq_refl eq_refl) _).
  reflexivity.
Defined.

(** X17. A query sent with [send_query] and handled on the other side: the
    handler is given the data the sender passed, and its payload comes
    back in a message of type response named after the query, published
    under the name of the sender's callback queue. *)
Theorem query_is_answered_on_the_callback_queue
    (sender receiver : RabbitMQConnection)
    (c mid rid service q : string) (d : json) handler payload
    (Hhandler : query_handlers receiver !! q = Some handler)
    (Hpayload : handler d = Ok payload) :
  exists p,
    _process_message receiver rid (message (snd (send_query sender c mid service q d)))
    = Some p
    /\ routing_key p = Some (callback_queue_name sender)
    /\ exists response,
         Message_validate "" (body (message p)) = Some response
         /\ type response = RESPONSE
         /\ name response = q +:+ "_response"
         /\ data response = payload
         /\ id response = rid.
Proof.
  unfold send_query, _process_message. simpl.
  unfold _handle_query, dict_get. simpl. rewrite Hhandler. simpl.
  rewrite Hpayload. simpl.
  eexists. split; [reflexivity |]. split; [reflexivity |].
  eexists. split; [reflexivity |]. repeat split.
Qed.

Lemma query_is_answered_on_the_callback_queue_witness :
  exists p,
    _process_message user_service "r-1"
      (message (snd (send_query api_gateway "c-1" "m-1" "user-service" "GetUser" JNull)))
    = Some p
    /\ routing_key p = Some "api-gateway_callback".
Proof.
  destruct (query_is_answered_on_the_callback_queue api_gateway user_service
              "c-1" "m-1" "r-1" "user-service" "GetUser" JNull
              (fun _ => Ok (JStr "alice")) (JStr "alice") eq_refl eq_refl)
    as (p & Hp & Hr & _).
  exists p. split; assumption.
Defined.

End MessagingMore.

(** ** Cache: the fallback pipeline *)

Module CacheMore.
Import Redis Cache.

Lemma execute_loop_snoc {A : Type} (cs : list command) (c : command) (k : M A) db :
  (_ ← SimplePipeline.execute_loop (cs ++ [c]); k) db
  = (_ ← SimplePipeline.execute_loop cs; _ ← run_command c; k) db.
Proof.
  revert db. induction cs as [| c0 cs IH]; intros db.
  - simpl. unfold mbind, M_bind, mret, M_ret.
    destruct (run_command c db) as [[r | e] db1]; reflexivity.
  - simpl. unfold mbind, M_bind, mret, M_ret in *.
    destruct (run_command c0 db) as [[r0 | e0] db1]; [| reflexivity].
    specialize (IH db1).
    destruct (SimplePipeline.execute_loop (cs ++ [c]) db1) as [[rs | e] db2];
      destruct (SimplePipeline.execute_loop cs db1) as [[rs' | e'] db3];
      exact IH.
Qed.

Lemma queue_runs_the_calls (redis : CacheClient) (calls : list call) :
  forall (pipe : SimplePipeline.t) db,
  SimplePipeline.sp_prefix pipe = prefix redis ->
  (_ ← SimplePipeline.execute (queue calls pipe); mret tt) db
  = (_ ← SimplePipeline.execute pipe; client_calls redis calls) db.
Proof.
  unfold SimplePipeline.execute.
  induction calls as [| c rest IH]; intros pipe db Hp; [reflexivity |].
  change (queue (c :: rest) pipe) with
    (queue rest match c with
                | Incr key => SimplePipeline.incr key pipe
                | Expire key seconds => SimplePipeline.expire key seconds pipe
                | Set_ key value => SimplePipeline.set key value pipe
                | Get key => SimplePipeline.get key pipe
                end).
  rewrite IH by (destruct c; exact Hp).
  destruct c as [key | key seconds | key value | key];
    cbn [SimplePipeline.commands SimplePipeline.incr SimplePipeline.expire
         SimplePipeline.set SimplePipeline.get];
    rewrite execute_loop_snoc; unfold SimplePipeline._get_key; rewrite Hp;
    cbn [client_calls]; unfold mbind, M_bind, mret, M_ret;
    destruct (SimplePipeline.execute_loop (SimplePipeline.commands pipe) db)
      as [[rs | e] db1]; try reflexivity;
    unfold run_command, incr, expire, set, get, _get_key.
  - now destruct (Redis.incr (prefix redis +:+ key) db1) as [[n | e] db2].
  - now destruct (Redis.expire (prefix redis +:+ key) seconds db1) as [b db2].
Qed.

(** X14. Calls queued on a [SimplePipeline] and executed do to the store what
    the same calls do when they are made on the client one after the
    other: they reach the same prefixed keys in the same order, and an
    error stops both at the same call, with the calls before it done. *)
Theorem simple_pipeline_runs_the_calls (redis : CacheClient) (calls : list call)
    (db : store) :
  let pipe := queue calls {| SimplePipeline.sp_prefix := prefix redis;
                             SimplePipeline.commands := [] |} in
  (_ ← SimplePipeline.execute pipe; mret tt) db = client_calls redis calls db.
Proof.
  intros pipe. subst pipe.
  rewrite (queue_runs_the_calls redis calls
             {| SimplePipeline.sp_prefix := prefix redis;
                SimplePipeline.commands := [] |} db eq_refl).
  reflexivity.
Qed.

End CacheMore.

(** ** Command bus: further properties *)

Module CqrsMore.
Import Resilience Cqrs CqrsFacts.

Section More.
Context {W : Type}.

Lemma execute_registered (bus : CommandBus W) (handler : CommandHandler W)
    (command : BaseModel) (w : W) :
  execute_body (CommandBus_register (type_name command) handler bus) command w
  = match handler command w with
    | (Ok r, w') =>
        match getattr_success r with
        | Ok _ => (Ok r, w')
        | Raise e => (Ok (PResult (error_result e)), w')
        end
    | (Raise e, w') => (Ok (PResult (error_result e)), w')
    end.
Proof.
  unfold execute_body, CommandBus_register, CommandHandler. cbn [command_handlers].
  now rewrite lookup_insert_eq.
Qed.

(** X20. No rollback. With the breaker of [execute] closed, a command goes to
    the handler registered last for its type, and what the handler did
    to its state stays done however the call ends: a result is handed
    through as it is; a handler that returns [None] instead of a result
    is reported as a failure (the attribute error on [None]); a handler
    that raises is reported as a failure with the text of the
    exception. *)
Theorem command_bus_keeps_handler_effects (bus : CommandBus W)
    (handler : CommandHandler W) (command : BaseModel) (clock : nat -> Q)
    (reg : registry) (w w' : W)
    (Hclosed : breaker_closed reg) :
  let self := CommandBus_register (type_name command) handler bus in
  let out := execute self command clock reg w in
  (forall r, handler command w = (Ok (PResult r), w') ->
     fst (fst out) = Ok (PResult r) /\ snd out = w')
  /\ (handler command w = (Ok PNone, w') ->
      fst (fst out)
      = Ok (PResult (error_result
                       (AttributeError "'NoneType' object has no attribute 'success'")))
      /\ snd out = w')
  /\ (forall e, handler command w = (Raise e, w') ->
        fst (fst out) = Ok (PResult (error_result e)) /\ snd out = w').
Proof.
  intros self out. subst self out.
  destruct (execute_closed (CommandBus_register (type_name command) handler bus)
              command clock reg w Hclosed) as (cb & _ & E).
  rewrite E, execute_registered. cbn [fst snd].
  split; [| split].
  - intros r Hr. rewrite Hr. split; reflexivity.
  - intros Hr. rewrite Hr. split; reflexivity.
  - intros e Hr. rewrite Hr. split; reflexivity.
Qed.

(** X21. The breaker of [execute] never opens. From a closed (or not yet
    created) breaker on, any sequence of commands gives exactly the
    results and the effects of the undecorated body run on each command
    in turn, and leaves the breaker closed: failures of handlers come
    back as results and are never counted. *)
Theorem command_bus_breaker_never_opens (self : CommandBus W)
    (commands : list (BaseModel * (nat -> Q))) (reg : registry) (w : W)
    (Hclosed : breaker_closed reg) :
  let out := execute_all self commands reg w in
  (fst (fst out), snd out) = execute_bodies self (map fst commands) w
  /\ breaker_closed (snd (fst out)).
Proof.
  revert reg w Hclosed.
  induction commands as [| [command clock] rest IH]; intros reg w Hclosed.
  - split; [reflexivity | exact Hclosed].
  - pose proof (execute_keeps_closed self command clock reg w Hclosed) as Hc'.
    destruct (execute_closed self command clock reg w Hclosed) as (cb & _ & E).
    cbn [execute_all execute_bodies map fst].
    rewrite E in *. cbn [fst snd] in *.
    destruct (execute_body self command w) as [r w1]. cbn [fst snd] in *.
    specialize (IH _ w1 Hc'). cbv zeta in IH.
    destruct (execute_all self rest _ w1) as [[rs reg2] w2].
    cbn [fst snd] in *. destruct IH as [IH1 IH2].
    rewrite <- IH1. split; [reflexivity | exact IH2].
Qed.

End More.

(** A handler that writes to the journal and forgets to return its
    result. *)
Lemma command_bus_keeps_handler_effects_witness :
  let forgetful : CommandHandler (list string) :=
    fun _ journal => (Ok PNone, journal ++ ["user created"]) in
  let out := execute (CommandBus_register "CreateUserCommand" forgetful
                        example_command_bus)
               {| type_name := "CreateUserCommand"; fields := Messaging.JNull |}
               (fun _ => 1700000000%Q) ∅ [] in
  (exists r, fst (fst out) = Ok (PResult r) /\ success r = false)
  /\ snd out = ["user created"].
Proof.
  intros forgetful out.
  assert (Hc : @breaker_closed ∅) by exact I.
  pose proof (proj1 (proj2 (command_bus_keeps_handler_effects example_command_bus
                forgetful
                {| type_name := "CreateUserCommand"; fields := Messaging.JNull |}
                (fun _ => 1700000000%Q) ∅ [] ["user created"] Hc)) eq_refl)
    as [H1 H2].
  split; [eexists; split; [exact H1 | reflexivity] | exact H2].
Defined.

(** Six commands in a row whose handler raises, one more than the
    failure threshold of the breaker. *)
Lemma command_bus_breaker_never_opens_witness :
  let command := {| type_name := "CreateUserCommand"; fields := Messaging.JNull |} in
  let noon : nat -> Q := fun _ => 1700000000%Q in
  breaker_closed
    (snd (fst (execute_all example_command_bus
                 [(command, noon); (command, noon); (command, noon);
                  (command, noon); (command, noon); (command, noon)] ∅ []))).
Proof.
  intros command noon.
  assert (Hc : @breaker_closed ∅) by exact I.
  exact (proj2 (command_bus_breaker_never_opens example_command_bus
                  [(command, noon); (command, noon); (command, noon);
                   (command, noon); (command, noon); (command, noon)] ∅ [] Hc)).
Defined.

End CqrsMore.

(** ** Message bus, consumer side *)

Module ConsumerMore.
Import Messaging Messaging.Consumer.

Section More.
Context {W : Type}.

Lemma delivered_type (m : Message) :
  dict_get (body (delivered m)) "type" = Ok (JStr (MessageType_value (type m))).
Proof. reflexivity. Qed.

Lemma delivered_name (m : Message) :
  dict_get (body (delivered m)) "name" = Ok (JStr (name m)).
Proof. reflexivity. Qed.

Lemma delivered_data (m : Message) :
  dict_get (body (delivered m)) "data" = Ok (data m).
Proof. reflexivity. Qed.

Lemma process_event (self : Connection W) fresh_id (m : Message) (w : W) :
  type m = EVENT ->
  _process_message self fresh_id (delivered m) w
  = (None,
     fst (run_handlers (default [] (event_handlers self !! name m)) (Ok (data m)) w),
     snd (run_handlers (default [] (event_handlers self !! name m)) (Ok (data m)) w)).
Proof.
  intros Ht. unfold _process_message.
  rewrite delivered_type, delivered_name, Ht.
  unfold mbind, result_bind, bind, mret, result_ret. cbv beta iota.
  change (is_type (JStr (MessageType_value EVENT)) COMMAND) with false.
  change (is_type (JStr (MessageType_value EVENT)) QUERY) with false.
  change (is_type (JStr (MessageType_value EVENT)) EVENT) with true.
  cbv iota. unfold _handle_event.
  rewrite delivered_name, delivered_data.
  unfold mbind, result_bind, bind, mret, result_ret. cbv beta iota.
  cbn [str_key mbind option_bind].
  now destruct (run_handlers _ _ w).
Qed.

Lemma process_command (self : Connection W) fresh_id (m : Message) (w : W) :
  type m = COMMAND ->
  _process_message self fresh_id (delivered m) w
  = match command_handlers self !! name m with
    | Some handler =>
        (None, [(label handler, fst (call handler (data m) w))],
         snd (call handler (data m) w))
    | None => (None, [], w)
    end.
Proof.
  intros Ht. unfold _process_message.
  rewrite delivered_type, delivered_name, Ht.
  unfold mbind, result_bind, bind, mret, result_ret. cbv beta iota.
  change (is_type (JStr (MessageType_value COMMAND)) COMMAND) with true.
  cbv iota. unfold _handle_command.
  rewrite delivered_name, delivered_data.
  unfold mbind, result_bind, bind, mret, result_ret. cbv beta iota.
  cbn [str_key mbind option_bind].
  destruct (command_handlers self !! name m) as [handler |]; [| reflexivity].
  now destruct (call handler (data m) w).
Qed.

Lemma run_handlers_labels (handlers : list (Handler W)) data_ : forall w,
  map fst (fst (run_handlers handlers data_ w)) = map label handlers.
Proof.
  induction handlers as [| h rest IH]; intros w; simpl; [reflexivity |].
  destruct (match data_ with Ok d => call h d w | Raise e => (Raise e, w) end)
    as [r w1].
  specialize (IH w1). destruct (run_handlers rest data_ w1) as [calls w2].
  simpl in *. now rewrite IH.
Qed.

Lemma run_handlers_split (before after : list (Handler W)) data_ w :
  run_handlers (before ++ after) data_ w =
    let '(calls1, w1) := run_handlers before data_ w in
    let '(calls2, w2) := run_handlers after data_ w1 in
    (calls1 ++ calls2, w2).
Proof.
  revert w. induction before as [| h rest IH]; intros w; simpl.
  - now destruct (run_handlers after data_ w).
  - destruct (match data_ with Ok d => call h d w | Raise e => (Raise e, w) end)
      as [r w1].
    rewrite IH. destruct (run_handlers rest data_ w1) as [calls1 w2].
    now destruct (run_handlers after data_ w2).
Qed.

Lemma subscribe_event_handlers (self : Connection W) event_name handler :
  event_handlers (subscribe_event event_name handler self) !! event_name
  = Some (default [] (event_handlers self !! event_name) ++ [handler]).
Proof. unfold subscribe_event. simpl. apply lookup_insert_eq. Qed.

Lemma subscribe_all_handlers event_name (handlers : list (Handler W)) :
  forall self : Connection W,
  handlers <> [] ->
  event_handlers (subscribe_all event_name handlers self) !! event_name
  = Some (default [] (event_handlers self !! event_name) ++ handlers).
Proof.
  induction handlers as [| h rest IH]; intros self Hne; [congruence |].
  unfold subscribe_all. simpl.
  fold (subscribe_all event_name rest (subscribe_event event_name h self)).
  destruct rest as [| h' rest'].
  - simpl. apply subscribe_event_handlers.
  - rewrite IH by discriminate. rewrite subscribe_event_handlers. simpl.
    now rewrite <- app_assoc.
Qed.

Lemma run_handlers_state_after (handlers : list (Handler W)) d : forall w,
  snd (run_handlers handlers (Ok d) w) = state_after handlers d w.
Proof.
  induction handlers as [| h rest IH]; intros w; [reflexivity |].
  cbn [run_handlers state_after fold_left].
  destruct (call h d w) as [r w1]. specialize (IH w1).
  destruct (run_handlers rest (Ok d) w1) as [calls w2]. exact IH.
Qed.

Lemma run_handlers_nth (handlers : list (Handler W)) d : forall w i h,
  handlers !! i = Some h ->
  fst (run_handlers handlers (Ok d) w) !! i
  = Some (label h, fst (call h d (state_after (take i handlers) d w))).
Proof.
  induction handlers as [| h0 rest IH]; intros w i h Hi.
  - rewrite lookup_nil in Hi. discriminate Hi.
  - cbn [run_handlers].
    destruct (call h0 d w) as [r w1] eqn:E0.
    specialize (IH w1).
    destruct (run_handlers rest (Ok d) w1) as [calls w2].
    destruct i as [| i].
    + injection Hi as <-. cbn. now rewrite E0.
    + cbn in Hi. cbn [fst] in *. cbn [lookup list_lookup take state_after fold_left].
      rewrite E0. cbn [snd]. exact (IH i h Hi).
Qed.

(** X18. An event message that is delivered reaches every handler
    subscribed under its name. The calls [_process_message] makes are
    exactly these handlers, each one once and in the order of the
    subscriptions: call number [i] is the call of handler number [i]
    with the data of the message, on the state the handlers before it
    left, whether or not they raised, and its outcome is what that
    handler returns or raises there. The state left is the state after
    the last handler, and nothing is published. [subscribe_event]
    appends, so handlers subscribed one after the other under a name
    that had none are called in that order. *)
Theorem event_message_reaches_every_handler (self : Connection W)
    (fresh_id : string) (m : Message) (w : W)
    (Htype : type m = EVENT) :
  let handlers := default [] (event_handlers self !! name m) in
  let out := _process_message self fresh_id (delivered m) w in
  fst (fst out) = None
  /\ map fst (snd (fst out)) = map label handlers
  /\ (forall i h, handlers !! i = Some h ->
        snd (fst out) !! i
        = Some (label h, fst (call h (data m) (state_after (take i handlers) (data m) w))))
  /\ snd out = state_after handlers (data m) w
  /\ (forall subscribed,
        event_handlers self !! name m = None ->
        default [] (event_handlers (subscribe_all (name m) subscribed self) !! name m)
        = subscribed
        /\ map fst (snd (fst (_process_message (subscribe_all (name m) subscribed self)
                                fresh_id (delivered m) w)))
           = map label subscribed).
Proof.
  intros handlers out. subst out.
  rewrite (process_event self fresh_id m w Htype). fold handlers. cbn [fst snd].
  assert (Hsub : forall subscribed,
            event_handlers self !! name m = None ->
            default [] (event_handlers (subscribe_all (name m) subscribed self) !! name m)
            = subscribed).
  { intros subscribed Hnone. destruct subscribed as [| h rest].
    - unfold subscribe_all. cbn [fold_left]. now rewrite Hnone.
    - rewrite subscribe_all_handlers by discriminate. now rewrite Hnone. }
  split; [reflexivity |]. split; [apply run_handlers_labels |].
  split; [intros i h Hi; now apply run_handlers_nth |].
  split; [apply run_handlers_state_after |].
  intros subscribed Hnone. split; [now apply Hsub |].
  rewrite (process_event _ fresh_id m w Htype). cbn [fst snd].
  rewrite run_handlers_labels. now rewrite (Hsub subscribed Hnone).
Qed.

(** X19. A command message that is delivered: when no handler is registered
    under its name it is dropped, and nothing is called or changed; when
    handlers were registered under its name one after the other, only
    the last one is called, once, with the data of the message, and an
    exception it raises stays inside [_process_message]. Handlers of
    events subscribed under the same name are not called, and nothing is
    published. *)
Theorem command_message_reaches_last_handler (self : Connection W)
    (fresh_id : string) (m : Message) (w : W)
    (Htype : type m = COMMAND) :
  (command_handlers self !! name m = None ->
   _process_message self fresh_id (delivered m) w = (None, [], w))
  /\ (forall earlier last,
        _process_message
          (register_command (name m) last (register_command (name m) earlier self))
          fresh_id (delivered m) w
        = (None, [(label last, fst (call last (data m) w))],
           snd (call last (data m) w))).
Proof.
  split.
  - intros Hnone. rewrite (process_command self fresh_id m w Htype).
    now rewrite Hnone.
  - intros earlier last. rewrite (process_command _ fresh_id m w Htype).
    unfold register_command. cbn [command_handlers].
    now rewrite lookup_insert_eq.
Qed.

End More.

(** Three subscribers of one event, the first of which raises: the log
    they leave shows the order in which they ran. *)
Lemma event_message_reaches_every_handler_witness :
  let journal (n : string) (outcome : result unit) : Handler (list string) :=
    {| label := n; call := fun _ log => (outcome, log ++ [n]) |} in
  let conn :=
    subscribe_all "UserCreated"
      [journal "audit" (Raise (Exception "disk full"));
       journal "mail" (Ok tt); journal "metrics" (Ok tt)]
      {| event_handlers := ∅; command_handlers := ∅; queries := user_service |} in
  let m := {| id := "m-1"; type := EVENT; name := "UserCreated"; data := JNull;
              correlation_id := None; reply_to := None |} in
  map fst (snd (fst (_process_message conn "r-1" (delivered m) [])))
  = ["audit"; "mail"; "metrics"]
  /\ snd (_process_message conn "r-1" (delivered m) []) = ["audit"; "mail"; "metrics"].
Proof.
  intros journal conn m.
  pose proof (event_message_reaches_every_handler conn "r-1" m [] eq_refl)
    as (_ & H2 & _ & H4 & _).
  split; [exact H2 | exact H4].
Defined.

(** A command without a handler, and a command whose handler was
    registered twice. *)
Lemma command_message_reaches_last_handler_witness :
  let journal (n : string) (outcome : result unit) : Handler (list string) :=
    {| label := n; call := fun _ log => (outcome, log ++ [n]) |} in
  let conn : Connection (list string) :=
    {| event_handlers := ∅; command_handlers := ∅; queries := user_service |} in
  let m := {| id := "m-1"; type := COMMAND; name := "CreateUser"; data := JNull;
              correlation_id := None; reply_to := None |} in
  _process_message conn "r-1" (delivered m) [] = (None, [], [])
  /\ _process_message
       (register_command "CreateUser" (journal "v2" (Raise (Exception "boom")))
          (register_command "CreateUser" (journal "v1" (Ok tt)) conn))
       "r-1" (delivered m) []
     = (None, [("v2", Raise (Exception "boom"))], ["v2"]).
Proof.
  intros journal conn m. split.
  - exact (proj1 (command_message_reaches_last_handler conn "r-1" m [] eq_refl)
             (lookup_empty _)).
  - exact (proj2 (command_message_reaches_last_handler conn "r-1" m [] eq_refl)
             (journal "v1" (Ok tt)) (journal "v2" (Raise (Exception "boom")))).
Defined.

End ConsumerMore.
